(** * zap server: the upstream connection registry and its reconnection watcher

    A shallow embedding of [vendor/github.com/sourcegraph/zap/server_remotes.go].

    The Go file keeps one upstream connection per remote endpoint in a map
    guarded by a mutex, spawns one goroutine per connection that waits for
    the connection's disconnect signal, and re-establishes watches and
    overwrite refs after a reconnect.

    - Data are records and [gmap]s, as the Go structs and maps.
    - Every function of the file is a computation in a state-and-panic monad
      over a [World]: the server's fields, the goroutines spawned so far,
      the disconnect channels that have fired and the chronological trace of
      the calls made to collaborators outside the file.
    - Each critical section of the Go code is one atomic step of an
      interleaving semantics ([step], [run]). *)

From Stdlib Require Import ZArith Lia.
From stdpp Require Import base option list gmap strings.

Local Open Scope string_scope.
Local Open Scope list_scope.

(** ** Values exchanged with collaborators *)

(** A Go [error] value. *)
Inductive error := errorString (msg : string).

Definition Error_ (e : error) : string := match e with errorString msg => msg end.

(** The [context.Context] values that reach this file: [context.Background()],
    the server's [bgCtx] field, and the context of some caller's request. *)
Inductive Context := ctxBackground | ctxServerBg | ctxRequest (id : nat).

(** [context.Background()] is never cancelled; nothing else is known here
    about the other two. *)
Definition never_cancelled (ctx : Context) : bool :=
  match ctx with ctxBackground => true | _ => false end.

(** A value of the interface [UpstreamClient]: the identity of the connection
    object. What its methods answer is decided by the environment [Env]. *)
Inductive UpstreamClient := client (id : nat).

Record RepoWatchParams := mkRepoWatchParams {
  rw_Repo : string;
  rw_Refspec : string }.

Record RefIdentifier := mkRefIdentifier {
  ri_Repo : string;
  ri_Ref : string }.

Record RefBaseInfo := mkRefBaseInfo {
  GitBase : string;
  GitBranch : string }.

(** The entries of a ref's history are opaque to this file. *)
Definition Op := string.

Record RefState := mkRefState {
  rs_RefBaseInfo : RefBaseInfo;
  History : list Op }.

Record RefUpdateUpstreamParams := mkRefUpdateUpstreamParams {
  ru_RefIdentifier : RefIdentifier;
  Force : bool;
  State : option RefState }.

(** ** Repositories *)

Record RepoRemoteConfiguration := mkRepoRemoteConfiguration {
  remote_Endpoint : string;
  remote_Repo : string;
  remote_Refspec : string }.

Record RefConfiguration := mkRefConfiguration {
  Upstream : string;
  Overwrite : bool }.

Record RepoConfiguration := mkRepoConfiguration {
  Remotes : gmap string RepoRemoteConfiguration;
  Refs : gmap string RefConfiguration }.

(** The object stored in the ref database for a ref; [history] is a method
    in Go. *)
Record serverRef := mkServerRef {
  gitBase : string;
  gitBranch : string;
  history : list Op }.

(** [refdb.Lookup name] is [refdb !! name]; [nil] is [None]. The object of
    a ref is a [serverRef], as the unchecked type assertion of tryReconnect
    takes it to be. *)
Record serverRepo := mkServerRepo {
  config : RepoConfiguration;
  refdb : gmap string serverRef }.

(** ** Logging *)

Inductive Level := levelDebug | levelInfo | levelWarn | levelError.

(** A [*log.Context]: the key/value pairs added with [With]. *)
Definition Logger := list (string * string).

Definition baseLogger : Logger := [].

Definition With (log : Logger) (key value : string) : Logger := log ++ [(key, value)].

(** ** Backoff policy *)

(** [time.Duration]: nanoseconds. *)
Definition Nanosecond : Z := 1.
Definition Millisecond : Z := 1000000 * Nanosecond.
Definition Second : Z := 1000 * Millisecond.
Definition Minute : Z := 60 * Second.

Record ExponentialBackOff := mkExponentialBackOff {
  InitialInterval : Z;
  Multiplier : Z;
  MaxElapsedTime : Z;
  currentInterval : Z;
  startTime : Z }.

(** Modelled from the spec: package [backoff] is not among the sources. The
    spec describes an exponential schedule given by an initial interval, a
    multiplier and a budget of elapsed time. [remoteBackOff] overwrites the
    three fields, so the values the constructor gives them do not matter. *)
Definition NewExponentialBackOff : ExponentialBackOff :=
  {| InitialInterval := 0; Multiplier := 1; MaxElapsedTime := 0;
     currentInterval := 0; startTime := 0 |}.

Definition remoteBackOff : ExponentialBackOff :=
  let p := NewExponentialBackOff in
  let p := {| InitialInterval := 500 * Millisecond; Multiplier := Multiplier p;
              MaxElapsedTime := MaxElapsedTime p;
              currentInterval := currentInterval p; startTime := startTime p |} in
  let p := {| InitialInterval := InitialInterval p; Multiplier := 2;
              MaxElapsedTime := MaxElapsedTime p;
              currentInterval := currentInterval p; startTime := startTime p |} in
  let p := {| InitialInterval := InitialInterval p; Multiplier := Multiplier p;
              MaxElapsedTime := 1 * Minute;
              currentInterval := currentInterval p; startTime := startTime p |} in
  p.

(** Modelled from the spec: the retry loop starts its schedule at the
    initial interval, at the clock reading [now]. *)
Definition Reset (b : ExponentialBackOff) (now : Z) : ExponentialBackOff :=
  {| InitialInterval := InitialInterval b; Multiplier := Multiplier b;
     MaxElapsedTime := MaxElapsedTime b;
     currentInterval := InitialInterval b; startTime := now |}.

(** Modelled from the spec: the value that ends the retry loop. *)
Definition Stop : Z := -1.

(** Modelled from the spec: the next interval of the schedule at clock
    reading [now]. Once the time elapsed since [Reset] exceeds the budget
    the answer is [Stop]; otherwise it is the current interval, and the
    interval after it is [Multiplier] times as long. *)
Definition NextBackOff (b : ExponentialBackOff) (now : Z) : Z * ExponentialBackOff :=
  if (now - startTime b >? MaxElapsedTime b)%Z then (Stop, b)
  else (currentInterval b,
        {| InitialInterval := InitialInterval b; Multiplier := Multiplier b;
           MaxElapsedTime := MaxElapsedTime b;
           currentInterval := (currentInterval b * Multiplier b)%Z;
           startTime := startTime b |}).

(** ** The trace of calls that leave the file *)

(** The two closures installed on a new connection. *)
Inductive Handler :=
| forwardRefUpdate (endpoint : string)
    (* calls sr.parent.handleRefUpdateFromUpstream(ctx, log, params, endpoint),
       logs its error and returns it *)
| symbolicNoop.
    (* returns nil *)

Inductive Event :=
| EvNewClient (ctx : Context) (endpoint : string) (res : UpstreamClient + error)
| EvLog (log : Logger) (lvl : Level) (keyvals : list (string * string))
| EvGo (cl : UpstreamClient) (endpoint : string)
| EvSetRefUpdateCallback (cl : UpstreamClient) (h : Handler)
| EvSetRefUpdateSymbolicCallback (cl : UpstreamClient) (h : Handler)
| EvClose (cl : UpstreamClient) (res : option error)
| EvRepoWatch (cl : UpstreamClient) (ctx : Context) (p : RepoWatchParams) (res : option error)
| EvRefUpdate (cl : UpstreamClient) (ctx : Context) (p : RefUpdateUpstreamParams)
    (res : option error)
| EvSleep (d : Z).

(** The function injected with [ConfigureRemoteClientFunc]. Its first
    argument is the logical time of the call (the length of the trace), so
    that it may answer differently each time. Its answer is the error when
    the Go function returns one, and the connection otherwise. A Go function
    that returns a nil connection together with a nil error, on which
    getOrCreateClient fails with a nil dereference, has no counterpart
    here. *)
Definition newClientFunc : Type := nat -> Context -> string -> UpstreamClient + error.

(** What the upstream connections answer, and the order in which each
    [range] over a map visits its entries; both may depend on the logical
    time. *)
Record Env := mkEnv {
  env_RepoWatch : nat -> UpstreamClient -> Context -> RepoWatchParams -> option error;
  env_RefUpdate : nat -> UpstreamClient -> Context -> RefUpdateUpstreamParams -> option error;
  env_Close : nat -> UpstreamClient -> option error;
  env_range : forall V : Type, nat -> gmap string V -> list (string * V) }.

(** Go visits every entry of a map once, in an unspecified order. *)
Definition range_ok (env : Env) : Prop :=
  forall (V : Type) (t : nat) (m : gmap string V), env_range env V t m ≡ₚ map_to_list m.

(** ** The server *)

(** [conn] is [None] while the Go map is nil. *)
Record serverRemotes := mkServerRemotes {
  conn : option (gmap string UpstreamClient);
  newClient : option newClientFunc }.

Record Server := mkServer {
  remotes : serverRemotes;
  closed : bool;
  repos : gmap string serverRepo }.

(** ** The disconnect watcher, a goroutine *)

Inductive WatcherPC :=
| pcWaitDisconnect                 (* blocked on <-cl.DisconnectNotify() *)
| pcCheckClosed                    (* about to read sr.parent.closed *)
| pcRemoveEntry                    (* closed was false; about to delete the entry *)
| pcTryReconnect (b : ExponentialBackOff)
                                   (* in the retry loop, about to call tryReconnect *)
| pcReestablish (b : ExponentialBackOff) (cl : UpstreamClient)
                                   (* in tryReconnect, after getOrCreateClient *)
| pcExited.

Record Watcher := mkWatcher {
  w_cl : UpstreamClient;
  w_endpoint : string;
  w_pc : WatcherPC }.

Record World := mkWorld {
  server : Server;
  goroutines : list Watcher;
  notified : list UpstreamClient;   (* connections whose disconnect channel has fired *)
  trace : list Event }.

#[global] Instance UpstreamClient_eq_dec : EqDecision UpstreamClient.
Proof. solve_decision. Defined.

(** ** The monad: state over [World], with Go's panic *)

Inductive Outcome (A : Type) :=
| Ret (a : A) (w : World)
| Panic (msg : string) (w : World).
Arguments Ret {A} a w.
Arguments Panic {A} msg w.

Definition M (A : Type) : Type := World -> Outcome A.

#[global] Instance M_ret : MRet M := fun A a w => Ret a w.
#[global] Instance M_bind : MBind M := fun A B k m w =>
  match m w with
  | Ret a w' => k a w'
  | Panic msg w' => Panic msg w'
  end.

Definition panic {A} (msg : string) : M A := fun w => Panic msg w.

Definition gets {A} (f : World -> A) : M A := fun w => Ret (f w) w.

Definition modify (f : World -> World) : M unit := fun w => Ret tt (f w).

Definition now_ : M nat := gets (fun w => length (trace w)).

Definition emit (ev : Event) : M unit :=
  modify (fun w => {| server := server w; goroutines := goroutines w;
                      notified := notified w; trace := trace w ++ [ev] |}).

Definition set_server (s : Server) : M unit :=
  modify (fun w => {| server := s; goroutines := goroutines w;
                      notified := notified w; trace := trace w |}).

Definition set_conn (c : option (gmap string UpstreamClient)) : M unit :=
  s ← gets server;
  set_server {| remotes := {| conn := c; newClient := newClient (remotes s) |};
                closed := closed s; repos := repos s |}.

Definition Log (log : Logger) (lvl : Level) (keyvals : list (string * string)) : M unit :=
  emit (EvLog log lvl keyvals).

(** Reading a nil map finds nothing. *)
Definition conn_lookup (c : option (gmap string UpstreamClient)) (endpoint : string)
  : option UpstreamClient :=
  match c with
  | None => None
  | Some m => m !! endpoint
  end.

(** [delete] on a nil map does nothing. *)
Definition conn_delete (c : option (gmap string UpstreamClient)) (endpoint : string)
  : option (gmap string UpstreamClient) :=
  match c with
  | None => None
  | Some m => Some (delete endpoint m)
  end.

(** [go func() { ... }()] of getOrCreateClient: the new goroutine captures
    [cl] and [endpoint] and starts blocked on the disconnect channel. *)
Definition go (cl : UpstreamClient) (endpoint : string) : M unit :=
  emit (EvGo cl endpoint);;
  modify (fun w => {| server := server w;
                      goroutines := goroutines w ++
                        [{| w_cl := cl; w_endpoint := endpoint; w_pc := pcWaitDisconnect |}];
                      notified := notified w; trace := trace w |}).

(** ** The functions of server_remotes.go *)

Section WithEnv.

Variable env : Env.

(** [sr.newClient(ctx, endpoint)]: the injected function is asked, and call
    and answer are recorded. *)
Definition call_newClient (f : newClientFunc) (ctx : Context) (endpoint : string)
  : M (UpstreamClient + error) :=
  t ← now_;
  let res := f t ctx endpoint in
  emit (EvNewClient ctx endpoint res);;
  mret res.

Definition call_Close (cl : UpstreamClient) : M (option error) :=
  t ← now_;
  let res := env_Close env t cl in
  emit (EvClose cl res);;
  mret res.

Definition call_RepoWatch (cl : UpstreamClient) (ctx : Context) (p : RepoWatchParams)
  : M (option error) :=
  t ← now_;
  let res := env_RepoWatch env t cl ctx p in
  emit (EvRepoWatch cl ctx p res);;
  mret res.

Definition call_RefUpdate (cl : UpstreamClient) (ctx : Context) (p : RefUpdateUpstreamParams)
  : M (option error) :=
  t ← now_;
  let res := env_RefUpdate env t cl ctx p in
  emit (EvRefUpdate cl ctx p res);;
  mret res.

(** [for k, v := range m { if err := body(k, v); err != nil { return err } }]
    over the entries in the order [l]. *)
Fixpoint for_range {V : Type} (l : list (string * V)) (body : string -> V -> M (option error))
  : M (option error) :=
  match l with
  | [] => mret None
  | (k, v) :: l' =>
      r ← body k v;
      match r with
      | Some err => mret (Some err)
      | None => for_range l' body
      end
  end.

(** The order in which a [range] statement executed now visits [m]. *)
Definition range {V : Type} (m : gmap string V) : M (list (string * V)) :=
  t ← now_;
  mret (env_range env V t m).

(** [Server.ConfigureRemoteClientFunc]; a nil func value is [None]. *)
Definition ConfigureRemoteClientFunc (f : option newClientFunc) : M unit :=
  s ← gets server;
  match newClient (remotes s) with
  | Some _ => panic "(serverRemotes).newClient is already set"
  | None =>
      set_server {| remotes := {| conn := conn (remotes s); newClient := f |};
                    closed := closed s; repos := repos s |}
  end.

(** [serverRemotes.getClient]: the pair [(c, ok)], with [None] for nil. *)
Definition getClient (endpoint : string) : M (option UpstreamClient * bool) :=
  s ← gets server;
  match conn_lookup (conn (remotes s)) endpoint with
  | Some c => mret (Some c, true)
  | None => mret (None, false)
  end.

(** [serverRemotes.getOrCreateClient]. The whole body runs with [sr.mu]
    held. The [ctx] of the caller is shadowed by the server's background
    context before the dial. *)
Definition getOrCreateClient (ctx : Context) (log : Logger) (endpoint : string)
  : M (UpstreamClient + error) :=
  s ← gets server;
  match newClient (remotes s) with
  | None =>
      panic ("(serverRemotes).newClient must be set with (" +:+
             "*Server).ConfigureRemoteClientFunc")
  | Some newClient_ =>
      match conn_lookup (conn (remotes s)) endpoint with
      | Some cl => mret (inl cl)
      | None =>
          let ctx := ctxServerBg in
          r ← call_newClient newClient_ ctx endpoint;
          match r with
          | inr err => mret (inr err)
          | inl cl =>
              Log log levelInfo [("connected-to-remote", endpoint)];;
              go cl endpoint;;
              emit (EvSetRefUpdateCallback cl (forwardRefUpdate endpoint));;
              emit (EvSetRefUpdateSymbolicCallback cl symbolicNoop);;
              s ← gets server;
              let m := match conn (remotes s) with
                       | None => ∅
                       | Some m => m
                       end in
              set_conn (Some (<[endpoint := cl]> m));;
              mret (inl cl)
          end
      end
  end.

(** [serverRemotes.closeAndRemoveClient]. *)
Definition closeAndRemoveClient (endpoint : string) : M (option error) :=
  s ← gets server;
  match conn_lookup (conn (remotes s)) endpoint with
  | None => panic ("no remote client for endpoint " +:+ endpoint)
  | Some cl =>
      set_conn (conn_delete (conn (remotes s)) endpoint);;
      call_Close cl
  end.

(** The closure [reestablishRepo] of tryReconnect; it runs with [repo.mu]
    held. *)
Definition reestablishRepo (cl : UpstreamClient) (ctx : Context) (log : Logger)
    (endpoint : string) (repoName : string) (repo : serverRepo) : M (option error) :=
  remotes_ ← range (Remotes (config repo));
  for_range remotes_ (fun remoteName remote =>
    if decide (remote_Endpoint remote = endpoint) then
      Log log levelDebug [("reestablish-watch-repo", repoName); ("remote", remoteName)];;
      r ← call_RepoWatch cl ctx
            {| rw_Repo := remote_Repo remote; rw_Refspec := remote_Refspec remote |};
      match r with
      | Some err => mret (Some err)
      | None =>
          refs_ ← range (Refs (config repo));
          for_range refs_ (fun refName refConfig =>
            let ref := refdb repo !! refName in
            (* refConfig.Overwrite && refConfig.Upstream == remoteName && ref != nil *)
            match ref with
            | Some o =>
                if Overwrite refConfig && bool_decide (Upstream refConfig = remoteName) then
                  call_RefUpdate cl ctx
                    {| ru_RefIdentifier := {| ri_Repo := remote_Repo remote; ri_Ref := refName |};
                       Force := true;
                       State := Some {| rs_RefBaseInfo :=
                                          {| GitBase := gitBase o; GitBranch := gitBranch o |};
                                        History := history o |} |}
                else mret None
            | None => mret None
            end)
      end
    else mret None).

(** The second half of tryReconnect: every repository in turn, with
    [sr.parent.reposMu] held. *)
Definition reestablish (cl : UpstreamClient) (ctx : Context) (log : Logger)
    (endpoint : string) : M (option error) :=
  s ← gets server;
  repos_ ← range (repos s);
  for_range repos_ (reestablishRepo cl ctx log endpoint).

(** The first half of tryReconnect, up to the log line reconnect-ok. The
    mutex [sr.mu] is released when getOrCreateClient returns, so other
    threads may run between the two halves. *)
Definition tryReconnect_connect (ctx : Context) (log : Logger) (endpoint : string)
  : M (UpstreamClient + error) :=
  Log log levelDebug [("try-reconnect", EmptyString)];;
  r ← getOrCreateClient ctx log endpoint;
  match r with
  | inr err => mret (inr err)
  | inl cl =>
      Log log levelDebug [("reconnect-ok", EmptyString)];;
      mret (inl cl)
  end.

(** [serverRemotes.tryReconnect]. *)
Definition tryReconnect (ctx : Context) (log : Logger) (endpoint : string)
  : M (option error) :=
  r ← tryReconnect_connect ctx log endpoint;
  match r with
  | inr err => mret (Some err)
  | inl cl => reestablish cl ctx log endpoint
  end.

End WithEnv.

(** ** The disconnect watcher and the interleaving semantics *)

Section Semantics.

Variable env : Env.

Definition set_pc (i : nat) (wt : Watcher) (pc : WatcherPC) : M unit :=
  modify (fun w =>
    {| server := server w;
       goroutines := <[i := {| w_cl := w_cl wt; w_endpoint := w_endpoint wt; w_pc := pc |}]>
                       (goroutines w);
       notified := notified w; trace := trace w |}).

(** Modelled from the spec: one failed attempt inside the retry loop of
    package [backoff]. The schedule is asked for the next interval at clock
    reading [now]; on [Stop] the loop returns the error, which the watcher
    logs before it ends; otherwise the notify function logs the error, the
    loop sleeps and tries again. *)
Definition retry_failed (i : nat) (wt : Watcher) (log : Logger) (b : ExponentialBackOff)
    (now : Z) (err : error) : M unit :=
  let '(next, b') := NextBackOff b now in
  if (next =? Stop)%Z then
    Log log levelError [("reconnect-failed-after-retries", Error_ err)];;
    set_pc i wt pcExited
  else
    Log log levelDebug [("retry-reconnect-after-error", Error_ err)];;
    emit (EvSleep next);;
    set_pc i wt (pcTryReconnect b').

(** The goroutine started by getOrCreateClient, one atomic action at a time.
    [now] is the reading of the clock during the action. *)
Definition watcher (now : Z) (i : nat) (wt : Watcher) : M unit :=
  let endpoint := w_endpoint wt in
  let log := With baseLogger "remote-client-monitor" endpoint in
  match w_pc wt with
  | pcWaitDisconnect =>
      n ← gets notified;
      if bool_decide (w_cl wt ∈ n) then set_pc i wt pcCheckClosed else mret tt
  | pcCheckClosed =>
      s ← gets server;
      if closed s then set_pc i wt pcExited else set_pc i wt pcRemoveEntry
  | pcRemoveEntry =>
      Log log levelWarn [("disconnected", EmptyString)];;
      s ← gets server;
      set_conn (conn_delete (conn (remotes s)) endpoint);;
      set_pc i wt (pcTryReconnect (Reset remoteBackOff now))
  | pcTryReconnect b =>
      r ← tryReconnect_connect ctxBackground log endpoint;
      match r with
      | inr err => retry_failed i wt log b now err
      | inl cl => set_pc i wt (pcReestablish b cl)
      end
  | pcReestablish b cl =>
      r ← reestablish env cl ctxBackground log endpoint;
      match r with
      | Some err => retry_failed i wt log b now err
      | None => set_pc i wt pcExited
      end
  | pcExited => mret tt
  end.

(** What can happen next: a call of one of the file's functions by some
    thread of the server, the server being closed, the repositories being
    changed, a connection signalling its disconnection, or goroutine [i]
    being scheduled. *)
Inductive Label :=
| callConfigureRemoteClientFunc (f : option newClientFunc)
| callGetClient (endpoint : string)
| callGetOrCreateClient (ctx : Context) (log : Logger) (endpoint : string)
| callCloseAndRemoveClient (endpoint : string)
| serverClose
| updateRepos (r : gmap string serverRepo)
| disconnectNotify (cl : UpstreamClient)
| schedule (i : nat) (now : Z).

Definition step (l : Label) : M unit :=
  match l with
  | callConfigureRemoteClientFunc f => ConfigureRemoteClientFunc f
  | callGetClient endpoint => _ ← getClient endpoint; mret tt
  | callGetOrCreateClient ctx log endpoint => _ ← getOrCreateClient ctx log endpoint; mret tt
  | callCloseAndRemoveClient endpoint => _ ← closeAndRemoveClient env endpoint; mret tt
  | serverClose =>
      s ← gets server;
      set_server {| remotes := remotes s; closed := true; repos := repos s |}
  | updateRepos r =>
      s ← gets server;
      set_server {| remotes := remotes s; closed := closed s; repos := r |}
  | disconnectNotify cl =>
      modify (fun w => {| server := server w; goroutines := goroutines w;
                          notified := cl :: notified w; trace := trace w |})
  | schedule i now =>
      gs ← gets goroutines;
      match gs !! i with
      | Some wt => watcher now i wt
      | None => mret tt
      end
  end.

(** A schedule runs until its end or until a panic. *)
Fixpoint run (ls : list Label) : M unit :=
  match ls with
  | [] => mret tt
  | l :: ls' => step l;; run ls'
  end.

End Semantics.

(** A server that has just been created, with the repositories [r]. *)
Definition newWorld (r : gmap string serverRepo) : World :=
  {| server := {| remotes := {| conn := None; newClient := None |};
                  closed := false; repos := r |};
     goroutines := []; notified := []; trace := [] |}.

Definition reachable (env : Env) (w : World) : Prop :=
  exists r ls, run env ls (newWorld r) = Ret tt w.

(** The registry as the list of its entries. *)
Definition registry (w : World) : list (string * UpstreamClient) :=
  match conn (remotes (server w)) with
  | None => []
  | Some m => map_to_list m
  end.

Definition lookup_conn (w : World) (endpoint : string) : option UpstreamClient :=
  conn_lookup (conn (remotes (server w))) endpoint.

(** ** Scenarios used as test inputs *)

Module Scenario.

(** The world a computation ended in. *)
Definition world_of (o : Outcome unit) : World :=
  match o with
  | Ret _ w => w
  | Panic _ w => w
  end.

(** What a computation returned, if it returned. *)
Definition result_of {A : Type} (o : Outcome A) : option A :=
  match o with
  | Ret a _ => Some a
  | Panic _ _ => None
  end.

(** The trace a computation left behind. *)
Definition trace_of {A : Type} (o : Outcome A) : list Event :=
  match o with
  | Ret _ w => trace w
  | Panic _ w => trace w
  end.

Definition peerA : string := "peerA".

(** A factory that hands out a fresh connection per dial. *)
Definition dial_ok : newClientFunc := fun t _ _ => inl (client t).

(** A factory that always fails. *)
Definition dial_fail : newClientFunc := fun _ _ _ => inr (errorString "connection refused").

(** A factory whose first call succeeds and whose later calls fail. *)
Definition dial_once : newClientFunc := fun t _ _ =>
  match t with
  | O => inl (client 0)
  | S _ => inr (errorString "connection refused")
  end.

(** Upstreams that accept every call; a map is visited in the order of
    [map_to_list]. *)
Definition env_ok : Env :=
  {| env_RepoWatch := fun _ _ _ _ => None;
     env_RefUpdate := fun _ _ _ _ => None;
     env_Close := fun _ _ => None;
     env_range := fun V _ m => map_to_list m |}.

(** Upstreams that reject every watch call. *)
Definition env_watch_fails : Env :=
  {| env_RepoWatch := fun _ _ _ _ => Some (errorString "watch failed");
     env_RefUpdate := fun _ _ _ _ => None;
     env_Close := fun _ _ => None;
     env_range := fun V _ m => map_to_list m |}.

(** Repository r1 mirrors ref main from peerA as an overwrite ref and has a
    second, ordinary ref dev. *)
Definition r1 : serverRepo :=
  {| config :=
       {| Remotes := {[ "origin" := {| remote_Endpoint := peerA; remote_Repo := "up/r1";
                                       remote_Refspec := "*" |} ]};
          Refs := {[ "main" := {| Upstream := "origin"; Overwrite := true |};
                     "dev" := {| Upstream := "origin"; Overwrite := false |} ]} |};
     refdb := {[ "main" := {| gitBase := "c0ffee"; gitBranch := "master";
                              history := ["op1"; "op2"] |};
                 "dev" := {| gitBase := "c0ffee"; gitBranch := "dev"; history := [] |} ]} |}.

(** Repository r2 also watches peerA but has no overwrite ref. *)
Definition r2 : serverRepo :=
  {| config :=
       {| Remotes := {[ "origin" := {| remote_Endpoint := peerA; remote_Repo := "up/r2";
                                       remote_Refspec := "refs/heads/*" |} ]};
          Refs := {[ "main" := {| Upstream := "origin"; Overwrite := false |} ]} |};
     refdb := {[ "main" := {| gitBase := "beef"; gitBranch := "master"; history := [] |} ]} |}.

(** The repositories of the server: r1 alone, or r1 and r2. *)
Definition repos1 : gmap string serverRepo := {[ "r1" := r1 ]}.

Definition repos2 : gmap string serverRepo := {[ "r1" := r1; "r2" := r2 ]}.

(** The readings of a clock that started at 0 and advanced exactly by the
    intervals slept. *)
Definition exact_clock : list Z :=
  (fun ms => (ms * Millisecond)%Z) <$> [0; 500; 1500; 3500; 7500; 15500; 31500; 63500; 127500]%Z.

(** The factory is configured and nothing else has happened. *)
Definition configured : World :=
  world_of (run env_ok [callConfigureRemoteClientFunc (Some dial_ok)] (newWorld repos1)).

(** A caller has connected to peerA; the connection is [client 0] and its
    watcher is goroutine 0. *)
Definition connected : World :=
  world_of (run env_ok [callGetOrCreateClient (ctxRequest 0) baseLogger peerA] configured).

(** The server of [connected], with both repositories. *)
Definition connected2 : World :=
  world_of (run env_ok [updateRepos repos2] connected).

(** With [dial_ok]: the connection of peerA has signalled its
    disconnection; the watcher has not run yet. *)
Definition signalled : World :=
  world_of (run env_ok [disconnectNotify (client 0)] connected).

(** The watcher has received the signal and is about to read [closed]. *)
Definition received : World :=
  world_of (run env_ok [schedule 0 0] signalled).

(** The watcher has seen that the server is not closed and is about to
    remove the entry. *)
Definition checked : World :=
  world_of (run env_ok [schedule 0 0] received).

(** The watcher has removed the entry and stands at the start of its retry
    loop. *)
Definition removed : World :=
  world_of (run env_ok [schedule 0 0] checked).

(** The server was closed before the connection of peerA signalled its
    disconnection. *)
Definition closed_at_signal : World :=
  world_of (run env_ok [serverClose; disconnectNotify (client 0)] connected).

(** ... and the watcher has received the signal. *)
Definition closed_received : World :=
  world_of (run env_ok [schedule 0 0] closed_at_signal).

(** The server was closed just after the watcher had read [closed]. *)
Definition closed_after_check : World :=
  world_of (run env_ok [serverClose] checked).

(** ... and the watcher has then run three more times. *)
Definition closed_retried : World :=
  world_of (run env_ok [schedule 0 0; schedule 0 0; schedule 0 0] closed_after_check).


(** With [dial_once]: peerA was connected, its connection signalled the
    disconnection and the watcher, goroutine 0, removed the entry at clock
    reading 0 and is about to try to reconnect. *)
Definition retrying : World :=
  world_of (run env_ok [callConfigureRemoteClientFunc (Some dial_once);
                        callGetOrCreateClient (ctxRequest 0) baseLogger peerA;
                        disconnectNotify (client 0);
                        schedule 0 0; schedule 0 0; schedule 0 0] (newWorld repos1)).

(** As [checked], and a caller has connected to a second endpoint, peerB,
    which made [client 5]. *)
Definition two_peers_checked : World :=
  world_of (run env_ok [callGetOrCreateClient (ctxRequest 1) baseLogger "peerB"] checked).

(** ... and the watcher of peerA has then removed the entry of peerA. *)
Definition two_peers_removed : World :=
  world_of (run env_ok [schedule 0 0] two_peers_checked).

(** With [dial_ok], from [removed]: the watcher has dialled again, which
    made [client 7], and is about to re-establish the watches. *)
Definition redialled : World :=
  world_of (run env_ok [schedule 0 0] removed).

(** Three attempts of the watcher, of two actions each, at the clock
    readings 0, 500 ms and ten minutes, and one more action. *)
Definition refused_schedule : list Label :=
  [schedule 0 0; schedule 0 0;
   schedule 0 (500 * Millisecond); schedule 0 (500 * Millisecond);
   schedule 0 (600 * Second); schedule 0 (600 * Second);
   schedule 0 (600 * Second)].

(** From [removed], with upstreams that reject every watch call: the world
    after [refused_schedule]. *)
Definition watch_refused : World :=
  world_of (run env_watch_fails refused_schedule removed).

End Scenario.

(** ** Worlds and events in closed form, used in the statements *)

(** The world with further events at the end of its trace. *)
Definition with_trace (w : World) (evs : list Event) : World :=
  {| server := server w; goroutines := goroutines w; notified := notified w;
     trace := trace w ++ evs |}.

(** The world in which goroutine [i], which was [wt], is at [pc]. *)
Definition at_pc (w : World) (i : nat) (wt : Watcher) (pc : WatcherPC) : World :=
  {| server := server w;
     goroutines := <[i := {| w_cl := w_cl wt; w_endpoint := w_endpoint wt; w_pc := pc |}]>
                     (goroutines w);
     notified := notified w; trace := trace w |}.

(** The world whose registry has lost the entry of [endpoint]. *)
Definition without_conn (w : World) (endpoint : string) : World :=
  {| server :=
       {| remotes := {| conn := conn_delete (conn (remotes (server w))) endpoint;
                        newClient := newClient (remotes (server w)) |};
          closed := closed (server w); repos := repos (server w) |};
     goroutines := goroutines w; notified := notified w; trace := trace w |}.

(** The logger the watcher of [endpoint] makes for itself. *)
Definition watcher_log (endpoint : string) : Logger :=
  With baseLogger "remote-client-monitor" endpoint.

(** The events a successful creation adds to the trace, in order. *)
Definition creation_events (log : Logger) (endpoint : string) (cl : UpstreamClient)
  : list Event :=
  [ EvNewClient ctxServerBg endpoint (inl cl);
    EvLog log levelInfo [("connected-to-remote", endpoint)];
    EvGo cl endpoint;
    EvSetRefUpdateCallback cl (forwardRefUpdate endpoint);
    EvSetRefUpdateSymbolicCallback cl symbolicNoop ].

(** The world after a successful creation of [cl] for [endpoint]. *)
Definition created (w : World) (log : Logger) (endpoint : string) (cl : UpstreamClient)
  : World :=
  {| server :=
       {| remotes :=
            {| conn := Some (<[endpoint := cl]> (default ∅ (conn (remotes (server w)))));
               newClient := newClient (remotes (server w)) |};
          closed := closed (server w); repos := repos (server w) |};
     goroutines := goroutines w ++
       [{| w_cl := cl; w_endpoint := endpoint; w_pc := pcWaitDisconnect |}];
     notified := notified w;
     trace := trace w ++ creation_events log endpoint cl |}.

(** The log line of the watcher when its connection is gone. *)
Definition disconnected_event (endpoint : string) : Event :=
  EvLog (watcher_log endpoint) levelWarn [("disconnected", EmptyString)].

(** The events of a failed attempt of the watcher that will be repeated. *)
Definition failed_attempt_events (endpoint : string) (err : error) (d : Z) : list Event :=
  let log := watcher_log endpoint in
  [ EvLog log levelDebug [("try-reconnect", EmptyString)];
    EvNewClient ctxServerBg endpoint (inr err);
    EvLog log levelDebug [("retry-reconnect-after-error", Error_ err)];
    EvSleep d ].

(** The events of the last, failed attempt of a watcher whose budget is
    used up. *)
Definition last_attempt_events (endpoint : string) (err : error) : list Event :=
  [ EvLog (watcher_log endpoint) levelDebug [("try-reconnect", EmptyString)];
    EvNewClient ctxServerBg endpoint (inr err);
    EvLog (watcher_log endpoint) levelError
      [("reconnect-failed-after-retries", Error_ err)] ].

(** The world after a failed attempt of goroutine [i] at clock reading [now]:
    the closed form of [retry_failed]. *)
Definition after_failure (w : World) (i : nat) (wt : Watcher) (log : Logger)
    (b : ExponentialBackOff) (now : Z) (err : error) : World :=
  if ((NextBackOff b now).1 =? Stop)%Z then
    at_pc (with_trace w
             [EvLog log levelError [("reconnect-failed-after-retries", Error_ err)]])
          i wt pcExited
  else
    at_pc (with_trace w
             [EvLog log levelDebug [("retry-reconnect-after-error", Error_ err)];
              EvSleep (NextBackOff b now).1])
          i wt (pcTryReconnect (NextBackOff b now).2).

(** An event that records a call of the factory. *)
Definition is_dial (ev : Event) : Prop :=
  match ev with
  | EvNewClient _ _ _ => True
  | _ => False
  end.

(** ** What executions preserve *)

(** A computation that returns, and whose only effect is to add events that
    satisfy [P] to the trace. *)
Definition appends {A : Type} (P : Event -> Prop) (m : M A) : Prop :=
  forall w, exists a evs, m w = Ret a (with_trace w evs) /\ Forall P evs.

(** The contexts under which the server reaches its collaborators: the
    factory is called with the server's background context, the calls of
    re-establishment carry [context.Background()]. *)
Definition event_ctx_ok (ev : Event) : Prop :=
  match ev with
  | EvNewClient ctx _ _ => ctx = ctxServerBg
  | EvRepoWatch _ ctx _ _ => ctx = ctxBackground
  | EvRefUpdate _ ctx _ _ => ctx = ctxBackground
  | _ => True
  end.

(** Some goroutine watches connection [cl] for [endpoint]. *)
Definition has_watcher (w : World) (cl : UpstreamClient) (endpoint : string) : Prop :=
  exists j wt, goroutines w !! j = Some wt /\ w_cl wt = cl /\ w_endpoint wt = endpoint.

(** The goroutine a label schedules. *)
Definition scheduled (l : Label) (j : nat) : Prop :=
  match l with
  | schedule i _ => i = j
  | _ => False
  end.

(** The goroutines scheduled by one of the labels of a schedule. *)
Definition scheduled_in (ls : list Label) (j : nat) : Prop :=
  Exists (fun l => scheduled l j) ls.

(** What every execution from [w] to [w'] guarantees, when only goroutines
    in [S] were scheduled: the trace grows, by events with the expected
    contexts; an entry of the registry was there before or was dialled in
    between and has a watcher; goroutines stay, keep their connection and
    endpoint, and move only when scheduled; [closed], the factory and the
    fired disconnect channels persist. *)
Record evolves (S : nat -> Prop) (w w' : World) : Prop := mkEvolves {
  ev_trace : exists evs,
    trace w' = trace w ++ evs /\ Forall event_ctx_ok evs /\
    forall E c, lookup_conn w' E = Some c ->
      lookup_conn w E = Some c \/
      (EvNewClient ctxServerBg E (inl c) ∈ evs /\ has_watcher w' c E);
  ev_goroutines : forall j wt, goroutines w !! j = Some wt ->
    exists wt', goroutines w' !! j = Some wt' /\ w_cl wt' = w_cl wt /\
                w_endpoint wt' = w_endpoint wt /\ (~ S j -> w_pc wt' = w_pc wt);
  ev_closed : closed (server w) = true -> closed (server w') = true;
  ev_newClient : forall f, newClient (remotes (server w)) = Some f ->
                           newClient (remotes (server w')) = Some f;
  ev_notified : forall cl, cl ∈ notified w -> cl ∈ notified w' }.

(** The entries the registry holds for [endpoint]. *)
Definition entries_for (w : World) (endpoint : string) : list (string * UpstreamClient) :=
  filter (fun kv => kv.1 = endpoint) (registry w).

(** The invariant of the registry: for every endpoint at most one entry, and
    an entry holds a connection that the factory made for that endpoint and
    that a goroutine watches. *)
Definition registry_inv (w : World) : Prop :=
  forall E,
    length (entries_for w E) <= 1 /\
    forall c, (E, c) ∈ registry w ->
      EvNewClient ctxServerBg E (inl c) ∈ trace w /\ has_watcher w c E.

(** The program points of a watcher that are not inside the retry loop and
    from which a closed server cannot lead into it. *)
Definition outside_retry_loop (pc : WatcherPC) : Prop :=
  match pc with
  | pcWaitDisconnect | pcCheckClosed | pcExited => True
  | _ => False
  end.

(** ** The retry schedule *)

(** The intervals the retry loop sleeps while every attempt fails: the
    schedule is asked at the clock readings [nows], one per failed attempt,
    until it answers [Stop]. *)
Fixpoint sleeps (b : ExponentialBackOff) (nows : list Z) : list Z :=
  match nows with
  | [] => []
  | now :: nows' =>
      if ((NextBackOff b now).1 =? Stop)%Z then []
      else (NextBackOff b now).1 :: sleeps (NextBackOff b now).2 nows'
  end.

(** The schedule of [remoteBackOff], started at [start], after [k]
    intervals have been handed out. *)
Definition remoteBackOff_after (start : Z) (k : nat) : ExponentialBackOff :=
  {| InitialInterval := 500 * Millisecond; Multiplier := 2; MaxElapsedTime := 1 * Minute;
     currentInterval := 500 * Millisecond * 2 ^ Z.of_nat k; startTime := start |}.

(** A clock that is read no earlier than the loop started and that, between
    two failed attempts, advances at least by the interval slept. *)
Definition clock_respects_sleeps (start : Z) (nows : list Z) : Prop :=
  (forall now, nows !! 0%nat = Some now -> (start <= now)%Z) /\
  (forall k now now' d,
     nows !! k = Some now -> nows !! S k = Some now' ->
     sleeps (Reset remoteBackOff start) nows !! k = Some d ->
     (now + d <= now')%Z).

(** The intervals slept that a trace records, in order. *)
Definition slept (tr : list Event) : list Z :=
  omap (fun ev => match ev with EvSleep d => Some d | _ => None end) tr.

(** The log records of level error in a trace: in this file, the record of a
    retry loop that has given up. *)
Definition given_up (tr : list Event) : list (Logger * list (string * string)) :=
  omap (fun ev => match ev with
                  | EvLog log levelError keyvals => Some (log, keyvals)
                  | _ => None
                  end) tr.

(** The first [n] intervals of the schedule: 500 ms, 1 s, 2 s, ... *)
Definition doubling (n : nat) : list Z :=
  (fun k => 500 * Millisecond * 2 ^ Z.of_nat k)%Z <$> seq 0 n.

(** A goroutine at [pc] is inside the retry loop, with the schedule [b]. *)
Definition in_retry_loop (pc : WatcherPC) (b : ExponentialBackOff) : Prop :=
  match pc with
  | pcTryReconnect b' => b' = b
  | pcReestablish b' _ => b' = b
  | _ => False
  end.

(** The attempt that goroutine [wt] is about to begin or to finish in [w]
    fails with [err] and leaves the world [w1]: getOrCreateClient returns
    the error of the factory, or re-establishment returns the error of a
    RepoWatch or RefUpdate call. *)
Definition attempt_fails (env : Env) (w : World) (wt : Watcher) (err : error) (w1 : World)
  : Prop :=
  match w_pc wt with
  | pcTryReconnect _ =>
      tryReconnect_connect ctxBackground (watcher_log (w_endpoint wt)) (w_endpoint wt) w
        = Ret (inr err) w1
  | pcReestablish _ cl =>
      reestablish env cl ctxBackground (watcher_log (w_endpoint wt)) (w_endpoint wt) w
        = Ret (Some err) w1
  | _ => False
  end.

(** Of the goroutines, a schedule runs goroutine [i] only; calls by other
    threads, the closing of the server, changes of the repositories and
    disconnect signals may come in between. *)
Definition only_watcher (i : nat) (ls : list Label) : Prop :=
  Forall (fun l => forall j, scheduled l j -> j = i) ls.

(** An injected clock that keeps up with the sleeps: whenever a goroutine
    acts during the run of [ls] from [w], the clock reads at least [start]
    plus the intervals slept since the trace had length [n0]. *)
Fixpoint clock_keeps_up (env : Env) (start : Z) (n0 : nat) (ls : list Label) (w : World)
  : bool :=
  match ls with
  | [] => true
  | l :: ls' =>
      match l with
      | schedule _ now => (start + foldr Z.add 0 (slept (drop n0 (trace w))) <=? now)%Z
      | _ => true
      end &&
      match step env l w with
      | Ret _ w1 => clock_keeps_up env start n0 ls' w1
      | Panic _ _ => true
      end
  end.

(** The log record with which tryReconnect begins: level debug, one pair,
    with the key try-reconnect. *)
Definition begins_attempt (ev : Event) : bool :=
  match ev with
  | EvLog _ levelDebug [(key, _)] => String.eqb key "try-reconnect"
  | _ => false
  end.

(** The records in a trace of the attempts begun. *)
Definition attempts (tr : list Event) : list Event :=
  omap (fun ev => if begins_attempt ev then Some ev else None) tr.

(** An event that is neither a sleep, nor a log record of level error, nor
    the beginning of an attempt. *)
Definition calm (ev : Event) : Prop :=
  match ev with
  | EvSleep _ => False
  | EvLog _ levelError _ => False
  | _ => begins_attempt ev = false
  end.

(** Where a watcher stands after [n] attempts begun and [k] sleeps, with the
    schedule started at [start]: at the head of the loop every attempt
    begun has been followed by a sleep; in the middle of an attempt, and
    after the last one, every attempt but that one has. *)
Definition retry_progress (start : Z) (pc : WatcherPC) (n k : nat) : Prop :=
  match pc with
  | pcTryReconnect b => b = remoteBackOff_after start k /\ n = k
  | pcReestablish b _ => b = remoteBackOff_after start k /\ n = S k
  | pcExited => n = S k
  | _ => False
  end.

(** Goroutine [i], whose retry loop started at clock reading [start] when
    the trace was [tr0], has slept the first [k] intervals of the schedule
    since; it is still in the loop, with the schedule advanced [k] times and
    no error logged, or it has ended, with at most one error logged. *)
Definition retry_state (start : Z) (tr0 : list Event) (i : nat) (w : World) (k : nat)
  : Prop :=
  exists evs wt,
    trace w = tr0 ++ evs /\
    slept evs = doubling k /\
    goroutines w !! i = Some wt /\
    retry_progress start (w_pc wt) (length (attempts evs)) k /\
    length (given_up evs) <= 1 /\
    (w_pc wt = pcExited \/ given_up evs = []).

(** ** Re-establishment, as the spec words it *)

(** A call made on the upstream connection during re-establishment. *)
Inductive Call :=
| CallWatch (p : RepoWatchParams)
| CallUpdate (p : RefUpdateUpstreamParams).

Definition call_of (ev : Event) : option Call :=
  match ev with
  | EvRepoWatch _ _ p _ => Some (CallWatch p)
  | EvRefUpdate _ _ p _ => Some (CallUpdate p)
  | _ => None
  end.

(** The error with which a call came back, if it did. *)
Definition call_error (ev : Event) : option error :=
  match ev with
  | EvRepoWatch _ _ _ res => res
  | EvRefUpdate _ _ _ res => res
  | _ => None
  end.

(** The calls re-establishment may make on connection [cl] under [ctx]. *)
Definition reestablish_event (cl : UpstreamClient) (ctx : Context) (ev : Event) : Prop :=
  match ev with
  | EvLog _ lvl _ => lvl = levelDebug
  | EvRepoWatch cl' ctx' _ _ => cl' = cl /\ ctx' = ctx
  | EvRefUpdate cl' ctx' p _ => cl' = cl /\ ctx' = ctx /\ Force p = true
  | _ => False
  end.

Definition watch_params (remote : RepoRemoteConfiguration) : RepoWatchParams :=
  {| rw_Repo := remote_Repo remote; rw_Refspec := remote_Refspec remote |}.

(** The forced update that carries the current state [o] of ref [refName]
    to the repository of [remote]. *)
Definition push_params (remote : RepoRemoteConfiguration) (refName : string) (o : serverRef)
  : RefUpdateUpstreamParams :=
  {| ru_RefIdentifier := {| ri_Repo := remote_Repo remote; ri_Ref := refName |};
     Force := true;
     State := Some {| rs_RefBaseInfo := {| GitBase := gitBase o; GitBranch := gitBranch o |};
                      History := history o |} |}.

(** "for every ref configured with upstream == that remote, overwrite ==
    true, that currently exists locally, push a forced update" *)
Definition expected_ref_calls (repo : serverRepo) (remoteName : string)
    (remote : RepoRemoteConfiguration) (kv : string * RefConfiguration) : list Call :=
  if Overwrite kv.2 && bool_decide (Upstream kv.2 = remoteName) then
    match refdb repo !! kv.1 with
    | Some o => [CallUpdate (push_params remote kv.1 o)]
    | None => []
    end
  else [].

(** "for every remote whose endpoint matches the reconnected one, re-issue
    the watch call for that remote's repo/refspec; then ..." *)
Definition expected_remote_calls (endpoint : string) (repo : serverRepo)
    (kv : string * RepoRemoteConfiguration) : list Call :=
  if decide (remote_Endpoint kv.2 = endpoint) then
    CallWatch (watch_params kv.2) ::
      (map_to_list (Refs (config repo)) ≫= expected_ref_calls repo kv.1 kv.2)
  else [].

(** "for every repository" *)
Definition expected_repo_calls (endpoint : string) (kv : string * serverRepo) : list Call :=
  map_to_list (Remotes (config kv.2)) ≫= expected_remote_calls endpoint kv.2.

Definition expected_calls (rs : gmap string serverRepo) (endpoint : string) : list Call :=
  map_to_list rs ≫= expected_repo_calls endpoint.

(** Every call but the last came back without error, and the last one came
    back with the error that is returned, if one is. *)
Definition stops_at_first_error (r : option error) (evs : list Event) : Prop :=
  match r with
  | None => Forall (fun ev => call_error ev = None) evs
  | Some err =>
      exists evs0 ev, evs = evs0 ++ [ev] /\
        Forall (fun ev => call_error ev = None) evs0 /\ call_error ev = Some err
  end.

(** The computation returns, only adds events to the trace, makes no call
    outside [expected], makes exactly the calls [expected] (in some order)
    when it returns nil, and stops at the first call that fails. *)
Definition issues (expected : list Call) (m : M (option error)) : Prop :=
  forall w, exists r evs,
    m w = Ret r (with_trace w evs) /\
    omap call_of evs ⊆+ expected /\
    (r = None -> omap call_of evs ≡ₚ expected) /\
    stops_at_first_error r evs.

(** The computation returns a value that satisfies [Q] and makes no call. *)
Definition yields {A : Type} (Q : A -> Prop) (m : M A) : Prop :=
  forall w, exists a evs,
    m w = Ret a (with_trace w evs) /\ Forall (fun ev => call_of ev = None) evs /\ Q a.

(** The calls of a loop over the map [m]: the entries are visited one after
    the other, in some order, and the calls made for an entry are a sequence
    that [F] allows for it. *)
Definition visits {V : Type} (F : string * V -> list Call -> Prop) (m : gmap string V)
    (calls : list Call) : Prop :=
  exists l blocks, l ≡ₚ map_to_list m /\ Forall2 F l blocks /\ calls = concat blocks.

(** "re-issue the watch call for that remote's repo/refspec; then for every
    ref ... push a forced update": for a remote of the reconnected endpoint
    the watch call comes first and the forced updates of the remote follow
    it; for any other remote there is no call. *)
Definition remote_calls_in_order (endpoint : string) (repo : serverRepo)
    (kv : string * RepoRemoteConfiguration) (calls : list Call) : Prop :=
  if decide (remote_Endpoint kv.2 = endpoint) then
    exists updates,
      visits (fun ref c => c = expected_ref_calls repo kv.1 kv.2 ref)
        (Refs (config repo)) updates /\
      calls = CallWatch (watch_params kv.2) :: updates
  else calls = [].

Definition repo_calls_in_order (endpoint : string) (kv : string * serverRepo)
    (calls : list Call) : Prop :=
  visits (remote_calls_in_order endpoint kv.2) (Remotes (config kv.2)) calls.

(** The sequences of calls of a complete re-establishment for [endpoint]. *)
Definition calls_in_order (rs : gmap string serverRepo) (endpoint : string)
    (calls : list Call) : Prop :=
  visits (repo_calls_in_order endpoint) rs calls.

(** The computation returns and only adds events to the trace; the calls it
    has made are, in this order, a sequence that [S] allows when it returns
    nil, and the beginning of such a sequence when it returns an error. *)
Definition in_order (S : list Call -> Prop) (m : M (option error)) : Prop :=
  forall w, exists r evs,
    m w = Ret r (with_trace w evs) /\
    match r with
    | None => S (omap call_of evs)
    | Some _ => exists rest, S (omap call_of evs ++ rest)
    end.

(** A forced update that is due for [remote], named [remoteName], of [repo]. *)
Definition due_update (repo : serverRepo) (remoteName : string)
    (remote : RepoRemoteConfiguration) (c : Call) : Prop :=
  exists refName refConfig o,
    Refs (config repo) !! refName = Some refConfig /\
    Upstream refConfig = remoteName /\
    Overwrite refConfig = true /\
    refdb repo !! refName = Some o /\
    c = CallUpdate (push_params remote refName o).

(** Every forced update in [calls] comes after the watch call of the remote
    it is due for, and between the two there are only forced updates due for
    that same remote. *)
Definition updates_follow_watch (rs : gmap string serverRepo) (endpoint : string)
    (calls : list Call) : Prop :=
  forall pre p post,
    calls = pre ++ CallUpdate p :: post ->
    exists pre0 updates repoName repo remoteName remote,
      pre = pre0 ++ CallWatch (watch_params remote) :: updates /\
      rs !! repoName = Some repo /\
      Remotes (config repo) !! remoteName = Some remote /\
      remote_Endpoint remote = endpoint /\
      Forall (due_update repo remoteName remote) (updates ++ [CallUpdate p]).

(** ** Executions as sequences of elementary changes *)

(** An event that is no part of the creation of a connection: it records
    neither a connection handed back by the factory, nor the start of a
    goroutine, nor the registration of a callback. *)
Definition quiet (ev : Event) : Prop :=
  match ev with
  | EvNewClient _ _ (inl _) => False
  | EvGo _ _ => False
  | EvSetRefUpdateCallback _ _ => False
  | EvSetRefUpdateSymbolicCallback _ _ => False
  | _ => True
  end.

(** The elementary changes of which every step of the system is made:
    quiet events are recorded, a goroutine moves, an entry is deleted, a
    connection is created by a configured factory for an endpoint without
    entry, fields of the server other than the registry change while a
    factory that is set stays, a disconnect channel fires. *)
Inductive change : World -> World -> Prop :=
| change_events w evs :
    Forall quiet evs -> change w (with_trace w evs)
| change_pc w i wt0 wt pc :
    goroutines w !! i = Some wt0 -> w_cl wt0 = w_cl wt -> w_endpoint wt0 = w_endpoint wt ->
    change w (at_pc w i wt pc)
| change_delete w E :
    change w (without_conn w E)
| change_create w f log E cl :
    newClient (remotes (server w)) = Some f -> lookup_conn w E = None ->
    f (length (trace w)) ctxServerBg E = inl cl ->
    change w (created w log E cl)
| change_server w s :
    conn (remotes s) = conn (remotes (server w)) ->
    (forall f, newClient (remotes (server w)) = Some f -> newClient (remotes s) = Some f) ->
    change w {| server := s; goroutines := goroutines w; notified := notified w;
                trace := trace w |}
| change_notify w cl :
    change w {| server := server w; goroutines := goroutines w;
                notified := cl :: notified w; trace := trace w |}.

(** The connections the factory has handed back, with the endpoint each was
    made for, in the order of the calls. *)
Definition successful_dials (tr : list Event) : list (UpstreamClient * string) :=
  omap (fun ev => match ev with
                  | EvNewClient _ E (inl cl) => Some (cl, E)
                  | _ => None
                  end) tr.

(** The connection and the endpoint of every goroutine, in the order in
    which the goroutines were started. *)
Definition watched (w : World) : list (UpstreamClient * string) :=
  (fun wt => (w_cl wt, w_endpoint wt)) <$> goroutines w.

(** The three panic statements of the file are reached when: the factory
    is configured a second time, a connection is asked for before the
    factory is configured, a connection is closed that the registry does not
    hold. *)
Definition contract_violation (w : World) (l : Label) : Prop :=
  match l with
  | callConfigureRemoteClientFunc _ => is_Some (newClient (remotes (server w)))
  | callGetOrCreateClient _ _ _ => newClient (remotes (server w)) = None
  | callCloseAndRemoveClient E => lookup_conn w E = None
  | _ => False
  end.

(** The message of the panic statement in the function a label calls. *)
Definition panic_message (l : Label) : option string :=
  match l with
  | callConfigureRemoteClientFunc _ => Some "(serverRemotes).newClient is already set"
  | callGetOrCreateClient _ _ _ =>
      Some ("(serverRemotes).newClient must be set with (" +:+
            "*Server).ConfigureRemoteClientFunc")
  | callCloseAndRemoveClient E => Some ("no remote client for endpoint " +:+ E)
  | _ => None
  end.

(** A call that asks for the connection of [E]: getOrCreateClient or
    getClient. *)
Definition asks_for (E : string) (l : Label) : Prop :=
  match l with
  | callGetOrCreateClient _ _ E' => E' = E
  | callGetClient E' => E' = E
  | _ => False
  end.

(** The endpoint whose entry a step may change: the one a call names, or the
    one the scheduled goroutine watches. *)
Definition touches (w : World) (l : Label) : option string :=
  match l with
  | callGetOrCreateClient _ _ E => Some E
  | callCloseAndRemoveClient E => Some E
  | schedule i _ => w_endpoint <$> goroutines w !! i
  | _ => None
  end.

(** An upstream that accepts every watch and every update. *)
Definition env_never_fails (env : Env) : Prop :=
  (forall t cl ctx p, env_RepoWatch env t cl ctx p = None) /\
  (forall t cl ctx p, env_RefUpdate env t cl ctx p = None).

(** The answer recorded with a call event is the answer the upstream gave. *)
Definition answered_by (env : Env) (ev : Event) : Prop :=
  match ev with
  | EvRepoWatch cl ctx p res => exists t, res = env_RepoWatch env t cl ctx p
  | EvRefUpdate cl ctx p res => exists t, res = env_RefUpdate env t cl ctx p
  | _ => True
  end.

(** No remote of any repository points at [endpoint]. *)
Definition no_remote_at (rs : gmap string serverRepo) (endpoint : string) : Prop :=
  forall repoName repo remoteName remote,
    rs !! repoName = Some repo ->
    Remotes (config repo) !! remoteName = Some remote ->
    remote_Endpoint remote <> endpoint.

(** The outcome with its world changed by [g]. *)
Definition map_world {A : Type} (g : World -> World) (o : Outcome A) : Outcome A :=
  match o with
  | Ret a w => Ret a (g w)
  | Panic msg w => Panic msg (g w)
  end.

(** A computation that does not notice the change [g] of the world. *)
Definition commutes_with {A : Type} (g : World -> World) (m : M A) : Prop :=
  forall w, m (g w) = map_world g (m w).

(** The actions of goroutine [i] that make up one attempt of the retry loop
    in world [w]: the first half of tryReconnect and, when that yields a
    connection, re-establishment. *)
Definition attempt (w : World) (i : nat) (wt : Watcher) (now : Z) : list Label :=
  match tryReconnect_connect ctxBackground (watcher_log (w_endpoint wt)) (w_endpoint wt) w with
  | Ret (inl _) _ => [schedule i now; schedule i now]
  | _ => [schedule i now]
  end.

(** A label that schedules some goroutine. *)
Definition is_schedule (l : Label) : Prop :=
  match l with
  | schedule _ _ => True
  | _ => False
  end.

(** The two log lines of tryReconnect around a getOrCreateClient that found
    or made a connection. *)
Definition try_reconnect_event (log : Logger) : Event :=
  EvLog log levelDebug [("try-reconnect", EmptyString)].

Definition reconnect_ok_event (log : Logger) : Event :=
  EvLog log levelDebug [("reconnect-ok", EmptyString)].

(** What the creation of connections has left in a trace: the goroutines
    started, and the two callbacks registered, each with its connection. *)
Definition goroutines_started (tr : list Event) : list (UpstreamClient * string) :=
  omap (fun ev => match ev with
                  | EvGo cl E => Some (cl, E)
                  | _ => None
                  end) tr.

Definition ref_update_callbacks (tr : list Event) : list (UpstreamClient * Handler) :=
  omap (fun ev => match ev with
                  | EvSetRefUpdateCallback cl h => Some (cl, h)
                  | _ => None
                  end) tr.

Definition symbolic_callbacks (tr : list Event) : list (UpstreamClient * Handler) :=
  omap (fun ev => match ev with
                  | EvSetRefUpdateSymbolicCallback cl h => Some (cl, h)
                  | _ => None
                  end) tr.

(** Each connection made has had its goroutine started and its two
    callbacks registered, once, and nothing else has. *)
Definition registered_once (tr : list Event) : Prop :=
  goroutines_started tr = successful_dials tr /\
  ref_update_callbacks tr =
    (fun d => (d.1, forwardRefUpdate d.2)) <$> successful_dials tr /\
  symbolic_callbacks tr = (fun d => (d.1, symbolicNoop)) <$> successful_dials tr.

(** * Properties *)

(** Unfolds the monad and the primitive operations. *)
Ltac unfold_m :=
  unfold tryReconnect, tryReconnect_connect, getOrCreateClient, closeAndRemoveClient,
    getClient, ConfigureRemoteClientFunc, call_newClient, call_Close, call_RepoWatch,
    call_RefUpdate, range, go, Log, set_conn, set_server, emit, now_, modify, gets, panic,
    lookup_conn in *;
  unfold mbind, M_bind, mret, M_ret in *.

Ltac run_m := unfold_m; simpl in *.

(** ** Configuring the factory *)

(** C9. Once a factory is set, a further call of ConfigureRemoteClientFunc
    panics and leaves the server as it was, with the first factory in place;
    in particular the second of two calls with a factory panics. *)
Theorem ConfigureRemoteClientFunc_twice_panics (w : World) (f : newClientFunc)
    (g : option newClientFunc) :
  (newClient (remotes (server w)) = Some f ->
   ConfigureRemoteClientFunc g w = Panic "(serverRemotes).newClient is already set" w) /\
  (newClient (remotes (server w)) = None ->
   exists w1,
     ConfigureRemoteClientFunc (Some f) w = Ret tt w1 /\
     newClient (remotes (server w1)) = Some f /\
     ConfigureRemoteClientFunc g w1 = Panic "(serverRemotes).newClient is already set" w1).
Proof.
  split; intros Hf.
  - run_m. by rewrite Hf.
  - eexists. split; [|split].
    + run_m. rewrite Hf. reflexivity.
    + reflexivity.
    + reflexivity.
Qed.

Lemma ConfigureRemoteClientFunc_twice_panics_witness :
  exists w1,
    ConfigureRemoteClientFunc (Some Scenario.dial_ok) (newWorld ∅) = Ret tt w1 /\
    newClient (remotes (server w1)) = Some Scenario.dial_ok /\
    ConfigureRemoteClientFunc (Some Scenario.dial_fail) w1
      = Panic "(serverRemotes).newClient is already set" w1.
Proof.
  apply (ConfigureRemoteClientFunc_twice_panics (newWorld ∅) Scenario.dial_ok
           (Some Scenario.dial_fail)).
  reflexivity.
Defined.

(** ** Closing a connection *)

(** C8. Without an entry for the endpoint closeAndRemoveClient panics before
    it changes anything. With an entry it deletes the entry, calls Close on
    the connection that was stored and returns what Close returned; the
    endpoint is then not found, and nothing else in the server, and no
    goroutine, is touched. *)
Theorem closeAndRemoveClient_spec (env : Env) (w : World) (endpoint : string) :
  (lookup_conn w endpoint = None ->
   closeAndRemoveClient env endpoint w
     = Panic ("no remote client for endpoint " +:+ endpoint) w) /\
  (forall cl, lookup_conn w endpoint = Some cl ->
   exists w',
     closeAndRemoveClient env endpoint w = Ret (env_Close env (length (trace w)) cl) w' /\
     trace w' = trace w ++ [EvClose cl (env_Close env (length (trace w)) cl)] /\
     lookup_conn w' endpoint = None /\
     getClient endpoint w' = Ret (None, false) w' /\
     (forall e, e <> endpoint -> lookup_conn w' e = lookup_conn w e) /\
     newClient (remotes (server w')) = newClient (remotes (server w)) /\
     closed (server w') = closed (server w) /\
     repos (server w') = repos (server w) /\
     goroutines w' = goroutines w /\
     notified w' = notified w).
Proof.
  destruct w as [[[c nc] cls rps] gs ns tr]. split.
  - intros Hl. run_m. by rewrite Hl.
  - intros cl Hl. eexists. split; [run_m; rewrite Hl; reflexivity|].
    run_m. destruct c as [m|]; cbn in *; [|done].
    rewrite lookup_delete_eq.
    repeat split; try done.
    intros e He. by rewrite lookup_delete_ne.
Qed.

Lemma closeAndRemoveClient_spec_witness :
  closeAndRemoveClient Scenario.env_ok Scenario.peerA (newWorld ∅)
    = Panic "no remote client for endpoint peerA" (newWorld ∅) /\
  exists w',
    closeAndRemoveClient Scenario.env_ok Scenario.peerA Scenario.connected = Ret None w' /\
    lookup_conn w' Scenario.peerA = None.
Proof.
  split.
  - apply (closeAndRemoveClient_spec Scenario.env_ok (newWorld ∅) Scenario.peerA).
    reflexivity.
  - destruct (proj2 (closeAndRemoveClient_spec Scenario.env_ok Scenario.connected
                       Scenario.peerA) (client 0) eq_refl)
      as (w' & Hrun & _ & Hgone & _).
    exists w'. split; [exact Hrun | exact Hgone].
Defined.

(** ** Getting or creating a connection *)

(** C3. With the factory configured: when the registry holds a connection
    for the endpoint, getOrCreateClient returns it and changes nothing, so
    the factory is not called. Otherwise it calls the factory once with the
    server's background context, and when the factory hands back a
    connection it logs, starts the watcher goroutine blocked on the
    disconnect channel, installs the two callbacks, stores the connection
    under the endpoint and returns it. *)
Theorem getOrCreateClient_spec (w : World) (f : newClientFunc) (ctx : Context)
    (log : Logger) (endpoint : string) :
  newClient (remotes (server w)) = Some f ->
  (forall cl, lookup_conn w endpoint = Some cl ->
     getOrCreateClient ctx log endpoint w = Ret (inl cl) w) /\
  (forall cl,
     lookup_conn w endpoint = None ->
     f (length (trace w)) ctxServerBg endpoint = inl cl ->
     exists w',
       getOrCreateClient ctx log endpoint w = Ret (inl cl) w' /\
       trace w' = trace w ++ creation_events log endpoint cl /\
       goroutines w' = goroutines w ++
         [{| w_cl := cl; w_endpoint := endpoint; w_pc := pcWaitDisconnect |}] /\
       lookup_conn w' endpoint = Some cl /\
       getClient endpoint w' = Ret (Some cl, true) w' /\
       (forall e, e <> endpoint -> lookup_conn w' e = lookup_conn w e) /\
       newClient (remotes (server w')) = Some f /\
       closed (server w') = closed (server w) /\
       repos (server w') = repos (server w) /\
       notified w' = notified w).
Proof.
  destruct w as [[[c nc] cls rps] gs ns tr]. cbn. intros ->. split.
  - intros cl Hl. run_m. by rewrite Hl.
  - intros cl Hl Hf. eexists. split.
    + run_m. rewrite Hl. simpl. rewrite Hf. reflexivity.
    + run_m. rewrite !lookup_insert_eq. cbn.
      repeat split; try done.
      * by rewrite <- !app_assoc.
      * intros e He. rewrite lookup_insert_ne by done.
        destruct c; [done | apply lookup_empty].
Qed.

Lemma getOrCreateClient_spec_witness :
  getOrCreateClient (ctxRequest 1) baseLogger Scenario.peerA Scenario.connected
    = Ret (inl (client 0)) Scenario.connected /\
  exists w',
    getOrCreateClient (ctxRequest 0) baseLogger Scenario.peerA Scenario.configured
      = Ret (inl (client 0)) w' /\
    trace w' = creation_events baseLogger Scenario.peerA (client 0).
Proof.
  split.
  - apply (proj1 (getOrCreateClient_spec Scenario.connected Scenario.dial_ok (ctxRequest 1)
                    baseLogger Scenario.peerA eq_refl) (client 0)).
    reflexivity.
  - destruct (proj2 (getOrCreateClient_spec Scenario.configured Scenario.dial_ok
                       (ctxRequest 0) baseLogger Scenario.peerA eq_refl)
                (client 0) eq_refl eq_refl)
      as (w' & Hrun & Htr & _).
    exists w'. split; [exact Hrun | exact Htr].
Defined.

(** getOrCreateClient in closed form, case by case. *)
Lemma getOrCreateClient_eq (w : World) (ctx : Context) (log : Logger) (endpoint : string) :
  getOrCreateClient ctx log endpoint w =
  match newClient (remotes (server w)) with
  | None =>
      Panic ("(serverRemotes).newClient must be set with (" +:+
             "*Server).ConfigureRemoteClientFunc") w
  | Some f =>
      match lookup_conn w endpoint with
      | Some cl => Ret (inl cl) w
      | None =>
          match f (length (trace w)) ctxServerBg endpoint with
          | inr err => Ret (inr err) (with_trace w [EvNewClient ctxServerBg endpoint (inr err)])
          | inl cl => Ret (inl cl) (created w log endpoint cl)
          end
      end
  end.
Proof.
  destruct w as [[[c nc] cls rps] gs ns tr]. unfold created, with_trace. run_m.
  destruct nc as [f|]; [|done].
  destruct (conn_lookup c endpoint); [done|]. simpl.
  destruct (f (length tr) ctxServerBg endpoint); [|done]. simpl.
  rewrite <- !app_assoc. simpl. by destruct c.
Qed.

(** C7. When the factory fails in a call of getOrCreateClient its error is
    what the caller gets; the only change to the world is the record of the
    factory call: the registry and the rest of the server are as before and
    no goroutine is started or changed, so nothing will retry. The watcher
    of a disconnected connection is different: when its attempt fails within
    the budget it logs the error, sleeps for the current interval and stays
    in the retry loop. *)
Theorem getOrCreateClient_factory_error (env : Env) (w : World) (f : newClientFunc)
    (ctx : Context) (log : Logger) (endpoint : string) :
  newClient (remotes (server w)) = Some f ->
  lookup_conn w endpoint = None ->
  (forall err,
     f (length (trace w)) ctxServerBg endpoint = inr err ->
     getOrCreateClient ctx log endpoint w =
       Ret (inr err)
         {| server := server w; goroutines := goroutines w; notified := notified w;
            trace := trace w ++ [EvNewClient ctxServerBg endpoint (inr err)] |}) /\
  (forall err i wt b now,
     f (S (length (trace w))) ctxServerBg endpoint = inr err ->
     goroutines w !! i = Some wt ->
     w_endpoint wt = endpoint ->
     w_pc wt = pcTryReconnect b ->
     (now - startTime b <= MaxElapsedTime b)%Z ->
     (0 < currentInterval b)%Z ->
     step env (schedule i now) w =
       Ret tt
         {| server := server w;
            goroutines :=
              <[i := {| w_cl := w_cl wt; w_endpoint := endpoint;
                        w_pc := pcTryReconnect (NextBackOff b now).2 |}]> (goroutines w);
            notified := notified w;
            trace := trace w ++ failed_attempt_events endpoint err (currentInterval b) |}).
Proof.
  intros Hf Hl. split.
  - intros err Herr. rewrite getOrCreateClient_eq, Hf, Hl, Herr. reflexivity.
  - intros err i wt b now Herr Hi He Hpc Hnow Hcur.
    unfold step, watcher. unfold mbind at 1, M_bind at 1, gets at 1.
    rewrite Hi, Hpc, He.
    unfold tryReconnect_connect.
    unfold mbind, M_bind, Log, emit, modify at 1. simpl.
    rewrite getOrCreateClient_eq. simpl.
    rewrite Hf. unfold lookup_conn in *. simpl. rewrite Hl.
    rewrite length_app, Nat.add_1_r. simpl. rewrite Herr.
    unfold mret, M_ret, retry_failed, NextBackOff.
    destruct (Z.gtb_spec (now - startTime b) (MaxElapsedTime b)); [lia|].
    destruct (Z.eqb_spec (currentInterval b) Stop); [unfold Stop in *; lia|].
    unfold with_trace, set_pc. run_m. rewrite He.
    rewrite <- !app_assoc. reflexivity.
Qed.

Lemma getOrCreateClient_factory_error_witness :
  getOrCreateClient (ctxRequest 1) baseLogger Scenario.peerA Scenario.retrying =
    Ret (inr (errorString "connection refused"))
      (with_trace Scenario.retrying
         [EvNewClient ctxServerBg Scenario.peerA (inr (errorString "connection refused"))]) /\
  exists w',
    step Scenario.env_ok (schedule 0 (1 * Second)) Scenario.retrying = Ret tt w' /\
    goroutines w' !! 0%nat =
      Some {| w_cl := client 0; w_endpoint := Scenario.peerA;
              w_pc := pcTryReconnect
                        {| InitialInterval := 500 * Millisecond; Multiplier := 2;
                           MaxElapsedTime := 1 * Minute;
                           currentInterval := 1000 * Millisecond; startTime := 0 |} |}.
Proof.
  pose proof (getOrCreateClient_factory_error Scenario.env_ok Scenario.retrying
                Scenario.dial_once (ctxRequest 1) baseLogger Scenario.peerA
                eq_refl eq_refl) as [Hcall Hwatch].
  split.
  - apply Hcall. reflexivity.
  - eexists. split.
    + apply (Hwatch (errorString "connection refused") 0%nat
               {| w_cl := client 0; w_endpoint := Scenario.peerA;
                  w_pc := pcTryReconnect (Reset remoteBackOff 0) |}
               (Reset remoteBackOff 0) (1 * Second)%Z);
        [reflexivity | reflexivity | reflexivity | reflexivity
        | vm_compute; discriminate | reflexivity].
    + reflexivity.
Defined.

(** ** Computations that only add to the trace *)

Lemma with_trace_nil (w : World) : with_trace w [] = w.
Proof. destruct w. unfold with_trace. simpl. by rewrite app_nil_r. Qed.

Lemma with_trace_app (w : World) (evs1 evs2 : list Event) :
  with_trace (with_trace w evs1) evs2 = with_trace w (evs1 ++ evs2).
Proof. unfold with_trace. simpl. by rewrite app_assoc. Qed.

Lemma appends_ret {A} (P : Event -> Prop) (a : A) : appends P (mret a).
Proof. intros w. exists a, []. by rewrite with_trace_nil. Qed.

Lemma appends_bind {A B} (P : Event -> Prop) (m : M A) (k : A -> M B) :
  appends P m -> (forall a, appends P (k a)) -> appends P (m ≫= k).
Proof.
  intros Hm Hk w. destruct (Hm w) as (a & evs1 & Hrun1 & HP1).
  destruct (Hk a (with_trace w evs1)) as (b & evs2 & Hrun2 & HP2).
  exists b, (evs1 ++ evs2). split.
  - unfold mbind, M_bind. by rewrite Hrun1, Hrun2, with_trace_app.
  - by apply Forall_app.
Qed.

Lemma appends_emit (P : Event -> Prop) (ev : Event) : P ev -> appends P (emit ev).
Proof. intros HP w. exists tt, [ev]. split; [done | by constructor]. Qed.

Lemma appends_gets {A} (P : Event -> Prop) (f : World -> A) : appends P (gets f).
Proof. intros w. exists (f w), []. by rewrite with_trace_nil. Qed.

Lemma appends_for_range {V} (P : Event -> Prop) (l : list (string * V))
    (body : string -> V -> M (option error)) :
  (forall k v, appends P (body k v)) -> appends P (for_range l body).
Proof.
  intros Hbody. induction l as [|[k v] l IH]; simpl.
  - apply appends_ret.
  - apply appends_bind; [apply Hbody|].
    intros [err|]; [apply appends_ret | apply IH].
Qed.

Lemma appends_range {V} (env : Env) (P : Event -> Prop) (m : gmap string V) :
  appends P (range env m).
Proof.
  unfold range, now_. apply appends_bind; [apply appends_gets|].
  intros t. apply appends_ret.
Qed.

Lemma reestablishRepo_appends (env : Env) (cl : UpstreamClient) (ctx : Context)
    (log : Logger) (endpoint repoName : string) (repo : serverRepo) :
  appends (reestablish_event cl ctx) (reestablishRepo env cl ctx log endpoint repoName repo).
Proof.
  unfold reestablishRepo.
  apply appends_bind; [apply appends_range|]. intros remotes_.
  apply appends_for_range. intros remoteName remote.
  destruct (decide _); [|apply appends_ret].
  apply appends_bind; [by apply appends_emit|]. intros _.
  apply appends_bind.
  { unfold call_RepoWatch, now_. apply appends_bind; [apply appends_gets|]. intros t.
    apply appends_bind; [by apply appends_emit | intros _; apply appends_ret]. }
  intros [err|]; [apply appends_ret|].
  apply appends_bind; [apply appends_range|]. intros refs_.
  apply appends_for_range. intros refName refConfig. simpl.
  destruct (refdb repo !! refName) as [o|]; [|apply appends_ret].
  destruct (_ && _); [|apply appends_ret].
  unfold call_RefUpdate, now_. apply appends_bind; [apply appends_gets|]. intros t.
  apply appends_bind; [by apply appends_emit | intros _; apply appends_ret].
Qed.

(** Re-establishment always returns; it only logs and calls RepoWatch and
    RefUpdate, the latter always forced, on the connection and under the
    context it was given. *)
Lemma reestablish_appends (env : Env) (cl : UpstreamClient) (ctx : Context)
    (log : Logger) (endpoint : string) :
  appends (reestablish_event cl ctx) (reestablish env cl ctx log endpoint).
Proof.
  unfold reestablish.
  apply appends_bind; [apply appends_gets|]. intros s.
  apply appends_bind; [apply appends_range|]. intros repos_.
  apply appends_for_range. intros repoName repo. apply reestablishRepo_appends.
Qed.

(** ** What executions preserve *)

Lemma lookup_conn_created (w : World) (log : Logger) (E E' : string) (cl : UpstreamClient) :
  lookup_conn (created w log E cl) E' = if decide (E = E') then Some cl else lookup_conn w E'.
Proof.
  unfold lookup_conn, created. simpl. rewrite lookup_insert.
  destruct (decide (E = E')); [done|].
  destruct (conn (remotes (server w))); [done | apply lookup_empty].
Qed.

Lemma lookup_conn_without (w : World) (E E' : string) :
  lookup_conn (without_conn w E) E' = if decide (E = E') then None else lookup_conn w E'.
Proof.
  unfold lookup_conn, without_conn. simpl.
  destruct (conn (remotes (server w))); simpl.
  - apply lookup_delete.
  - by destruct (decide _).
Qed.

Lemma evolves_refl (S : nat -> Prop) (w : World) : evolves S w w.
Proof.
  split; try done.
  - exists []. rewrite app_nil_r. repeat split; [constructor | by left].
  - intros j wt Hj. by exists wt.
Qed.

Lemma evolves_weaken (S S' : nat -> Prop) (w w' : World) :
  (forall j, S j -> S' j) -> evolves S w w' -> evolves S' w w'.
Proof.
  intros HS [Htr Hg Hc Hn Hd]. split; try done.
  intros j wt Hj. destruct (Hg j wt Hj) as (wt' & ? & ? & ? & Hpc).
  exists wt'. repeat split; try done. intros HnS. apply Hpc. intros HSj. by apply HnS, HS.
Qed.

Lemma has_watcher_evolves (S : nat -> Prop) (w w' : World) (cl : UpstreamClient)
    (E : string) :
  evolves S w w' -> has_watcher w cl E -> has_watcher w' cl E.
Proof.
  intros Hev (j & wt & Hj & Hcl & HE).
  destruct (ev_goroutines _ _ _ Hev j wt Hj) as (wt' & Hj' & Hcl' & HE' & _).
  exists j, wt'. repeat split; congruence.
Qed.

Lemma evolves_trans (S1 S2 : nat -> Prop) (w1 w2 w3 : World) :
  evolves S1 w1 w2 -> evolves S2 w2 w3 -> evolves (fun j => S1 j \/ S2 j) w1 w3.
Proof.
  intros H12 H23. split.
  - destruct (ev_trace _ _ _ H12) as (evs1 & Ht1 & Hok1 & Hc1).
    destruct (ev_trace _ _ _ H23) as (evs2 & Ht2 & Hok2 & Hc2).
    exists (evs1 ++ evs2). split; [|split].
    + by rewrite Ht2, Ht1, app_assoc.
    + by apply Forall_app.
    + intros E c Hl. destruct (Hc2 E c Hl) as [Hl2|[Hin Hw]].
      * destruct (Hc1 E c Hl2) as [Hl1|[Hin Hw]]; [by left|].
        right. split; [apply elem_of_app; by left|].
        by eapply has_watcher_evolves.
      * right. split; [apply elem_of_app; by right | done].
  - intros j wt Hj.
    destruct (ev_goroutines _ _ _ H12 j wt Hj) as (wt2 & Hj2 & Hcl2 & HE2 & Hpc2).
    destruct (ev_goroutines _ _ _ H23 j wt2 Hj2) as (wt3 & Hj3 & Hcl3 & HE3 & Hpc3).
    exists wt3. repeat split; try congruence.
    intros HS. rewrite Hpc3, Hpc2; tauto.
  - intros Hc. by apply (ev_closed _ _ _ H23), (ev_closed _ _ _ H12).
  - intros f Hf. by apply (ev_newClient _ _ _ H23), (ev_newClient _ _ _ H12).
  - intros cl Hcl. by apply (ev_notified _ _ _ H23), (ev_notified _ _ _ H12).
Qed.

Lemma evolves_step (S : nat -> Prop) (w1 w2 w3 : World) :
  evolves S w1 w2 -> evolves S w2 w3 -> evolves S w1 w3.
Proof.
  intros H12 H23. eapply evolves_weaken; [|by eapply evolves_trans]. simpl. tauto.
Qed.

Lemma evolves_with_trace (S : nat -> Prop) (w : World) (evs : list Event) :
  Forall event_ctx_ok evs -> evolves S w (with_trace w evs).
Proof.
  intros Hok. split; try done.
  - exists evs. repeat split; [done | by left].
  - intros j wt Hj. by exists wt.
Qed.

Lemma evolves_at_pc (S : nat -> Prop) (w : World) (i : nat) (wt0 wt : Watcher)
    (pc : WatcherPC) :
  S i -> goroutines w !! i = Some wt0 -> w_cl wt0 = w_cl wt ->
  w_endpoint wt0 = w_endpoint wt -> evolves S w (at_pc w i wt pc).
Proof.
  intros HS Hi Hcl HE. split; try done.
  - exists []. rewrite app_nil_r. repeat split; [constructor | by left].
  - intros j wtj Hj. unfold at_pc. simpl. destruct (decide (i = j)) as [->|Hne].
    + eexists. rewrite list_lookup_insert_eq by (by eapply lookup_lt_Some).
      split; [done|]. simpl. repeat split; congruence.
    + exists wtj. by rewrite list_lookup_insert_ne.
Qed.

Lemma evolves_without_conn (S : nat -> Prop) (w : World) (E : string) :
  evolves S w (without_conn w E).
Proof.
  split; try done.
  - exists []. rewrite app_nil_r. repeat split; [constructor|].
    intros E' c. rewrite lookup_conn_without. destruct (decide _); [done | by left].
  - intros j wt Hj. by exists wt.
Qed.

Lemma evolves_created (S : nat -> Prop) (w : World) (log : Logger) (E : string)
    (cl : UpstreamClient) :
  evolves S w (created w log E cl).
Proof.
  split; try done.
  - exists (creation_events log E cl). repeat split.
    + unfold creation_events. by repeat constructor.
    + intros E' c. rewrite lookup_conn_created. destruct (decide _) as [<-|]; [|by left].
      intros [= <-]. right. split; [by left|].
      exists (length (goroutines w)), {| w_cl := cl; w_endpoint := E; w_pc := pcWaitDisconnect |}.
      split; [|done]. unfold created. simpl.
      rewrite lookup_app_r by done. by rewrite Nat.sub_diag.
  - intros j wt Hj. exists wt. unfold created. simpl.
    by rewrite lookup_app_l by (by eapply lookup_lt_Some).
Qed.

(** getOrCreateClient, whatever it returns. *)
Lemma getOrCreateClient_evolves (S : nat -> Prop) (w w' : World) (ctx : Context)
    (log : Logger) (E : string) (r : UpstreamClient + error) :
  getOrCreateClient ctx log E w = Ret r w' -> evolves S w w'.
Proof.
  rewrite getOrCreateClient_eq.
  destruct (newClient _) as [f|]; [|done].
  destruct (lookup_conn w E).
  - intros [= _ <-]. apply evolves_refl.
  - destruct (f _ _ _).
    + intros [= _ <-]. apply evolves_created.
    + intros [= _ <-]. apply evolves_with_trace. by repeat constructor.
Qed.

Lemma retry_failed_eq (w : World) (i : nat) (wt : Watcher) (log : Logger)
    (b : ExponentialBackOff) (now : Z) (err : error) :
  retry_failed i wt log b now err w = Ret tt (after_failure w i wt log b now err).
Proof.
  unfold retry_failed, after_failure. destruct (NextBackOff b now) as [next b']. simpl.
  destruct (next =? Stop)%Z; unfold at_pc, with_trace, set_pc; run_m;
    by rewrite <- ?app_assoc.
Qed.

Lemma evolves_after_failure (S : nat -> Prop) (w : World) (i : nat) (wt0 wt : Watcher)
    (log : Logger) (b : ExponentialBackOff) (now : Z) (err : error) :
  S i -> goroutines w !! i = Some wt0 -> w_cl wt0 = w_cl wt ->
  w_endpoint wt0 = w_endpoint wt -> evolves S w (after_failure w i wt log b now err).
Proof.
  intros HS Hi Hcl HE. unfold after_failure. destruct (_ =? _)%Z.
  - eapply evolves_step; [|by eapply evolves_at_pc].
    apply evolves_with_trace; by repeat constructor.
  - eapply evolves_step; [|by eapply evolves_at_pc].
    apply evolves_with_trace; by repeat constructor.
Qed.

Lemma emit_eq (ev : Event) (w : World) : emit ev w = Ret tt (with_trace w [ev]).
Proof. reflexivity. Qed.

Lemma tryReconnect_connect_evolves (S : nat -> Prop) (w w' : World) (ctx : Context)
    (log : Logger) (E : string) (r : UpstreamClient + error) :
  tryReconnect_connect ctx log E w = Ret r w' -> evolves S w w'.
Proof.
  unfold tryReconnect_connect. unfold mbind, M_bind, Log, mret, M_ret.
  rewrite emit_eq.
  destruct (getOrCreateClient ctx log E _) as [[cl|err] w1|] eqn:Hg; [| |done].
  - rewrite emit_eq. intros [= _ <-].
    apply (evolves_step S w (with_trace w [EvLog log levelDebug [("try-reconnect", EmptyString)]]));
      [apply evolves_with_trace; by repeat constructor|].
    apply (evolves_step S _ w1); [by eapply getOrCreateClient_evolves|].
    apply evolves_with_trace. by repeat constructor.
  - intros [= _ <-].
    apply (evolves_step S w (with_trace w [EvLog log levelDebug [("try-reconnect", EmptyString)]]));
      [apply evolves_with_trace; by repeat constructor|].
    by eapply getOrCreateClient_evolves.
Qed.

Lemma reestablish_event_ctx_ok (cl : UpstreamClient) (ev : Event) :
  reestablish_event cl ctxBackground ev -> event_ctx_ok ev.
Proof. destruct ev; simpl; tauto. Qed.

Lemma reestablish_evolves (S : nat -> Prop) (env : Env) (w w' : World)
    (cl : UpstreamClient) (log : Logger) (E : string) (r : option error) :
  reestablish env cl ctxBackground log E w = Ret r w' -> evolves S w w'.
Proof.
  destruct (reestablish_appends env cl ctxBackground log E w) as (a & evs & -> & Hevs).
  intros [= _ <-]. apply evolves_with_trace.
  eapply Forall_impl; [done | apply reestablish_event_ctx_ok].
Qed.

(** The action of the watcher at each of its program points, in closed form. *)
Lemma watcher_wait (env : Env) (now : Z) (i : nat) (wt : Watcher) (w : World) :
  w_pc wt = pcWaitDisconnect ->
  watcher env now i wt w =
    Ret tt (if bool_decide (w_cl wt ∈ notified w) then at_pc w i wt pcCheckClosed else w).
Proof.
  intros Hpc. unfold watcher. rewrite Hpc. unfold mbind, M_bind, gets.
  by destruct (bool_decide _).
Qed.

Lemma watcher_check (env : Env) (now : Z) (i : nat) (wt : Watcher) (w : World) :
  w_pc wt = pcCheckClosed ->
  watcher env now i wt w =
    Ret tt (at_pc w i wt (if closed (server w) then pcExited else pcRemoveEntry)).
Proof.
  intros Hpc. unfold watcher. rewrite Hpc. unfold mbind, M_bind, gets.
  by destruct (closed _).
Qed.

Lemma watcher_remove (env : Env) (now : Z) (i : nat) (wt : Watcher) (w : World) :
  w_pc wt = pcRemoveEntry ->
  watcher env now i wt w =
    Ret tt (at_pc (without_conn (with_trace w [disconnected_event (w_endpoint wt)])
                     (w_endpoint wt))
              i wt (pcTryReconnect (Reset remoteBackOff now))).
Proof. intros Hpc. unfold watcher. by rewrite Hpc. Qed.

Lemma watcher_try (env : Env) (now : Z) (i : nat) (wt : Watcher) (w : World)
    (b : ExponentialBackOff) :
  w_pc wt = pcTryReconnect b ->
  watcher env now i wt w =
    match tryReconnect_connect ctxBackground (watcher_log (w_endpoint wt))
            (w_endpoint wt) w with
    | Ret (inl cl) w1 => Ret tt (at_pc w1 i wt (pcReestablish b cl))
    | Ret (inr err) w1 =>
        Ret tt (after_failure w1 i wt (watcher_log (w_endpoint wt)) b now err)
    | Panic msg w1 => Panic msg w1
    end.
Proof.
  intros Hpc. unfold watcher. rewrite Hpc. unfold mbind at 1, M_bind at 1.
  unfold watcher_log.
  destruct (tryReconnect_connect _ _ _ w) as [[cl|err] w1|]; try done.
  apply retry_failed_eq.
Qed.

Lemma watcher_reestablish (env : Env) (now : Z) (i : nat) (wt : Watcher) (w : World)
    (b : ExponentialBackOff) (cl : UpstreamClient) :
  w_pc wt = pcReestablish b cl ->
  watcher env now i wt w =
    match reestablish env cl ctxBackground (watcher_log (w_endpoint wt))
            (w_endpoint wt) w with
    | Ret None w1 => Ret tt (at_pc w1 i wt pcExited)
    | Ret (Some err) w1 =>
        Ret tt (after_failure w1 i wt (watcher_log (w_endpoint wt)) b now err)
    | Panic msg w1 => Panic msg w1
    end.
Proof.
  intros Hpc. unfold watcher. rewrite Hpc. unfold mbind at 1, M_bind at 1.
  unfold watcher_log.
  destruct (reestablish _ _ _ _ _ w) as [[err|] w1|]; try done.
  apply retry_failed_eq.
Qed.

Lemma watcher_exited (env : Env) (now : Z) (i : nat) (wt : Watcher) (w : World) :
  w_pc wt = pcExited -> watcher env now i wt w = Ret tt w.
Proof. intros Hpc. unfold watcher. by rewrite Hpc. Qed.

(** One action of a goroutine. *)
Lemma watcher_evolves (env : Env) (now : Z) (i : nat) (wt : Watcher) (w w' : World) :
  goroutines w !! i = Some wt ->
  watcher env now i wt w = Ret tt w' -> evolves (eq i) w w'.
Proof.
  intros Hi. destruct (w_pc wt) as [| | |b|b cl|] eqn:Hpc.
  - rewrite watcher_wait by done. destruct (bool_decide _).
    + intros [= <-]. by eapply (evolves_at_pc _ w).
    + intros [= <-]. apply evolves_refl.
  - rewrite watcher_check by done. intros [= <-]. by eapply (evolves_at_pc _ w).
  - rewrite watcher_remove by done. intros [= <-].
    apply (evolves_step _ w (with_trace w [disconnected_event (w_endpoint wt)]));
      [apply evolves_with_trace; by repeat constructor|].
    apply (evolves_step _ _ (without_conn (with_trace w [disconnected_event (w_endpoint wt)])
                               (w_endpoint wt))); [apply evolves_without_conn|].
    by eapply evolves_at_pc.
  - rewrite (watcher_try _ _ _ _ _ b) by done.
    destruct (tryReconnect_connect _ _ _ w) as [[cl|err] w1|] eqn:Ht; [| |done].
    + intros [= <-].
      pose proof (tryReconnect_connect_evolves (eq i) _ _ _ _ _ _ Ht) as Hev.
      destruct (ev_goroutines _ _ _ Hev i wt Hi) as (wt1 & Hi1 & Hcl1 & HE1 & _).
      apply (evolves_step _ w w1); [exact Hev|]. by eapply evolves_at_pc.
    + intros [= <-].
      pose proof (tryReconnect_connect_evolves (eq i) _ _ _ _ _ _ Ht) as Hev.
      destruct (ev_goroutines _ _ _ Hev i wt Hi) as (wt1 & Hi1 & Hcl1 & HE1 & _).
      apply (evolves_step _ w w1); [exact Hev|]. by eapply evolves_after_failure.
  - rewrite (watcher_reestablish _ _ _ _ _ b cl) by done.
    destruct (reestablish _ _ _ _ _ w) as [[err|] w1|] eqn:Hr; [| |done].
    + intros [= <-].
      pose proof (reestablish_evolves (eq i) _ _ _ _ _ _ _ Hr) as Hev.
      destruct (ev_goroutines _ _ _ Hev i wt Hi) as (wt1 & Hi1 & Hcl1 & HE1 & _).
      apply (evolves_step _ w w1); [exact Hev|]. by eapply evolves_after_failure.
    + intros [= <-].
      pose proof (reestablish_evolves (eq i) _ _ _ _ _ _ _ Hr) as Hev.
      destruct (ev_goroutines _ _ _ Hev i wt Hi) as (wt1 & Hi1 & Hcl1 & HE1 & _).
      apply (evolves_step _ w w1); [exact Hev|]. by eapply evolves_at_pc.
  - rewrite watcher_exited by done. intros [= <-]. apply evolves_refl.
Qed.

(** One step of the system. *)
Lemma step_evolves (env : Env) (l : Label) (w w' : World) :
  step env l w = Ret tt w' -> evolves (scheduled l) w w'.
Proof.
  destruct l as [f|E|ctx log E|E| |r|cl|i now]; simpl.
  - unfold ConfigureRemoteClientFunc. unfold mbind, M_bind, gets.
    destruct (newClient _) eqn:Hn; [done|]. intros [= <-].
    split; try done.
    + exists []. rewrite app_nil_r. repeat split; [constructor | by left].
    + intros j wt Hj. by exists wt.
    + simpl. congruence.
  - unfold getClient, mbind, M_bind, gets. destruct (conn_lookup _ _);
      intros [= <-]; apply evolves_refl.
  - unfold mbind, M_bind.
    destruct (getOrCreateClient ctx log E w) as [r w1|] eqn:Hg; [|done].
    intros [= <-]. by eapply getOrCreateClient_evolves.
  - unfold closeAndRemoveClient. unfold mbind, M_bind, gets.
    destruct (conn_lookup _ _) as [cl|]; [|done].
    intros [= <-].
    apply (evolves_step _ w (without_conn w E)); [apply evolves_without_conn|].
    apply (evolves_with_trace _ (without_conn w E)). by repeat constructor.
  - intros [= <-]. split; try done.
    + exists []. rewrite app_nil_r. repeat split; [constructor | by left].
    + intros j wt Hj. by exists wt.
  - intros [= <-]. split; try done.
    + exists []. rewrite app_nil_r. repeat split; [constructor | by left].
    + intros j wt Hj. by exists wt.
  - intros [= <-]. split; try done.
    + exists []. rewrite app_nil_r. repeat split; [constructor | by left].
    + intros j wt Hj. by exists wt.
    + intros cl' Hcl. simpl. by right.
  - unfold mbind, M_bind, gets.
    destruct (goroutines w !! i) as [wt|] eqn:Hi.
    + intros Hw. by eapply watcher_evolves.
    + intros [= <-]. apply evolves_refl.
Qed.

(** A whole schedule. *)
Lemma run_evolves (env : Env) (ls : list Label) (w w' : World) :
  run env ls w = Ret tt w' -> evolves (scheduled_in ls) w w'.
Proof.
  revert w. induction ls as [|l ls IH]; intros w; simpl.
  - intros [= <-]. apply evolves_refl.
  - unfold mbind, M_bind. destruct (step env l w) as [[] w1|] eqn:Hs; [|done].
    intros Hr. eapply evolves_weaken; [|eapply evolves_trans;
      [by eapply step_evolves | by eapply IH]].
    intros j [H|H]; [by left | by right].
Qed.

(** ** The registry holds at most one connection per endpoint *)

Lemma lookup_conn_registry (w : World) (E : string) (c : UpstreamClient) :
  lookup_conn w E = Some c <-> (E, c) ∈ registry w.
Proof.
  unfold lookup_conn, registry. destruct (conn (remotes (server w))) as [m|]; simpl.
  - symmetry. apply elem_of_map_to_list.
  - split; [done | by intros ?%elem_of_nil].
Qed.

Lemma filter_fst_absent {A} (E : string) (l : list (string * A)) :
  E ∉ l.*1 -> filter (fun kv => kv.1 = E) l = [].
Proof.
  induction l as [|[k v] l IH]; simpl; [done|].
  intros Hnot. rewrite filter_cons. simpl.
  destruct (decide (k = E)) as [->|].
  - destruct Hnot. by left.
  - apply IH. intros Hin. apply Hnot. by right.
Qed.

Lemma NoDup_fst_filter_length {A} (E : string) (l : list (string * A)) :
  NoDup l.*1 -> length (filter (fun kv => kv.1 = E) l) <= 1.
Proof.
  induction l as [|[k v] l IH]; simpl; [lia|].
  intros [Hk Hl]%NoDup_cons. rewrite filter_cons. simpl.
  destruct (decide (k = E)) as [->|]; [|by apply IH].
  simpl. rewrite filter_fst_absent by done. simpl. lia.
Qed.

Lemma entries_for_length (w : World) (E : string) : length (entries_for w E) <= 1.
Proof.
  unfold entries_for, registry. apply NoDup_fst_filter_length.
  destruct (conn (remotes (server w))); [apply NoDup_fst_map_to_list | constructor].
Qed.

Lemma registry_inv_evolves (S : nat -> Prop) (w w' : World) :
  evolves S w w' -> registry_inv w -> registry_inv w'.
Proof.
  intros Hev Hinv E. split; [apply entries_for_length|].
  intros c Hc%lookup_conn_registry.
  destruct (ev_trace _ _ _ Hev) as (evs & Htr & _ & Hconn).
  destruct (Hconn E c Hc) as [Hold%lookup_conn_registry|[Hin Hw]].
  - destruct (Hinv E) as [_ Horigin]. destruct (Horigin c Hold) as [Hin Hw]. split.
    + rewrite Htr. apply elem_of_app. by left.
    + by eapply has_watcher_evolves.
  - split; [|done]. rewrite Htr. apply elem_of_app. by right.
Qed.

Lemma getClient_eq (w : World) (E : string) :
  getClient E w =
    Ret (match lookup_conn w E with Some c => (Some c, true) | None => (None, false) end) w.
Proof. unfold getClient, lookup_conn. run_m. by destruct (conn_lookup _ _). Qed.

(** C1. In every state the server can reach, the registry holds at most one
    entry for each endpoint, and the connection of an entry was made by the
    factory for that endpoint and is watched by a goroutine. Every step of
    the system (the calls of ConfigureRemoteClientFunc, getClient,
    getOrCreateClient and closeAndRemoveClient, and every action of a
    watcher, its removal of the entry included) preserves this. getClient
    finds exactly the entries: it answers not found, which stands for
    disconnected, exactly when the registry has no entry for the endpoint. *)
Theorem registry_at_most_one_entry (env : Env) :
  (forall r, registry_inv (newWorld r)) /\
  (forall l w w', registry_inv w -> step env l w = Ret tt w' -> registry_inv w') /\
  (forall w, reachable env w -> registry_inv w) /\
  (forall w E c1 c2, (E, c1) ∈ registry w -> (E, c2) ∈ registry w -> c1 = c2) /\
  (forall w E c, getClient E w = Ret (Some c, true) w <-> (E, c) ∈ registry w) /\
  (forall w E, getClient E w = Ret (None, false) w <-> forall c, (E, c) ∉ registry w).
Proof.
  assert (Hinit : forall r, registry_inv (newWorld r)).
  { intros r E. split; [apply entries_for_length|]. by intros c ?%elem_of_nil. }
  split; [exact Hinit|]. split; [|split; [|split; [|split]]].
  - intros l w w' Hinv Hstep.
    eapply registry_inv_evolves; [by eapply step_evolves | done].
  - intros w (r & ls & Hrun).
    eapply registry_inv_evolves; [by eapply run_evolves | apply Hinit].
  - intros w E c1 c2 H1%lookup_conn_registry H2%lookup_conn_registry. congruence.
  - intros w E c. rewrite getClient_eq, <- lookup_conn_registry.
    destruct (lookup_conn w E); split; congruence.
  - intros w E. rewrite getClient_eq. split.
    + destruct (lookup_conn w E) eqn:Hl; [done|].
      intros _ c Hin%lookup_conn_registry. congruence.
    + intros Hnone. destruct (lookup_conn w E) as [c|] eqn:Hl; [|done].
      apply lookup_conn_registry in Hl. by destruct (Hnone c).
Qed.

Lemma registry_at_most_one_entry_witness :
  registry_inv Scenario.connected /\
  getClient Scenario.peerA Scenario.connected = Ret (Some (client 0), true) Scenario.connected.
Proof.
  pose proof (registry_at_most_one_entry Scenario.env_ok)
    as (_ & _ & Hreach & _ & Hfound & _).
  split.
  - apply Hreach. exists Scenario.repos1.
    exists [callConfigureRemoteClientFunc (Some Scenario.dial_ok);
            callGetOrCreateClient (ctxRequest 0) baseLogger Scenario.peerA].
    reflexivity.
  - apply Hfound. apply lookup_conn_registry. reflexivity.
Defined.

(** ** The watcher removes the entry before it dials *)

Lemma after_failure_trace (w : World) (i : nat) (wt : Watcher) (log : Logger)
    (b : ExponentialBackOff) (now : Z) (err : error) :
  exists evs, trace (after_failure w i wt log b now err) = trace w ++ evs /\
              Forall (fun ev => ~ is_dial ev) evs.
Proof.
  unfold after_failure. destruct (_ =? _)%Z; simpl; eexists; split; try done;
    repeat constructor; tauto.
Qed.

Lemma reestablish_event_not_dial (cl : UpstreamClient) (ctx : Context) (ev : Event) :
  reestablish_event cl ctx ev -> ~ is_dial ev.
Proof. destruct ev; simpl; tauto. Qed.

(** A goroutine calls the factory only from inside its retry loop, at the
    start of tryReconnect. *)
Lemma watcher_dials_only_when_trying (env : Env) (now : Z) (i : nat) (wt : Watcher)
    (w w' : World) (evs : list Event) :
  watcher env now i wt w = Ret tt w' ->
  trace w' = trace w ++ evs ->
  Exists is_dial evs ->
  exists b, w_pc wt = pcTryReconnect b.
Proof.
  intros Hrun Htr Hdial. destruct (w_pc wt) as [| | |b|b cl|] eqn:Hpc; [| | | by exists b | |].
  - rewrite watcher_wait in Hrun by done. destruct (bool_decide _);
      injection Hrun as <-; simpl in Htr;
      rewrite <- (app_nil_r (trace w)) in Htr at 1; apply app_inv_head in Htr; subst evs;
      by apply Exists_nil in Hdial.
  - rewrite watcher_check in Hrun by done. injection Hrun as <-. simpl in Htr.
    rewrite <- (app_nil_r (trace w)) in Htr at 1. apply app_inv_head in Htr. subst evs.
    by apply Exists_nil in Hdial.
  - rewrite watcher_remove in Hrun by done. injection Hrun as <-. simpl in Htr.
    apply app_inv_head in Htr. subst evs.
    apply Exists_cons in Hdial as [[]|[]%Exists_nil].
  - rewrite (watcher_reestablish _ _ _ _ _ b cl) in Hrun by done.
    destruct (reestablish_appends env cl ctxBackground (watcher_log (w_endpoint wt))
                (w_endpoint wt) w) as (r & evs0 & Hre & Hevs0).
    rewrite Hre in Hrun.
    assert (Hnd : Forall (fun ev => ~ is_dial ev) evs0).
    { eapply Forall_impl; [done | apply reestablish_event_not_dial]. }
    destruct r as [err|]; injection Hrun as <-.
    + destruct (after_failure_trace (with_trace w evs0) i wt
                  (watcher_log (w_endpoint wt)) b now err) as (evs1 & Htr1 & Hnd1).
      rewrite Htr1 in Htr. simpl in Htr. rewrite <- app_assoc in Htr.
      apply app_inv_head in Htr. subst evs.
      apply Exists_app in Hdial as [Hd|Hd]; apply Exists_exists in Hd as (ev & Hin & Hd).
      * by destruct (proj1 (Forall_forall _ _) Hnd ev Hin).
      * by destruct (proj1 (Forall_forall _ _) Hnd1 ev Hin).
    + simpl in Htr. apply app_inv_head in Htr. subst evs.
      apply Exists_exists in Hdial as (ev & Hin & Hd).
      by destruct (proj1 (Forall_forall _ _) Hnd ev Hin).
  - rewrite watcher_exited in Hrun by done. injection Hrun as <-.
    rewrite <- (app_nil_r (trace w)) in Htr at 1. apply app_inv_head in Htr. subst evs.
    by apply Exists_nil in Hdial.
Qed.

(** An endpoint without entry stays without entry until a call of the
    factory for it succeeds. *)
Lemma absent_until_dialled (env : Env) (ls : list Label) (w w' : World) (E : string)
    (evs : list Event) :
  run env ls w = Ret tt w' ->
  trace w' = trace w ++ evs ->
  lookup_conn w E = None ->
  (forall c, EvNewClient ctxServerBg E (inl c) ∉ evs) ->
  lookup_conn w' E = None.
Proof.
  intros Hrun Htr Hnone Hnodial.
  destruct (ev_trace _ _ _ (run_evolves _ _ _ _ Hrun)) as (evs' & Htr' & _ & Hconn).
  rewrite Htr' in Htr. apply app_inv_head in Htr. subst evs'.
  destruct (lookup_conn w' E) as [c|] eqn:Hl; [|done].
  destruct (Hconn E c Hl) as [Hold|[Hin _]]; [congruence|].
  by destruct (Hnodial c).
Qed.

(** C4. Once a watcher has received the disconnect signal of its connection
    and the server is not closed, it goes from the signal to the check of
    [closed] and to the removal without touching the registry or the
    network; its next action deletes the entry of its endpoint and logs, and
    still does not dial: right after it getClient does not find the
    endpoint, the watcher stands at the start of its retry loop, and
    getClient keeps answering not found for as long as no call of the
    factory for the endpoint has succeeded. A watcher calls the factory
    only from inside the retry loop, which it enters by that removal. *)
Theorem watcher_removes_entry_before_dial (env : Env) (w : World) (i : nat) (wt : Watcher)
    (now : Z) :
  goroutines w !! i = Some wt ->
  (w_pc wt = pcWaitDisconnect -> w_cl wt ∈ notified w ->
   step env (schedule i now) w = Ret tt (at_pc w i wt pcCheckClosed)) /\
  (w_pc wt = pcCheckClosed -> closed (server w) = false ->
   step env (schedule i now) w = Ret tt (at_pc w i wt pcRemoveEntry)) /\
  (w_pc wt = pcRemoveEntry ->
   exists w1,
     step env (schedule i now) w = Ret tt w1 /\
     trace w1 = trace w ++ [disconnected_event (w_endpoint wt)] /\
     goroutines w1 !! i =
       Some {| w_cl := w_cl wt; w_endpoint := w_endpoint wt;
               w_pc := pcTryReconnect (Reset remoteBackOff now) |} /\
     getClient (w_endpoint wt) w1 = Ret (None, false) w1 /\
     forall ls w2 evs,
       run env ls w1 = Ret tt w2 ->
       trace w2 = trace w1 ++ evs ->
       (forall c, EvNewClient ctxServerBg (w_endpoint wt) (inl c) ∉ evs) ->
       getClient (w_endpoint wt) w2 = Ret (None, false) w2) /\
  (forall w' evs,
     step env (schedule i now) w = Ret tt w' ->
     trace w' = trace w ++ evs ->
     Exists is_dial evs ->
     exists b, w_pc wt = pcTryReconnect b).
Proof.
  intros Hi.
  assert (Hstep : step env (schedule i now) w = watcher env now i wt w).
  { simpl. unfold mbind, M_bind, gets. by rewrite Hi. }
  rewrite Hstep. split; [|split; [|split]].
  - intros Hpc Hn. rewrite watcher_wait by done. by rewrite bool_decide_eq_true_2.
  - intros Hpc Hc. rewrite watcher_check by done. by rewrite Hc.
  - intros Hpc. eexists. split; [by apply watcher_remove|].
    assert (Hgone : lookup_conn
              (at_pc (without_conn (with_trace w [disconnected_event (w_endpoint wt)])
                        (w_endpoint wt)) i wt (pcTryReconnect (Reset remoteBackOff now)))
              (w_endpoint wt) = None).
    { change (lookup_conn (at_pc ?w0 _ _ _) ?E) with (lookup_conn w0 E).
      rewrite lookup_conn_without. by destruct (decide _). }
    split; [done|]. split.
    { simpl. apply list_lookup_insert_eq. by eapply lookup_lt_Some. }
    split.
    { by rewrite getClient_eq, Hgone. }
    intros ls w2 evs Hrun Htr Hnodial.
    rewrite getClient_eq. by erewrite absent_until_dialled.
  - intros w' evs Hrun Htr Hdial. by eapply watcher_dials_only_when_trying.
Qed.

Lemma watcher_removes_entry_before_dial_witness :
  step Scenario.env_ok (schedule 0 0) Scenario.received = Ret tt Scenario.checked /\
  step Scenario.env_ok (schedule 0 0) Scenario.checked = Ret tt Scenario.removed /\
  getClient Scenario.peerA Scenario.checked = Ret (Some (client 0), true) Scenario.checked /\
  getClient Scenario.peerA Scenario.removed = Ret (None, false) Scenario.removed /\
  forall w2,
    run Scenario.env_ok [callGetClient Scenario.peerA; disconnectNotify (client 0)]
      Scenario.removed = Ret tt w2 ->
    getClient Scenario.peerA w2 = Ret (None, false) w2.
Proof.
  pose proof (watcher_removes_entry_before_dial Scenario.env_ok Scenario.received 0%nat
                {| w_cl := client 0; w_endpoint := Scenario.peerA; w_pc := pcCheckClosed |}
                0%Z eq_refl) as (_ & Hcheck & _).
  pose proof (watcher_removes_entry_before_dial Scenario.env_ok Scenario.checked 0%nat
                {| w_cl := client 0; w_endpoint := Scenario.peerA; w_pc := pcRemoveEntry |}
                0%Z eq_refl) as (_ & _ & Hremove & _).
  destruct (Hremove eq_refl) as (w1 & Hstep & _ & _ & Hget & Hinterval).
  assert (Hw1 : w1 = Scenario.removed).
  { assert (Heq : step Scenario.env_ok (schedule 0 0) Scenario.checked
                  = Ret tt Scenario.removed) by reflexivity.
    rewrite Heq in Hstep. by injection Hstep. }
  subst w1. split; [|split; [|split; [|split]]].
  - exact (Hcheck eq_refl eq_refl).
  - exact Hstep.
  - reflexivity.
  - exact Hget.
  - intros w2 Hrun. apply (Hinterval _ w2 [] Hrun).
    + vm_compute in Hrun. injection Hrun as <-. reflexivity.
    + intros c Hin. by apply elem_of_nil in Hin.
Defined.

(** ** Shutdown *)

Lemma step_schedule (env : Env) (i : nat) (now : Z) (wt : Watcher) (w : World) :
  goroutines w !! i = Some wt ->
  step env (schedule i now) w = watcher env now i wt w.
Proof. intros Hi. simpl. unfold mbind, M_bind, gets. by rewrite Hi. Qed.

Lemma at_pc_lookup (w : World) (i : nat) (wt0 wt : Watcher) (pc : WatcherPC) :
  goroutines w !! i = Some wt0 ->
  goroutines (at_pc w i wt pc) !! i =
    Some {| w_cl := w_cl wt; w_endpoint := w_endpoint wt; w_pc := pc |}.
Proof. intros Hi. simpl. apply list_lookup_insert_eq. by eapply lookup_lt_Some. Qed.

(** With the server closed, a watcher that has not passed the check of
    [closed] never passes it. *)
Lemma closed_keeps_watcher_out (env : Env) (ls : list Label) (w w' : World) (i : nat)
    (wt : Watcher) :
  goroutines w !! i = Some wt ->
  closed (server w) = true ->
  outside_retry_loop (w_pc wt) ->
  run env ls w = Ret tt w' ->
  closed (server w') = true /\
  exists wt', goroutines w' !! i = Some wt' /\ w_cl wt' = w_cl wt /\
              w_endpoint wt' = w_endpoint wt /\ outside_retry_loop (w_pc wt').
Proof.
  revert w wt. induction ls as [|l ls IH]; intros w wt Hi Hc Hout; simpl.
  - intros [= <-]. split; [done|]. by exists wt.
  - unfold mbind, M_bind. destruct (step env l w) as [[] w1|] eqn:Hs; [|done].
    intros Hrun.
    pose proof (step_evolves _ _ _ _ Hs) as Hev.
    assert (Hc1 : closed (server w1) = true) by by apply (ev_closed _ _ _ Hev).
    destruct (ev_goroutines _ _ _ Hev i wt Hi) as (wt1 & Hi1 & Hcl1 & HE1 & Hpc1).
    assert (Hout1 : outside_retry_loop (w_pc wt1)).
    { destruct l as [| | | | | | |j now];
        try (rewrite Hpc1 by (simpl; tauto); exact Hout).
      destruct (decide (j = i)) as [->|Hne];
        [|rewrite Hpc1 by (simpl; tauto); exact Hout].
      rewrite (step_schedule _ _ _ wt) in Hs by done.
      destruct (w_pc wt) eqn:Hpc; try done.
      - rewrite watcher_wait in Hs by done. destruct (bool_decide _); injection Hs as <-.
        + erewrite at_pc_lookup in Hi1 by done. by injection Hi1 as <-.
        + rewrite Hi in Hi1. injection Hi1 as <-. by rewrite Hpc.
      - rewrite watcher_check in Hs by done. rewrite Hc in Hs. injection Hs as <-.
        erewrite at_pc_lookup in Hi1 by done. by injection Hi1 as <-.
      - rewrite watcher_exited in Hs by done. injection Hs as <-.
        rewrite Hi in Hi1. injection Hi1 as <-. by rewrite Hpc. }
    destruct (IH w1 wt1 Hi1 Hc1 Hout1 Hrun) as (Hc' & wt' & Hi' & Hcl' & HE' & Hout').
    split; [done|]. exists wt'. repeat split; congruence.
Qed.

(** C5, as the code has it. When the watcher of a disconnected connection
    reads [closed] and the server is closed, it exits: no entry is removed,
    nothing is logged, no retry loop starts. In particular, when the server
    is already closed as the signal fires, the watcher never enters the
    retry loop, whatever else happens. The flag is read once: from the
    removal of the entry on the watcher goes into its retry loop whether or
    not the server has been closed since. The factory is always called
    under the server's background context, and RepoWatch and RefUpdate
    always under [context.Background()], which is never cancelled. *)
Theorem watcher_exits_when_closed (env : Env) (w : World) (i : nat) (wt : Watcher) :
  goroutines w !! i = Some wt ->
  (forall now, w_pc wt = pcCheckClosed -> closed (server w) = true ->
     step env (schedule i now) w = Ret tt (at_pc w i wt pcExited)) /\
  (closed (server w) = true -> outside_retry_loop (w_pc wt) ->
     forall ls w', run env ls w = Ret tt w' ->
       closed (server w') = true /\
       exists wt', goroutines w' !! i = Some wt' /\ w_cl wt' = w_cl wt /\
                   w_endpoint wt' = w_endpoint wt /\ outside_retry_loop (w_pc wt')) /\
  (forall now, w_pc wt = pcRemoveEntry ->
     exists w1,
       step env (schedule i now) w = Ret tt w1 /\
       closed (server w1) = closed (server w) /\
       goroutines w1 !! i =
         Some {| w_cl := w_cl wt; w_endpoint := w_endpoint wt;
                 w_pc := pcTryReconnect (Reset remoteBackOff now) |}) /\
  (forall ls w' evs, run env ls w = Ret tt w' -> trace w' = trace w ++ evs ->
     Forall event_ctx_ok evs) /\
  never_cancelled ctxBackground = true.
Proof.
  intros Hi. split; [|split; [|split; [|split]]].
  - intros now Hpc Hc. rewrite (step_schedule _ _ _ wt) by done.
    rewrite watcher_check by done. by rewrite Hc.
  - intros Hc Hout ls w' Hrun. by eapply closed_keeps_watcher_out.
  - intros now Hpc. eexists. rewrite (step_schedule _ _ _ wt) by done.
    split; [by apply watcher_remove|]. split; [done|].
    by erewrite at_pc_lookup.
  - intros ls w' evs Hrun Htr.
    destruct (ev_trace _ _ _ (run_evolves _ _ _ _ Hrun)) as (evs' & Htr' & Hok & _).
    rewrite Htr' in Htr. apply app_inv_head in Htr. by subst evs'.
  - reflexivity.
Qed.

Lemma watcher_exits_when_closed_witness :
  step Scenario.env_ok (schedule 0 0) Scenario.closed_received
    = Ret tt (at_pc Scenario.closed_received 0
                {| w_cl := client 0; w_endpoint := Scenario.peerA; w_pc := pcCheckClosed |}
                pcExited) /\
  forall w',
    run Scenario.env_ok [schedule 0 0; schedule 0 0; schedule 0 0] Scenario.closed_at_signal
      = Ret tt w' ->
    exists wt', goroutines w' !! 0%nat = Some wt' /\ outside_retry_loop (w_pc wt').
Proof.
  split.
  - apply (watcher_exits_when_closed Scenario.env_ok Scenario.closed_received 0%nat
             {| w_cl := client 0; w_endpoint := Scenario.peerA; w_pc := pcCheckClosed |}
             eq_refl); reflexivity.
  - intros w' Hrun.
    pose proof (watcher_exits_when_closed Scenario.env_ok Scenario.closed_at_signal 0%nat
                  {| w_cl := client 0; w_endpoint := Scenario.peerA;
                     w_pc := pcWaitDisconnect |} eq_refl) as (_ & Hout & _).
    destruct (Hout eq_refl I _ w' Hrun) as (_ & wt' & Hi & _ & _ & Hpc).
    by exists wt'.
Defined.

(** C5 as stated fails: a server that is closed after the watcher has read
    [closed] does not keep the watcher from starting its retry loop. With
    the server closed the watcher removes the entry, dials, and calls
    RepoWatch and RefUpdate under [context.Background()], which no shutdown
    cancels. *)
Lemma shutdown_after_check_does_not_stop_retry :
  closed (server Scenario.closed_after_check) = true /\
  goroutines Scenario.closed_after_check !! 0%nat =
    Some {| w_cl := client 0; w_endpoint := Scenario.peerA; w_pc := pcRemoveEntry |} /\
  run Scenario.env_ok [schedule 0 0; schedule 0 0; schedule 0 0]
    Scenario.closed_after_check = Ret tt Scenario.closed_retried /\
  closed (server Scenario.closed_retried) = true /\
  lookup_conn Scenario.closed_retried Scenario.peerA = Some (client 7) /\
  trace Scenario.closed_retried = trace Scenario.closed_after_check ++
    [ disconnected_event Scenario.peerA;
      EvLog (watcher_log Scenario.peerA) levelDebug [("try-reconnect", EmptyString)] ] ++
    creation_events (watcher_log Scenario.peerA) Scenario.peerA (client 7) ++
    [ EvLog (watcher_log Scenario.peerA) levelDebug [("reconnect-ok", EmptyString)];
      EvLog (watcher_log Scenario.peerA) levelDebug
        [("reestablish-watch-repo", "r1"); ("remote", "origin")];
      EvRepoWatch (client 7) ctxBackground {| rw_Repo := "up/r1"; rw_Refspec := "*" |} None;
      EvRefUpdate (client 7) ctxBackground
        {| ru_RefIdentifier := {| ri_Repo := "up/r1"; ri_Ref := "main" |};
           Force := true;
           State := Some {| rs_RefBaseInfo :=
                              {| GitBase := "c0ffee"; GitBranch := "master" |};
                            History := ["op1"; "op2"] |} |} None ] /\
  never_cancelled ctxBackground = true.
Proof.
  split; [vm_compute; reflexivity|].
  split; [vm_compute; reflexivity|].
  split; [vm_compute; reflexivity|].
  split; [vm_compute; reflexivity|].
  split; [vm_compute; reflexivity|].
  split; [vm_compute; reflexivity|].
  reflexivity.
Qed.

(** ** Closing a connection does not stop its watcher *)



(** ** The retry schedule *)

Lemma Reset_remoteBackOff (start : Z) :
  Reset remoteBackOff start = remoteBackOff_after start 0.
Proof. reflexivity. Qed.

Lemma NextBackOff_remoteBackOff_after (start now : Z) (k : nat) :
  NextBackOff (remoteBackOff_after start k) now =
    if (now - start >? 1 * Minute)%Z then (Stop, remoteBackOff_after start k)
    else (500 * Millisecond * 2 ^ Z.of_nat k, remoteBackOff_after start (S k))%Z.
Proof.
  unfold NextBackOff. cbn [startTime MaxElapsedTime currentInterval remoteBackOff_after
    InitialInterval Multiplier].
  destruct (_ >? _)%Z; [done|]. unfold remoteBackOff_after. do 2 f_equal.
  rewrite Nat2Z.inj_succ, Z.pow_succ_r by lia. lia.
Qed.

Lemma interval_pos (k : nat) : (0 < 500 * Millisecond * 2 ^ Z.of_nat k)%Z.
Proof.
  assert (0 < 2 ^ Z.of_nat k)%Z by (apply Z.pow_pos_nonneg; lia).
  unfold Millisecond, Nanosecond. lia.
Qed.

Lemma sleeps_remoteBackOff_after (start : Z) (nows : list Z) (j k : nat) (d : Z) :
  sleeps (remoteBackOff_after start j) nows !! k = Some d ->
  d = (500 * Millisecond * 2 ^ Z.of_nat (j + k))%Z /\
  exists now, nows !! k = Some now /\ (now - start <= 1 * Minute)%Z.
Proof.
  revert j k. induction nows as [|now nows IH]; intros j k; simpl; [done|].
  rewrite NextBackOff_remoteBackOff_after.
  destruct (Z.gtb_spec (now - start) (1 * Minute)) as [Hgt|Hle]; simpl; [done|].
  pose proof (interval_pos j).
  destruct (Z.eqb_spec (500 * Millisecond * 2 ^ Z.of_nat j) Stop) as [Heq|_];
    [unfold Stop in Heq; lia|].
  destruct k as [|k]; simpl.
  - intros [= <-]. rewrite Nat.add_0_r. split; [done|]. by exists now.
  - intros Hk. destruct (IH (S j) k Hk) as (-> & Hnow).
    split; [|done]. do 3 f_equal. lia.
Qed.

Lemma clock_lower_bound (start : Z) (nows : list Z) (k : nat) (d : Z) :
  clock_respects_sleeps start nows ->
  sleeps (Reset remoteBackOff start) nows !! k = Some d ->
  exists now, nows !! k = Some now /\
    (start + 500 * Millisecond * (2 ^ Z.of_nat k - 1) <= now)%Z.
Proof.
  intros [Hfirst Hadv]. revert d. induction k as [|k IH]; intros d Hk.
  - destruct (sleeps_remoteBackOff_after start nows 0 0 d Hk) as (_ & now & Hnow & _).
    exists now. split; [done|]. specialize (Hfirst now Hnow). simpl. lia.
  - destruct (sleeps_remoteBackOff_after start nows 0 (S k) d Hk) as (_ & now' & Hnow' & _).
    destruct (lookup_lt_is_Some_2 (sleeps (Reset remoteBackOff start) nows) k) as [dk Hdk].
    { apply lookup_lt_Some in Hk. lia. }
    destruct (IH dk Hdk) as (now & Hnow & Hbound).
    destruct (sleeps_remoteBackOff_after start nows 0 k dk Hdk) as (-> & _).
    specialize (Hadv k now now' _ Hnow Hnow' Hdk).
    exists now'. split; [done|]. simpl in Hadv.
    rewrite Nat2Z.inj_succ, Z.pow_succ_r by lia. lia.
Qed.

(** A watcher that has ended stays ended and does nothing. *)
Lemma exited_forever (env : Env) (ls : list Label) (w w' : World) (i : nat) (wt : Watcher) :
  goroutines w !! i = Some wt ->
  w_pc wt = pcExited ->
  run env ls w = Ret tt w' ->
  goroutines w' !! i = Some wt.
Proof.
  revert w. induction ls as [|l ls IH]; intros w Hi Hpc; simpl.
  - by intros [= <-].
  - unfold mbind, M_bind. destruct (step env l w) as [[] w1|] eqn:Hs; [|done].
    apply IH; [|done].
    destruct (ev_goroutines _ _ _ (step_evolves _ _ _ _ Hs) i wt Hi)
      as (wt1 & Hi1 & Hcl1 & HE1 & Hpc1).
    destruct l as [| | | | | | |j now];
      try (rewrite Hi1; f_equal; specialize (Hpc1 (fun H => H));
           destruct wt, wt1; simpl in *; congruence).
    destruct (decide (j = i)) as [->|Hne].
    + rewrite (step_schedule _ _ _ wt) in Hs by done.
      rewrite watcher_exited in Hs by done. by injection Hs as <-.
    + rewrite Hi1. f_equal. specialize (Hpc1 Hne).
      destruct wt, wt1; simpl in *; congruence.
Qed.

(** *** The watcher follows the schedule *)

Lemma slept_app (evs1 evs2 : list Event) : slept (evs1 ++ evs2) = slept evs1 ++ slept evs2.
Proof. apply omap_app. Qed.

Lemma given_up_app (evs1 evs2 : list Event) :
  given_up (evs1 ++ evs2) = given_up evs1 ++ given_up evs2.
Proof. apply omap_app. Qed.

Lemma attempts_app (evs1 evs2 : list Event) :
  attempts (evs1 ++ evs2) = attempts evs1 ++ attempts evs2.
Proof. apply omap_app. Qed.

Lemma slept_calm (evs : list Event) : Forall calm evs -> slept evs = [].
Proof.
  induction 1 as [|ev evs Hev _ IH]; [done|]. destruct ev; try done; exact IH.
Qed.

Lemma given_up_calm (evs : list Event) : Forall calm evs -> given_up evs = [].
Proof.
  induction 1 as [|ev evs Hev _ IH]; [done|].
  destruct ev as [| log lvl kv | | | | | | |]; try exact IH. by destruct lvl.
Qed.

Lemma attempts_calm (evs : list Event) : Forall calm evs -> attempts evs = [].
Proof.
  induction 1 as [|ev evs Hev _ IH]; [done|].
  unfold attempts. cbn [omap list_omap].
  assert (Hb : begins_attempt ev = false).
  { destruct ev as [| log lvl kv | | | | | | |]; try done. by destruct lvl. }
  rewrite Hb. exact IH.
Qed.

Lemma doubling_S (k : nat) :
  doubling (S k) = doubling k ++ [(500 * Millisecond * 2 ^ Z.of_nat k)%Z].
Proof. unfold doubling. by rewrite seq_S, fmap_app. Qed.

Lemma length_doubling (k : nat) : length (doubling k) = k.
Proof. unfold doubling. by rewrite length_fmap, length_seq. Qed.

Lemma sum_doubling (k : nat) :
  foldr Z.add 0%Z (doubling k) = (500 * Millisecond * (2 ^ Z.of_nat k - 1))%Z.
Proof.
  induction k as [|k IH]; [done|].
  rewrite doubling_S, foldr_app. simpl.
  assert (Hadd : forall a l, foldr Z.add a l = (a + foldr Z.add 0 l)%Z).
  { intros a l. induction l as [|x l IHl]; simpl; lia. }
  rewrite Hadd, IH, Nat2Z.inj_succ, Z.pow_succ_r by lia. lia.
Qed.

Lemma evolves_lookup (S : nat -> Prop) (w w' : World) (i : nat) (wt : Watcher) :
  evolves S w w' -> ~ S i -> goroutines w !! i = Some wt -> goroutines w' !! i = Some wt.
Proof.
  intros Hev HS Hi.
  destruct (ev_goroutines _ _ _ Hev i wt Hi) as (wt' & Hi' & Hcl & HE & Hpc).
  rewrite Hi'. f_equal. specialize (Hpc HS). destruct wt, wt'; simpl in *; congruence.
Qed.

(** The first half of tryReconnect begins an attempt and does nothing else
    that counts. *)
Lemma tryReconnect_connect_calm (w w1 : World) (ctx : Context) (log : Logger) (E : string)
    (r : UpstreamClient + error) :
  tryReconnect_connect ctx log E w = Ret r w1 ->
  exists evs, trace w1 = trace w ++ try_reconnect_event log :: evs /\ Forall calm evs.
Proof.
  unfold tryReconnect_connect. unfold mbind, M_bind, Log, mret, M_ret.
  rewrite emit_eq, getOrCreateClient_eq.
  change (newClient (remotes (server (with_trace w ?evs)))) with
    (newClient (remotes (server w))).
  change (lookup_conn (with_trace w ?evs) ?E) with (lookup_conn w E).
  destruct (newClient _) as [f|]; [|done].
  destruct (lookup_conn w E).
  - rewrite emit_eq. intros [= _ <-]. simpl. rewrite <- app_assoc.
    eexists. split; [done|]. by repeat constructor.
  - destruct (f _ _ _).
    + rewrite emit_eq. intros [= _ <-]. simpl. rewrite <- !app_assoc.
      eexists. split; [done|]. by repeat constructor.
    + intros [= _ <-]. simpl. rewrite <- app_assoc.
      eexists. split; [done|]. by repeat constructor.
Qed.

(** Re-establishment neither sleeps, nor logs an error, nor begins an
    attempt. *)
Lemma reestablish_calm (env : Env) (cl : UpstreamClient) (ctx : Context)
    (log : Logger) (endpoint : string) :
  appends calm (reestablish env cl ctx log endpoint).
Proof.
  unfold reestablish.
  apply appends_bind; [apply appends_gets|]. intros s.
  apply appends_bind; [apply appends_range|]. intros repos_.
  apply appends_for_range. intros repoName repo. unfold reestablishRepo.
  apply appends_bind; [apply appends_range|]. intros remotes_.
  apply appends_for_range. intros remoteName remote.
  destruct (decide _); [|apply appends_ret].
  apply appends_bind; [by apply appends_emit|]. intros _.
  apply appends_bind.
  { unfold call_RepoWatch, now_. apply appends_bind; [apply appends_gets|]. intros t.
    apply appends_bind; [by apply appends_emit | intros _; apply appends_ret]. }
  intros [err|]; [apply appends_ret|].
  apply appends_bind; [apply appends_range|]. intros refs_.
  apply appends_for_range. intros refName refConfig. simpl.
  destruct (refdb repo !! refName) as [o|]; [|apply appends_ret].
  destruct (_ && _); [|apply appends_ret].
  unfold call_RefUpdate, now_. apply appends_bind; [apply appends_gets|]. intros t.
  apply appends_bind; [by apply appends_emit | intros _; apply appends_ret].
Qed.

(** A step that is not the action of a goroutine neither sleeps, nor logs an
    error, nor begins an attempt. *)
Lemma step_unscheduled_calm (env : Env) (l : Label) (w w' : World) :
  (forall j, ~ scheduled l j) ->
  step env l w = Ret tt w' ->
  exists evs, trace w' = trace w ++ evs /\ Forall calm evs.
Proof.
  intros Hl. destruct l as [f|E|ctx log E|E| |r|cl|i now]; simpl.
  - unfold ConfigureRemoteClientFunc. unfold mbind, M_bind, gets.
    destruct (newClient _); [done|]. intros [= <-]. exists []. by rewrite app_nil_r.
  - unfold getClient, mbind, M_bind, gets. destruct (conn_lookup _ _);
      intros [= <-]; exists []; by rewrite app_nil_r.
  - unfold mbind, M_bind. rewrite getOrCreateClient_eq.
    destruct (newClient _) as [f|]; [|done].
    destruct (lookup_conn w E).
    + intros [= <-]. exists []. by rewrite app_nil_r.
    + destruct (f _ _ _); intros [= <-]; simpl; eexists; split; try done;
        by repeat constructor.
  - unfold closeAndRemoveClient. unfold mbind, M_bind, gets.
    destruct (conn_lookup _ _) as [cl|]; [|done].
    intros [= <-]. simpl. eexists. split; [done|]. by repeat constructor.
  - intros [= <-]. exists []. by rewrite app_nil_r.
  - intros [= <-]. exists []. by rewrite app_nil_r.
  - intros [= <-]. exists []. by rewrite app_nil_r.
  - by destruct (Hl i).
Qed.

Lemma retry_state_calm (start : Z) (tr0 : list Event) (i : nat) (w w' : World) (k : nat)
    (evs1 : list Event) :
  retry_state start tr0 i w k ->
  trace w' = trace w ++ evs1 -> Forall calm evs1 ->
  (forall wt, goroutines w !! i = Some wt -> goroutines w' !! i = Some wt) ->
  retry_state start tr0 i w' k.
Proof.
  intros (evs & wt & Htr & Hsl & Hi & Hpr & Hgu & Hpc) Htr1 Hcalm Hgs.
  exists (evs ++ evs1), wt.
  rewrite slept_app, given_up_app, attempts_app, (slept_calm evs1), (given_up_calm evs1),
    (attempts_calm evs1), !app_nil_r by done.
  split; [by rewrite Htr1, Htr, app_assoc|]. split; [done|]. split; [by apply Hgs|].
  done.
Qed.

(** The world after a failed attempt, by the budget. *)
Lemma after_failure_remoteBackOff (w : World) (i : nat) (wt : Watcher) (log : Logger)
    (start : Z) (k : nat) (now : Z) (err : error) :
  after_failure w i wt log (remoteBackOff_after start k) now err =
    if (now - start >? 1 * Minute)%Z then
      at_pc (with_trace w
               [EvLog log levelError [("reconnect-failed-after-retries", Error_ err)]])
            i wt pcExited
    else
      at_pc (with_trace w
               [EvLog log levelDebug [("retry-reconnect-after-error", Error_ err)];
                EvSleep (500 * Millisecond * 2 ^ Z.of_nat k)])
            i wt (pcTryReconnect (remoteBackOff_after start (S k))).
Proof.
  unfold after_failure. rewrite NextBackOff_remoteBackOff_after.
  destruct (_ >? _)%Z; [done|]. cbn [fst snd].
  pose proof (interval_pos k).
  by destruct (Z.eqb_spec (500 * Millisecond * 2 ^ Z.of_nat k) Stop) as [Heq|_];
    [unfold Stop in Heq; lia|].
Qed.

(** After a failed attempt, the [S k]-th begun: the watcher has ended, or it
    has slept once more, within the budget. *)
Lemma retry_state_after_failure (start : Z) (tr0 : list Event) (i : nat) (w : World)
    (wt0 wt : Watcher) (log : Logger) (k : nat) (now : Z) (err : error) (evs : list Event) :
  trace w = tr0 ++ evs -> slept evs = doubling k -> given_up evs = [] ->
  length (attempts evs) = S k ->
  goroutines w !! i = Some wt0 ->
  retry_state start tr0 i (after_failure w i wt log (remoteBackOff_after start k) now err) k \/
  ((now - start <= 1 * Minute)%Z /\
   retry_state start tr0 i (after_failure w i wt log (remoteBackOff_after start k) now err)
     (S k)).
Proof.
  intros Htr Hsl Hgu Hn Hi. rewrite after_failure_remoteBackOff.
  destruct (Z.gtb_spec (now - start) (1 * Minute)) as [Hgt|Hle].
  - left. eexists _, _. split; [simpl; by rewrite Htr, <- app_assoc|].
    rewrite slept_app, given_up_app, attempts_app, Hsl, Hgu. simpl.
    rewrite !app_nil_r.
    split; [done|]. split; [by eapply at_pc_lookup|].
    split; [done|]. split; [lia|]. by left.
  - right. split; [done|].
    eexists _, _. split; [simpl; by rewrite Htr, <- app_assoc|].
    rewrite slept_app, given_up_app, attempts_app, Hsl, Hgu. simpl.
    rewrite !app_nil_r.
    split; [by rewrite doubling_S|]. split; [by eapply at_pc_lookup|].
    split; [done|]. split; [lia|]. by right.
Qed.

(** One step of a run in which, of the goroutines, only [i] acts. *)
Lemma retry_step (env : Env) (start : Z) (tr0 : list Event) (i : nat) (l : Label)
    (w w' : World) (k : nat) :
  retry_state start tr0 i w k ->
  (forall j, scheduled l j -> j = i) ->
  step env l w = Ret tt w' ->
  retry_state start tr0 i w' k \/
  (exists now, l = schedule i now /\ (now - start <= 1 * Minute)%Z /\
               retry_state start tr0 i w' (S k)).
Proof.
  intros Hst Honly Hs.
  assert (Hother : (forall j, ~ scheduled l j) -> retry_state start tr0 i w' k).
  { intros Hnot.
    destruct (step_unscheduled_calm env l w w' Hnot Hs) as (evs1 & Htr1 & Hcalm).
    apply (retry_state_calm start tr0 i w w' k evs1); try done.
    intros wt Hi. by apply (evolves_lookup _ _ _ _ _ (step_evolves _ _ _ _ Hs) (Hnot i)). }
  destruct l as [| | | | | | |j now]; try (left; apply Hother; by intros j Hj).
  clear Hother.
  assert (j = i) as -> by (by apply Honly).
  destruct Hst as (evs & wt & Htr & Hsl & Hi & Hpr & Hgu & Hpc).
  rewrite (step_schedule _ _ _ wt) in Hs by done.
  destruct (w_pc wt) as [| | |b|b cl|] eqn:Hwpc; try done; simpl in Hpr.
  - destruct Hpr as [-> Hn]. destruct Hpc as [|Hnone]; [done|].
    rewrite (watcher_try _ _ _ _ _ (remoteBackOff_after start k)) in Hs by done.
    destruct (tryReconnect_connect _ _ _ w) as [[cl|err] w1|] eqn:Ht; [| |done].
    + injection Hs as <-. left.
      destruct (tryReconnect_connect_calm _ _ _ _ _ _ Ht) as (evs1 & Htr1 & Hcalm).
      pose proof (evolves_lookup (fun _ => False) _ _ i wt
                    (tryReconnect_connect_evolves _ _ _ _ _ _ _ Ht) (fun H => H) Hi) as Hi1.
      eexists (evs ++ try_reconnect_event _ :: evs1), _.
      split; [simpl; by rewrite Htr1, Htr, app_assoc|].
      rewrite slept_app, given_up_app, attempts_app. simpl.
      fold (slept evs1). fold (given_up evs1). fold (attempts evs1).
      rewrite (slept_calm evs1), (given_up_calm evs1), (attempts_calm evs1), !app_nil_r
        by done.
      split; [done|]. split; [by eapply at_pc_lookup|].
      split; [simpl; split; [done|]; rewrite length_app; simpl; lia|].
      split; [done|]. by right.
    + injection Hs as <-.
      destruct (tryReconnect_connect_calm _ _ _ _ _ _ Ht) as (evs1 & Htr1 & Hcalm).
      pose proof (evolves_lookup (fun _ => False) _ _ i wt
                    (tryReconnect_connect_evolves _ _ _ _ _ _ _ Ht) (fun H => H) Hi) as Hi1.
      destruct (retry_state_after_failure start tr0 i w1 wt wt
                  (watcher_log (w_endpoint wt)) k now err
                  (evs ++ try_reconnect_event (watcher_log (w_endpoint wt)) :: evs1))
        as [H|[Hle H]]; try done.
      * by rewrite Htr1, Htr, app_assoc.
      * rewrite slept_app. simpl. fold (slept evs1).
        by rewrite Hsl, (slept_calm evs1), app_nil_r.
      * rewrite given_up_app. simpl. fold (given_up evs1).
        by rewrite Hnone, (given_up_calm evs1).
      * rewrite attempts_app. simpl. fold (attempts evs1).
        rewrite (attempts_calm evs1), length_app by done. simpl. lia.
      * by left.
      * right. by exists now.
  - destruct Hpr as [-> Hn]. destruct Hpc as [|Hnone]; [done|].
    rewrite (watcher_reestablish _ _ _ _ _ (remoteBackOff_after start k) cl) in Hs by done.
    destruct (reestablish_calm env cl ctxBackground (watcher_log (w_endpoint wt))
                (w_endpoint wt) w) as (r & evs1 & Hr & Hcalm).
    rewrite Hr in Hs. destruct r as [err|].
    + injection Hs as <-.
      destruct (retry_state_after_failure start tr0 i (with_trace w evs1) wt wt
                  (watcher_log (w_endpoint wt)) k now err (evs ++ evs1))
        as [H|[Hle H]]; try done.
      * simpl. by rewrite Htr, app_assoc.
      * by rewrite slept_app, Hsl, (slept_calm evs1), app_nil_r.
      * by rewrite given_up_app, Hnone, (given_up_calm evs1).
      * by rewrite attempts_app, (attempts_calm evs1), app_nil_r.
      * by left.
      * right. by exists now.
    + injection Hs as <-. left.
      eexists (evs ++ evs1), _. split; [simpl; by rewrite Htr, app_assoc|].
      rewrite slept_app, given_up_app, attempts_app, (slept_calm evs1),
        (given_up_calm evs1), (attempts_calm evs1), !app_nil_r by done.
      split; [done|]. split; [by eapply (at_pc_lookup (with_trace w evs1))|].
      split; [done|]. split; [done|]. by left.
  - rewrite watcher_exited in Hs by done. injection Hs as <-. left.
    exists evs, wt. rewrite Hwpc. by repeat split.
Qed.

(** A whole run. *)
Lemma retry_run (env : Env) (start : Z) (tr0 : list Event) (i : nat) (ls : list Label)
    (w w' : World) (k : nat) :
  retry_state start tr0 i w k ->
  only_watcher i ls ->
  run env ls w = Ret tt w' ->
  exists k', retry_state start tr0 i w' k' /\
    (clock_keeps_up env start (length tr0) ls w = true -> k <= 7 -> k' <= 7).
Proof.
  revert w k. induction ls as [|l ls IH]; intros w k Hst Honly; simpl.
  - intros [= <-]. by exists k.
  - unfold mbind, M_bind. destruct (step env l w) as [[] w1|] eqn:Hs; [|done].
    intros Hrun. apply Forall_cons in Honly as [Hl Honly].
    destruct (retry_step env start tr0 i l w w1 k Hst Hl Hs) as [H1|(now & -> & Hle & H1)].
    + destruct (IH w1 k H1 Honly Hrun) as (k' & Hst' & Hb). exists k'. split; [done|].
      intros Hclock Hk. apply Hb; [|done]. by apply andb_prop in Hclock as [_ Hclock].
    + destruct (IH w1 (S k) H1 Honly Hrun) as (k' & Hst' & Hb). exists k'. split; [done|].
      intros Hclock Hk. apply andb_prop in Hclock as [Hnow Hclock].
      apply Hb; [done|]. apply Z.leb_le in Hnow.
      destruct Hst as (evs & wt & Htr & Hsl & _).
      rewrite Htr, drop_app_length, Hsl, sum_doubling in Hnow.
      destruct (decide (k < 7)) as [|Hge]; [lia|].
      assert (2 ^ 7 <= 2 ^ Z.of_nat k)%Z by (apply Z.pow_le_mono_r; lia).
      unfold Minute, Second, Millisecond, Nanosecond in *. lia.
Qed.

(** C6. [remoteBackOff] has initial interval 500 ms, multiplier 2 and a
    budget of one minute. While attempts fail the retry loop sleeps 500 ms
    times 2 to the k after the k-th failure, so the intervals never
    decrease; the schedule answers [Stop] once the time elapsed since the
    loop started exceeds the budget, and with a clock that advances by the
    intervals slept that happens after at most seven sleeps.

    The watcher runs this schedule around the whole of tryReconnect. It
    enters the loop with the schedule reset at the clock reading of that
    action. An attempt that fails, in the dial or in a RepoWatch or
    RefUpdate call of re-establishment, is followed within the budget by the
    debug log record, a sleep of the current interval and the next attempt
    with the interval doubled; once the budget is used up it is followed by
    the error log record, no sleep, and the end of the watcher. In every run
    in which the watcher acts, whatever other threads do in between, the
    intervals slept are 500 ms, 1 s, 2 s, ... in this order, the watcher is
    in the loop with the schedule advanced once per sleep or has ended,
    every attempt begun but the one in progress or the last has been
    followed by a sleep, an error is logged at most once and only by a
    watcher that has ended, and with a clock that keeps up with the sleeps
    there are at most seven sleeps. An ended watcher stays as it is whatever happens, and scheduling
    it does nothing. *)
Theorem remoteBackOff_schedule (env : Env) :
  (InitialInterval remoteBackOff = 500000000 /\
   Multiplier remoteBackOff = 2 /\
   MaxElapsedTime remoteBackOff = 60000000000)%Z /\
  (forall start nows k d,
     sleeps (Reset remoteBackOff start) nows !! k = Some d ->
     d = (500 * Millisecond * 2 ^ Z.of_nat k)%Z) /\
  (forall start nows j k dj dk,
     j <= k ->
     sleeps (Reset remoteBackOff start) nows !! j = Some dj ->
     sleeps (Reset remoteBackOff start) nows !! k = Some dk ->
     (dj <= dk)%Z) /\
  (forall b now,
     (now - startTime b > MaxElapsedTime b)%Z -> NextBackOff b now = (Stop, b)) /\
  (forall start nows k now,
     nows !! k = Some now -> (now - start > 1 * Minute)%Z ->
     length (sleeps (Reset remoteBackOff start) nows) <= k) /\
  (forall start nows,
     clock_respects_sleeps start nows ->
     length (sleeps (Reset remoteBackOff start) nows) <= 7) /\
  (forall w i wt b now f err,
     goroutines w !! i = Some wt ->
     w_pc wt = pcTryReconnect b ->
     newClient (remotes (server w)) = Some f ->
     lookup_conn w (w_endpoint wt) = None ->
     f (S (length (trace w))) ctxServerBg (w_endpoint wt) = inr err ->
     (now - startTime b > MaxElapsedTime b)%Z ->
     step env (schedule i now) w =
       Ret tt (at_pc (with_trace w (last_attempt_events (w_endpoint wt) err)) i wt pcExited)) /\
  (forall w i wt ls w',
     goroutines w !! i = Some wt -> w_pc wt = pcExited ->
     run env ls w = Ret tt w' -> goroutines w' !! i = Some wt) /\
  (forall w i wt now,
     goroutines w !! i = Some wt -> w_pc wt = pcExited ->
     step env (schedule i now) w = Ret tt w) /\
  (forall w i wt log b now err,
     (now - startTime b > MaxElapsedTime b)%Z ->
     retry_failed i wt log b now err w =
       Ret tt (at_pc (with_trace w
                        [EvLog log levelError
                           [("reconnect-failed-after-retries", Error_ err)]])
                 i wt pcExited)) /\
  (forall w i wt now,
     goroutines w !! i = Some wt -> w_pc wt = pcRemoveEntry ->
     exists w',
       step env (schedule i now) w = Ret tt w' /\
       goroutines w' !! i =
         Some {| w_cl := w_cl wt; w_endpoint := w_endpoint wt;
                 w_pc := pcTryReconnect (Reset remoteBackOff now) |}) /\
  (forall w i wt b now err w1,
     goroutines w !! i = Some wt ->
     in_retry_loop (w_pc wt) b ->
     attempt_fails env w wt err w1 ->
     (now - startTime b > MaxElapsedTime b)%Z ->
     step env (schedule i now) w =
       Ret tt (at_pc (with_trace w1
                        [EvLog (watcher_log (w_endpoint wt)) levelError
                           [("reconnect-failed-after-retries", Error_ err)]])
                 i wt pcExited)) /\
  (forall w i wt start k now err w1,
     goroutines w !! i = Some wt ->
     in_retry_loop (w_pc wt) (remoteBackOff_after start k) ->
     attempt_fails env w wt err w1 ->
     (now - start <= 1 * Minute)%Z ->
     step env (schedule i now) w =
       Ret tt (at_pc (with_trace w1
                        [EvLog (watcher_log (w_endpoint wt)) levelDebug
                           [("retry-reconnect-after-error", Error_ err)];
                         EvSleep (500 * Millisecond * 2 ^ Z.of_nat k)])
                 i wt (pcTryReconnect (remoteBackOff_after start (S k))))) /\
  (forall w i wt start ls w',
     goroutines w !! i = Some wt ->
     w_pc wt = pcTryReconnect (Reset remoteBackOff start) ->
     only_watcher i ls ->
     run env ls w = Ret tt w' ->
     exists evs wt',
       trace w' = trace w ++ evs /\
       goroutines w' !! i = Some wt' /\
       slept evs = doubling (length (slept evs)) /\
       (w_pc wt' = pcExited \/
        in_retry_loop (w_pc wt') (remoteBackOff_after start (length (slept evs)))) /\
       length (attempts evs) =
         length (slept evs) + (match w_pc wt' with pcTryReconnect _ => 0 | _ => 1 end) /\
       length (given_up evs) <= 1 /\
       (given_up evs <> [] -> w_pc wt' = pcExited) /\
       (clock_keeps_up env start (length (trace w)) ls w = true ->
        length (slept evs) <= 7)).
Proof.
  split; [done|].
  split; [|split; [|split; [|split; [|split; [|split; [|split; [|split; [|split; [|split;
    [|split; [|split]]]]]]]]]]].
  - intros start nows k d Hk. rewrite Reset_remoteBackOff in Hk.
    by destruct (sleeps_remoteBackOff_after _ _ _ _ _ Hk) as (-> & _).
  - intros start nows j k dj dk Hjk Hj Hk. rewrite Reset_remoteBackOff in Hj, Hk.
    destruct (sleeps_remoteBackOff_after _ _ _ _ _ Hj) as (-> & _).
    destruct (sleeps_remoteBackOff_after _ _ _ _ _ Hk) as (-> & _).
    simpl. apply Z.mul_le_mono_nonneg_l; [unfold Millisecond, Nanosecond; lia|].
    apply Z.pow_le_mono_r; lia.
  - intros b now Hgt. unfold NextBackOff.
    destruct (Z.gtb_spec (now - startTime b) (MaxElapsedTime b)); [done | lia].
  - intros start nows k now Hnow Hgt.
    destruct (decide (length (sleeps (Reset remoteBackOff start) nows) <= k)) as [|Hlt];
      [done|].
    destruct (lookup_lt_is_Some_2 (sleeps (Reset remoteBackOff start) nows) k) as [d Hd];
      [lia|].
    rewrite Reset_remoteBackOff in Hd.
    destruct (sleeps_remoteBackOff_after _ _ _ _ _ Hd) as (_ & now' & Hnow' & Hle).
    rewrite Hnow in Hnow'. injection Hnow' as <-. lia.
  - intros start nows Hclock.
    destruct (decide (length (sleeps (Reset remoteBackOff start) nows) <= 7)) as [|Hlt];
      [done|].
    destruct (lookup_lt_is_Some_2 (sleeps (Reset remoteBackOff start) nows) 7) as [d Hd];
      [lia|].
    destruct (clock_lower_bound _ _ _ _ Hclock Hd) as (now & Hnow & Hbound).
    rewrite Reset_remoteBackOff in Hd.
    destruct (sleeps_remoteBackOff_after _ _ _ _ _ Hd) as (_ & now' & Hnow' & Hle).
    rewrite Hnow in Hnow'. injection Hnow' as <-.
    change (2 ^ Z.of_nat 7)%Z with 128%Z in Hbound.
    unfold Minute, Second, Millisecond, Nanosecond in *. lia.
  - intros w i wt b now f err Hi Hpc Hf Hl Herr Hgt.
    rewrite (step_schedule _ _ _ wt) by done.
    rewrite (watcher_try _ _ _ _ _ b) by done.
    unfold tryReconnect_connect. unfold mbind, M_bind, Log. rewrite emit_eq.
    rewrite getOrCreateClient_eq.
    change (newClient (remotes (server (with_trace w ?evs)))) with
      (newClient (remotes (server w))).
    change (lookup_conn (with_trace w ?evs) ?E) with (lookup_conn w E).
    rewrite Hf, Hl. simpl length. rewrite length_app, Nat.add_1_r. simpl length.
    rewrite Herr. unfold mret, M_ret. unfold after_failure.
    assert (HStop : NextBackOff b now = (Stop, b)).
    { unfold NextBackOff.
      destruct (Z.gtb_spec (now - startTime b) (MaxElapsedTime b)); [done | lia]. }
    rewrite HStop. simpl. rewrite !with_trace_app. reflexivity.
  - intros w i wt ls w' Hi Hpc Hrun. by eapply exited_forever.
  - intros w i wt now Hi Hpc. rewrite (step_schedule _ _ _ wt) by done.
    by apply watcher_exited.
  - intros w i wt log b now err Hgt. rewrite retry_failed_eq. unfold after_failure.
    assert (HStop : NextBackOff b now = (Stop, b)).
    { unfold NextBackOff.
      destruct (Z.gtb_spec (now - startTime b) (MaxElapsedTime b)); [done | lia]. }
    by rewrite HStop.
  - intros w i wt now Hi Hpc. eexists. rewrite (step_schedule _ _ _ wt) by done.
    rewrite watcher_remove by done. split; [done|].
    by apply (at_pc_lookup _ i wt).
  - intros w i wt b now err w1 Hi Hloop Hfail Hgt.
    rewrite (step_schedule _ _ _ wt) by done.
    assert (HStop : NextBackOff b now = (Stop, b)).
    { unfold NextBackOff.
      destruct (Z.gtb_spec (now - startTime b) (MaxElapsedTime b)); [done | lia]. }
    unfold attempt_fails in Hfail.
    destruct (w_pc wt) as [| | |b'|b' cl|] eqn:Hpc; try done; simpl in Hloop; subst b'.
    + rewrite (watcher_try _ _ _ _ _ b), Hfail by done.
      unfold after_failure. by rewrite HStop.
    + rewrite (watcher_reestablish _ _ _ _ _ b cl), Hfail by done.
      unfold after_failure. by rewrite HStop.
  - intros w i wt start k now err w1 Hi Hloop Hfail Hle.
    rewrite (step_schedule _ _ _ wt) by done.
    unfold attempt_fails in Hfail.
    assert (Hnot : (now - start >? 1 * Minute)%Z = false).
    { destruct (Z.gtb_spec (now - start) (1 * Minute)); [lia | done]. }
    destruct (w_pc wt) as [| | |b'|b' cl|] eqn:Hpc; try done; simpl in Hloop; subst b'.
    + rewrite (watcher_try _ _ _ _ _ (remoteBackOff_after start k)), Hfail by done.
      by rewrite after_failure_remoteBackOff, Hnot.
    + rewrite (watcher_reestablish _ _ _ _ _ (remoteBackOff_after start k) cl), Hfail by done.
      by rewrite after_failure_remoteBackOff, Hnot.
  - intros w i wt start ls w' Hi Hpc Honly Hrun.
    assert (Hst : retry_state start (trace w) i w 0).
    { exists [], wt. rewrite app_nil_r, Hpc. repeat split; try done; [simpl; lia|].
      by right. }
    destruct (retry_run env start (trace w) i ls w w' 0 Hst Honly Hrun)
      as (k' & (evs & wt' & Htr & Hsl & Hi' & Hpr & Hgu & Hpc') & Hb).
    exists evs, wt'. rewrite Hsl, length_doubling.
    split; [done|]. split; [done|]. split; [done|].
    split; [|split; [|split; [done|split]]].
    + destruct (w_pc wt') as [| | |b|b cl|]; try done; simpl in Hpr.
      * right. by destruct Hpr.
      * right. by destruct Hpr.
      * by left.
    + destruct (w_pc wt') as [| | |b|b cl|]; try done; simpl in Hpr.
      * destruct Hpr as [_ ->]. lia.
      * destruct Hpr as [_ ->]. lia.
      * rewrite Hpr. lia.
    + intros Hne. by destruct Hpc'.
    + intros Hclock. apply Hb; [done | lia].
Qed.

Lemma remoteBackOff_schedule_witness :
  (forall d, sleeps (Reset remoteBackOff 0) Scenario.exact_clock !! 3%nat = Some d ->
             d = (4 * Second)%Z) /\
  length (sleeps (Reset remoteBackOff 0) Scenario.exact_clock) <= 7 /\
  NextBackOff (Reset remoteBackOff 0) (61 * Second) = (Stop, Reset remoteBackOff 0) /\
  step Scenario.env_ok (schedule 0 (61 * Second)) Scenario.retrying =
    Ret tt (at_pc (with_trace Scenario.retrying
                     (last_attempt_events Scenario.peerA (errorString "connection refused")))
              0 {| w_cl := client 0; w_endpoint := Scenario.peerA;
                   w_pc := pcTryReconnect (Reset remoteBackOff 0) |} pcExited) /\
  step Scenario.env_watch_fails (schedule 0 0) Scenario.redialled =
    Ret tt (at_pc (with_trace
                     (with_trace Scenario.redialled
                        [EvLog (watcher_log Scenario.peerA) levelDebug
                           [("reestablish-watch-repo", "r1"); ("remote", "origin")];
                         EvRepoWatch (client 7) ctxBackground
                           {| rw_Repo := "up/r1"; rw_Refspec := "*" |}
                           (Some (errorString "watch failed"))])
                     [EvLog (watcher_log Scenario.peerA) levelDebug
                        [("retry-reconnect-after-error", "watch failed")];
                      EvSleep (500 * Millisecond)])
              0 {| w_cl := client 0; w_endpoint := Scenario.peerA;
                   w_pc := pcReestablish (Reset remoteBackOff 0) (client 7) |}
              (pcTryReconnect (remoteBackOff_after 0 1))) /\
  (exists evs,
     trace Scenario.watch_refused = trace Scenario.removed ++ evs /\
     slept evs = [500 * Millisecond; 1 * Second]%Z /\
     length (slept evs) <= 7 /\
     length (attempts evs) = 3 /\
     length (given_up evs) = 1 /\
     (w_pc <$> goroutines Scenario.watch_refused !! 0%nat) = Some pcExited).
Proof.
  pose proof (remoteBackOff_schedule Scenario.env_ok)
    as (_ & Hkth & _ & Hstop & _ & Hbudget & Hlast & _).
  pose proof (remoteBackOff_schedule Scenario.env_watch_fails)
    as (_ & _ & _ & _ & _ & _ & _ & _ & _ & _ & _ & _ & Hretry & Hloop).
  split; [|split; [|split; [|split; [|split]]]].
  - intros d Hd. rewrite (Hkth 0%Z Scenario.exact_clock 3%nat d Hd). reflexivity.
  - apply Hbudget. split.
    + intros now [= <-]. done.
    + intros k now now' d Hk Hk' Hd.
      pose proof (lookup_lt_Some _ _ _ Hk') as Hlt. change (S k < 9) in Hlt.
      do 8 (destruct k as [|k]; [vm_compute in Hk, Hk', Hd; simplify_eq; done|]).
      lia.
  - apply Hstop. done.
  - apply (Hlast Scenario.retrying 0%nat
             {| w_cl := client 0; w_endpoint := Scenario.peerA;
                w_pc := pcTryReconnect (Reset remoteBackOff 0) |}
             (Reset remoteBackOff 0) (61 * Second)%Z Scenario.dial_once
             (errorString "connection refused")); try reflexivity.
  - apply (Hretry Scenario.redialled 0%nat
             {| w_cl := client 0; w_endpoint := Scenario.peerA;
                w_pc := pcReestablish (Reset remoteBackOff 0) (client 7) |}
             0%Z 0%nat 0%Z (errorString "watch failed")).
    + vm_compute. reflexivity.
    + reflexivity.
    + vm_compute. reflexivity.
    + vm_compute. discriminate.
  - destruct (Hloop Scenario.removed 0%nat
                {| w_cl := client 0; w_endpoint := Scenario.peerA;
                   w_pc := pcTryReconnect (Reset remoteBackOff 0) |}
                0%Z Scenario.refused_schedule Scenario.watch_refused)
      as (evs & wt' & Htr & Hi' & _ & _ & _ & _ & Hex & Hclock).
    + vm_compute. reflexivity.
    + reflexivity.
    + unfold only_watcher, Scenario.refused_schedule.
      repeat (constructor; [by intros j <-|]). constructor.
    + vm_compute. reflexivity.
    + assert (Hevs : evs = drop (length (trace Scenario.removed))
                             (trace Scenario.watch_refused)).
      { rewrite Htr, drop_app_length. reflexivity. }
      exists evs. split; [exact Htr|].
      split; [rewrite Hevs; vm_compute; reflexivity|].
      split; [apply Hclock; vm_compute; reflexivity|].
      split; [rewrite Hevs; vm_compute; reflexivity|].
      split; [rewrite Hevs; vm_compute; reflexivity|].
      rewrite Hi'. simpl. f_equal. apply Hex. rewrite Hevs. vm_compute. discriminate.
Defined.

(** ** Re-establishment *)

Lemma call_of_None_error (ev : Event) : call_of ev = None -> call_error ev = None.
Proof. by destruct ev. Qed.

Lemma omap_call_of_silent (evs : list Event) :
  Forall (fun ev => call_of ev = None) evs -> omap call_of evs = [].
Proof.
  induction 1 as [|ev evs Hev _ IH]; [done|]. simpl. by rewrite Hev.
Qed.

Lemma issues_ret : issues [] (mret None).
Proof.
  intros w. exists None, []. rewrite with_trace_nil. repeat split; try done.
  constructor.
Qed.

Lemma issues_perm (e e' : list Call) (m : M (option error)) :
  e ≡ₚ e' -> issues e m -> issues e' m.
Proof.
  intros He Hm w. destruct (Hm w) as (r & evs & Hrun & Hsub & Hall & Hstop).
  exists r, evs. repeat split; try done.
  - by rewrite <- He.
  - intros Hr. by rewrite <- He, Hall.
Qed.

Lemma issues_seq (e1 e2 : list Call) (m1 m2 : M (option error)) :
  issues e1 m1 -> issues e2 m2 ->
  issues (e1 ++ e2)
    (r ← m1; match r with Some err => mret (Some err) | None => m2 end).
Proof.
  intros H1 H2 w. destruct (H1 w) as (r1 & evs1 & Hrun1 & Hsub1 & Hall1 & Hstop1).
  unfold mbind, M_bind. rewrite Hrun1. destruct r1 as [err|].
  - exists (Some err), evs1. repeat split; try done.
    by apply submseteq_inserts_r.
  - destruct (H2 (with_trace w evs1)) as (r2 & evs2 & Hrun2 & Hsub2 & Hall2 & Hstop2).
    exists r2, (evs1 ++ evs2). rewrite Hrun2, with_trace_app, omap_app.
    repeat split.
    + rewrite <- (Hall1 eq_refl). by apply submseteq_skips_l.
    + intros Hr2. by rewrite (Hall1 eq_refl), (Hall2 Hr2).
    + destruct r2 as [err|]; simpl in *.
      * destruct Hstop2 as (evs0 & ev & -> & Hok & Herr).
        exists (evs1 ++ evs0), ev. rewrite app_assoc. repeat split; try done.
        by apply Forall_app.
      * by apply Forall_app.
Qed.

Lemma issues_yields {A} (Q : A -> Prop) (e : list Call) (m0 : M A)
    (k : A -> M (option error)) :
  yields Q m0 -> (forall a, Q a -> issues e (k a)) -> issues e (m0 ≫= k).
Proof.
  intros H0 Hk w. destruct (H0 w) as (a & evs0 & Hrun0 & Hsilent & HQ).
  destruct (Hk a HQ (with_trace w evs0)) as (r & evs & Hrun & Hsub & Hall & Hstop).
  exists r, (evs0 ++ evs). unfold mbind, M_bind.
  rewrite Hrun0, Hrun, with_trace_app, omap_app, omap_call_of_silent by done.
  repeat split; try done.
  assert (Hok0 : Forall (fun ev => call_error ev = None) evs0).
  { eapply Forall_impl; [done | apply call_of_None_error]. }
  destruct r as [err|]; simpl in *.
  - destruct Hstop as (evs1 & ev & -> & Hok & Herr).
    exists (evs0 ++ evs1), ev. rewrite app_assoc. repeat split; try done.
    by apply Forall_app.
  - by apply Forall_app.
Qed.

Lemma issues_for_range {V} (F : string * V -> list Call) (l : list (string * V))
    (body : string -> V -> M (option error)) :
  (forall k v, issues (F (k, v)) (body k v)) -> issues (l ≫= F) (for_range l body).
Proof.
  intros Hbody. induction l as [|[k v] l IH].
  - apply issues_ret.
  - rewrite bind_cons. cbn [for_range]. by apply issues_seq.
Qed.

Lemma yields_range {V} (env : Env) (m : gmap string V) :
  range_ok env -> yields (fun l => l ≡ₚ map_to_list m) (range env m).
Proof.
  intros Hrange w. exists (env_range env V (length (trace w)) m), [].
  rewrite with_trace_nil. repeat split; [constructor | apply Hrange].
Qed.

Lemma yields_Log (log : Logger) (lvl : Level) (keyvals : list (string * string)) :
  yields (fun _ => True) (Log log lvl keyvals).
Proof.
  intros w. exists tt, [EvLog log lvl keyvals]. repeat split. by repeat constructor.
Qed.

Lemma issues_call_RepoWatch (env : Env) (cl : UpstreamClient) (ctx : Context)
    (p : RepoWatchParams) :
  issues [CallWatch p] (call_RepoWatch env cl ctx p).
Proof.
  intros w. set (res := env_RepoWatch env (length (trace w)) cl ctx p).
  exists res, [EvRepoWatch cl ctx p res]. repeat split; try done.
  destruct res as [err|] eqn:Hres; simpl.
  - exists [], (EvRepoWatch cl ctx p (Some err)). split; [done|]. split; [constructor|done].
  - by repeat constructor.
Qed.

Lemma issues_call_RefUpdate (env : Env) (cl : UpstreamClient) (ctx : Context)
    (p : RefUpdateUpstreamParams) :
  issues [CallUpdate p] (call_RefUpdate env cl ctx p).
Proof.
  intros w. set (res := env_RefUpdate env (length (trace w)) cl ctx p).
  exists res, [EvRefUpdate cl ctx p res]. repeat split; try done.
  destruct res as [err|] eqn:Hres; simpl.
  - exists [], (EvRefUpdate cl ctx p (Some err)). split; [done|]. split; [constructor|done].
  - by repeat constructor.
Qed.

Lemma reestablishRepo_issues (env : Env) (cl : UpstreamClient) (ctx : Context)
    (log : Logger) (endpoint repoName : string) (repo : serverRepo) :
  range_ok env ->
  issues (expected_repo_calls endpoint (repoName, repo))
    (reestablishRepo env cl ctx log endpoint repoName repo).
Proof.
  intros Hrange. unfold reestablishRepo, expected_repo_calls. cbn [snd].
  eapply issues_yields; [by apply yields_range|]. intros remotes_ Hremotes.
  apply (issues_perm (remotes_ ≫= expected_remote_calls endpoint repo));
    [by rewrite Hremotes|].
  apply issues_for_range. intros remoteName remote.
  unfold expected_remote_calls. cbn [fst snd].
  destruct (decide _); [|apply issues_ret].
  eapply issues_yields; [apply yields_Log|]. intros _ _.
  apply (issues_seq [CallWatch (watch_params remote)]); [apply issues_call_RepoWatch|].
  eapply issues_yields; [by apply yields_range|]. intros refs_ Hrefs.
  apply (issues_perm (refs_ ≫= expected_ref_calls repo remoteName remote));
    [by rewrite Hrefs|].
  apply issues_for_range. intros refName refConfig.
  unfold expected_ref_calls. cbn [fst snd].
  destruct (refdb repo !! refName) as [o|].
  - destruct (_ && _); [apply issues_call_RefUpdate | apply issues_ret].
  - destruct (_ && _); apply issues_ret.
Qed.

Lemma reestablish_issues (env : Env) (cl : UpstreamClient) (ctx : Context)
    (log : Logger) (endpoint : string) :
  range_ok env ->
  forall w, exists r evs,
    reestablish env cl ctx log endpoint w = Ret r (with_trace w evs) /\
    omap call_of evs ⊆+ expected_calls (repos (server w)) endpoint /\
    (r = None -> omap call_of evs ≡ₚ expected_calls (repos (server w)) endpoint) /\
    stops_at_first_error r evs.
Proof.
  intros Hrange w. unfold reestablish. unfold mbind at 1, M_bind at 1, gets.
  assert (Hm : issues (expected_calls (repos (server w)) endpoint)
                 (repos_ ← range env (repos (server w));
                  for_range repos_ (reestablishRepo env cl ctx log endpoint))).
  { eapply issues_yields; [by apply yields_range|]. intros repos_ Hrepos.
    unfold expected_calls.
    apply (issues_perm (repos_ ≫= expected_repo_calls endpoint)); [by rewrite Hrepos|].
    apply issues_for_range. intros repoName repo. by apply reestablishRepo_issues. }
  apply Hm.
Qed.

Lemma expected_watch_iff (rs : gmap string serverRepo) (endpoint : string)
    (p : RepoWatchParams) :
  CallWatch p ∈ expected_calls rs endpoint <->
  exists repoName repo remoteName remote,
    rs !! repoName = Some repo /\
    Remotes (config repo) !! remoteName = Some remote /\
    remote_Endpoint remote = endpoint /\
    p = watch_params remote.
Proof.
  unfold expected_calls. rewrite list_elem_of_bind. split.
  - intros ([repoName repo] & Hin & Hrepo%elem_of_map_to_list).
    unfold expected_repo_calls in Hin. cbn [snd] in Hin.
    apply list_elem_of_bind in Hin as ([remoteName remote] & Hin & Hremote%elem_of_map_to_list).
    unfold expected_remote_calls in Hin. cbn [fst snd] in Hin.
    destruct (decide _) as [HE|]; [|by apply elem_of_nil in Hin].
    apply elem_of_cons in Hin as [[= ->]|Hin].
    + by exists repoName, repo, remoteName, remote.
    + apply list_elem_of_bind in Hin as (kv & Hin & _).
      unfold expected_ref_calls in Hin.
      destruct (_ && _); [|by apply elem_of_nil in Hin].
      destruct (refdb repo !! kv.1); [|by apply elem_of_nil in Hin].
      by apply list_elem_of_singleton in Hin.
  - intros (repoName & repo & remoteName & remote & Hrepo & Hremote & HE & ->).
    exists (repoName, repo). split; [|by apply elem_of_map_to_list].
    unfold expected_repo_calls. cbn [snd]. apply list_elem_of_bind.
    exists (remoteName, remote). split; [|by apply elem_of_map_to_list].
    unfold expected_remote_calls. cbn [fst snd].
    rewrite decide_True by done. by left.
Qed.

Lemma expected_update_iff (rs : gmap string serverRepo) (endpoint : string)
    (p : RefUpdateUpstreamParams) :
  CallUpdate p ∈ expected_calls rs endpoint <->
  exists repoName repo remoteName remote refName refConfig o,
    rs !! repoName = Some repo /\
    Remotes (config repo) !! remoteName = Some remote /\
    remote_Endpoint remote = endpoint /\
    Refs (config repo) !! refName = Some refConfig /\
    Upstream refConfig = remoteName /\
    Overwrite refConfig = true /\
    refdb repo !! refName = Some o /\
    p = push_params remote refName o.
Proof.
  unfold expected_calls. rewrite list_elem_of_bind. split.
  - intros ([repoName repo] & Hin & Hrepo%elem_of_map_to_list).
    unfold expected_repo_calls in Hin. cbn [snd] in Hin.
    apply list_elem_of_bind in Hin as ([remoteName remote] & Hin & Hremote%elem_of_map_to_list).
    unfold expected_remote_calls in Hin. cbn [fst snd] in Hin.
    destruct (decide _) as [HE|]; [|by apply elem_of_nil in Hin].
    apply elem_of_cons in Hin as [[=]|Hin].
    apply list_elem_of_bind in Hin as ([refName refConfig] & Hin & Href%elem_of_map_to_list).
    unfold expected_ref_calls in Hin. cbn [fst snd] in Hin.
    destruct (Overwrite refConfig) eqn:Ho; [|by apply elem_of_nil in Hin].
    destruct (bool_decide_reflect (Upstream refConfig = remoteName)) as [Hu|];
      [|by apply elem_of_nil in Hin].
    cbn [andb] in Hin.
    destruct (refdb repo !! refName) as [o|] eqn:Hdb; [|by apply elem_of_nil in Hin].
    apply list_elem_of_singleton in Hin as [= ->].
    by exists repoName, repo, remoteName, remote, refName, refConfig, o.
  - intros (repoName & repo & remoteName & remote & refName & refConfig & o &
            Hrepo & Hremote & HE & Href & Hu & Ho & Hdb & ->).
    exists (repoName, repo). split; [|by apply elem_of_map_to_list].
    unfold expected_repo_calls. cbn [snd]. apply list_elem_of_bind.
    exists (remoteName, remote). split; [|by apply elem_of_map_to_list].
    unfold expected_remote_calls. cbn [fst snd].
    rewrite decide_True by done. right. apply list_elem_of_bind.
    exists (refName, refConfig). split; [|by apply elem_of_map_to_list].
    unfold expected_ref_calls. cbn [fst snd].
    rewrite Ho, bool_decide_eq_true_2, Hdb by done. by left.
Qed.

Lemma in_order_ret : in_order (fun c => c = []) (mret None).
Proof. intros w. exists None, []. by rewrite with_trace_nil. Qed.

Lemma in_order_weaken (S S' : list Call -> Prop) (m : M (option error)) :
  (forall c, S c -> S' c) -> in_order S m -> in_order S' m.
Proof.
  intros HS Hm w. destruct (Hm w) as (r & evs & Hrun & Hr).
  exists r, evs. split; [done|]. destruct r as [err|].
  - destruct Hr as [rest Hrest]. exists rest. by apply HS.
  - by apply HS.
Qed.

Lemma in_order_seq (S1 S2 : list Call -> Prop) (m1 m2 : M (option error)) :
  in_order S1 m1 -> in_order S2 m2 -> (exists c, S2 c) ->
  in_order (fun c => exists c1 c2, S1 c1 /\ S2 c2 /\ c = c1 ++ c2)
    (r ← m1; match r with Some err => mret (Some err) | None => m2 end).
Proof.
  intros H1 H2 [c0 Hc0] w. destruct (H1 w) as (r1 & evs1 & Hrun1 & Hr1).
  unfold mbind, M_bind. rewrite Hrun1. destruct r1 as [err|].
  - exists (Some err), evs1. split; [done|]. destruct Hr1 as [rest Hrest].
    exists (rest ++ c0), (omap call_of evs1 ++ rest), c0. by rewrite app_assoc.
  - destruct (H2 (with_trace w evs1)) as (r2 & evs2 & Hrun2 & Hr2).
    exists r2, (evs1 ++ evs2). rewrite Hrun2, with_trace_app, omap_app.
    split; [done|]. destruct r2 as [err|].
    + destruct Hr2 as [rest Hrest]. exists rest.
      exists (omap call_of evs1), (omap call_of evs2 ++ rest). by rewrite app_assoc.
    + by exists (omap call_of evs1), (omap call_of evs2).
Qed.

Lemma in_order_yields {A} (Q : A -> Prop) (S : list Call -> Prop) (m0 : M A)
    (k : A -> M (option error)) :
  yields Q m0 -> (forall a, Q a -> in_order S (k a)) -> in_order S (m0 ≫= k).
Proof.
  intros H0 Hk w. destruct (H0 w) as (a & evs0 & Hrun0 & Hsilent & HQ).
  destruct (Hk a HQ (with_trace w evs0)) as (r & evs & Hrun & Hr).
  exists r, (evs0 ++ evs). unfold mbind, M_bind.
  rewrite Hrun0, Hrun, with_trace_app, omap_app, omap_call_of_silent by done.
  done.
Qed.

Lemma in_order_for_range {V} (F : string * V -> list Call -> Prop) (l : list (string * V))
    (body : string -> V -> M (option error)) :
  (forall k v, in_order (F (k, v)) (body k v)) ->
  (forall kv, exists c, F kv c) ->
  in_order (fun c => exists blocks, Forall2 F l blocks /\ c = concat blocks)
    (for_range l body).
Proof.
  intros Hbody Hsome. induction l as [|[k v] l IH].
  - eapply in_order_weaken; [|apply in_order_ret].
    intros c ->. exists []. by split; [constructor|].
  - cbn [for_range].
    assert (Hrest : exists c, exists blocks, Forall2 F l blocks /\ c = concat blocks).
    { clear IH. induction l as [|kv l [c (blocks & Hb & ->)]].
      - exists [], []. by split; [constructor|].
      - destruct (Hsome kv) as [c0 Hc0]. exists (c0 ++ concat blocks), (c0 :: blocks).
        by split; [constructor|]. }
    eapply in_order_weaken; [|by apply (in_order_seq _ _ _ _ (Hbody k v) IH)].
    intros c (c1 & c2 & Hc1 & (blocks & Hb & ->) & ->).
    exists (c1 :: blocks). by split; [constructor|].
Qed.

Lemma visits_some {V} (F : string * V -> list Call -> Prop) (m : gmap string V) :
  (forall kv, exists c, F kv c) -> exists c, visits F m c.
Proof.
  intros Hsome.
  assert (H : exists blocks, Forall2 F (map_to_list m) blocks).
  { induction (map_to_list m) as [|kv l [blocks Hb]].
    - exists []. constructor.
    - destruct (Hsome kv) as [c0 Hc0]. exists (c0 :: blocks). by constructor. }
  destruct H as [blocks Hb]. by exists (concat blocks), (map_to_list m), blocks.
Qed.

Lemma in_order_call_RepoWatch (env : Env) (cl : UpstreamClient) (ctx : Context)
    (p : RepoWatchParams) :
  in_order (fun c => c = [CallWatch p]) (call_RepoWatch env cl ctx p).
Proof.
  intros w. set (res := env_RepoWatch env (length (trace w)) cl ctx p).
  exists res, [EvRepoWatch cl ctx p res]. split; [done|].
  destruct res; [by exists []|done].
Qed.

Lemma in_order_call_RefUpdate (env : Env) (cl : UpstreamClient) (ctx : Context)
    (p : RefUpdateUpstreamParams) :
  in_order (fun c => c = [CallUpdate p]) (call_RefUpdate env cl ctx p).
Proof.
  intros w. set (res := env_RefUpdate env (length (trace w)) cl ctx p).
  exists res, [EvRefUpdate cl ctx p res]. split; [done|].
  destruct res; [by exists []|done].
Qed.

Lemma remote_calls_in_order_some (endpoint : string) (repo : serverRepo)
    (kv : string * RepoRemoteConfiguration) :
  exists c, remote_calls_in_order endpoint repo kv c.
Proof.
  unfold remote_calls_in_order. destruct (decide _); [|by exists []].
  destruct (visits_some (fun ref c => c = expected_ref_calls repo kv.1 kv.2 ref)
              (Refs (config repo))) as [updates Hu]; [by eexists|].
  by exists (CallWatch (watch_params kv.2) :: updates), updates.
Qed.

Lemma reestablishRepo_in_order (env : Env) (cl : UpstreamClient) (ctx : Context)
    (log : Logger) (endpoint repoName : string) (repo : serverRepo) :
  range_ok env ->
  in_order (repo_calls_in_order endpoint (repoName, repo))
    (reestablishRepo env cl ctx log endpoint repoName repo).
Proof.
  intros Hrange. unfold reestablishRepo, repo_calls_in_order. cbn [snd].
  eapply in_order_yields; [by apply yields_range|]. intros remotes_ Hremotes.
  eapply in_order_weaken;
    [|apply (in_order_for_range (remote_calls_in_order endpoint repo))].
  - intros c (blocks & Hb & ->). by exists remotes_, blocks.
  - intros remoteName remote. unfold remote_calls_in_order. cbn [fst snd].
    destruct (decide _); [|apply in_order_ret].
    eapply in_order_yields; [apply yields_Log|]. intros _ _.
    eapply in_order_weaken;
      [|apply (in_order_seq (fun c => c = [CallWatch (watch_params remote)])
                 (visits (fun ref c => c = expected_ref_calls repo remoteName remote ref)
                    (Refs (config repo))))].
    + intros c (c1 & c2 & -> & Hc2 & ->). by exists c2.
    + apply in_order_call_RepoWatch.
    + eapply in_order_yields; [by apply yields_range|]. intros refs_ Hrefs.
      eapply in_order_weaken;
        [|apply (in_order_for_range
                   (fun ref c => c = expected_ref_calls repo remoteName remote ref))].
      * intros c (blocks & Hb & ->). by exists refs_, blocks.
      * intros refName refConfig. unfold expected_ref_calls. cbn [fst snd].
        destruct (refdb repo !! refName) as [o|].
        -- destruct (_ && _); [apply in_order_call_RefUpdate | apply in_order_ret].
        -- destruct (_ && _); apply in_order_ret.
      * by eexists.
    + apply visits_some. by eexists.
  - apply remote_calls_in_order_some.
Qed.

Lemma reestablish_in_order (env : Env) (cl : UpstreamClient) (ctx : Context)
    (log : Logger) (endpoint : string) :
  range_ok env ->
  forall w, exists r evs,
    reestablish env cl ctx log endpoint w = Ret r (with_trace w evs) /\
    match r with
    | None => calls_in_order (repos (server w)) endpoint (omap call_of evs)
    | Some _ => exists rest,
        calls_in_order (repos (server w)) endpoint (omap call_of evs ++ rest)
    end.
Proof.
  intros Hrange w. unfold reestablish. unfold mbind at 1, M_bind at 1, gets.
  assert (Hm : in_order (calls_in_order (repos (server w)) endpoint)
                 (repos_ ← range env (repos (server w));
                  for_range repos_ (reestablishRepo env cl ctx log endpoint))).
  { eapply in_order_yields; [by apply yields_range|]. intros repos_ Hrepos.
    eapply in_order_weaken;
      [|apply (in_order_for_range (repo_calls_in_order endpoint))].
    - intros c (blocks & Hb & ->). by exists repos_, blocks.
    - intros repoName repo. by apply reestablishRepo_in_order.
    - intros kv. apply visits_some. apply remote_calls_in_order_some. }
  apply Hm.
Qed.

(** Forced updates follow the watch call of their remote. *)

Lemma updates_follow_watch_prefix (rs : gmap string serverRepo) (endpoint : string)
    (calls rest : list Call) :
  updates_follow_watch rs endpoint (calls ++ rest) -> updates_follow_watch rs endpoint calls.
Proof.
  intros H pre p post ->. apply (H pre p (post ++ rest)). by rewrite <- app_assoc.
Qed.

Lemma updates_follow_watch_nil (rs : gmap string serverRepo) (endpoint : string) :
  updates_follow_watch rs endpoint [].
Proof. intros pre p post H. by destruct pre. Qed.

Lemma updates_follow_watch_app (rs : gmap string serverRepo) (endpoint : string)
    (c1 c2 : list Call) :
  updates_follow_watch rs endpoint c1 -> updates_follow_watch rs endpoint c2 ->
  updates_follow_watch rs endpoint (c1 ++ c2).
Proof.
  intros H1 H2 pre p post Heq.
  apply app_eq_app in Heq as [l [[-> Hl]|[-> Hl]]].
  - destruct l as [|x l].
    + simpl in Hl.
      destruct (H2 [] p post) as (pre0 & updates & repoName & repo & remoteName & remote &
                                  Hpre & _); [done|]. by destruct pre0.
    + injection Hl as Hx Hpost. subst x post.
      destruct (H1 pre p l eq_refl)
        as (pre0 & updates & repoName & repo & remoteName & remote & -> & H).
      by exists pre0, updates, repoName, repo, remoteName, remote.
  - destruct (H2 l p post Hl)
      as (pre0 & updates & repoName & repo & remoteName & remote & -> & H).
    exists (c1 ++ pre0), updates, repoName, repo, remoteName, remote.
    by rewrite <- app_assoc.
Qed.

Lemma updates_follow_watch_concat (rs : gmap string serverRepo) (endpoint : string)
    (blocks : list (list Call)) :
  Forall (updates_follow_watch rs endpoint) blocks ->
  updates_follow_watch rs endpoint (concat blocks).
Proof.
  induction 1 as [|c blocks Hc _ IH]; simpl.
  - apply updates_follow_watch_nil.
  - by apply updates_follow_watch_app.
Qed.

Lemma ref_calls_due (repo : serverRepo) (remoteName : string)
    (remote : RepoRemoteConfiguration) (updates : list Call) :
  visits (fun ref c => c = expected_ref_calls repo remoteName remote ref)
    (Refs (config repo)) updates ->
  Forall (due_update repo remoteName remote) updates.
Proof.
  intros (l & blocks & Hl & Hb & ->).
  assert (Hin : forall kv, kv ∈ l -> Refs (config repo) !! kv.1 = Some kv.2).
  { intros [k v] Hkv. rewrite Hl in Hkv. by apply elem_of_map_to_list in Hkv. }
  clear Hl. induction Hb as [|kv c l blocks -> _ IH]; simpl; [constructor|].
  apply Forall_app. split.
  - unfold expected_ref_calls.
    destruct (Overwrite kv.2) eqn:Ho; [|constructor].
    destruct (bool_decide_reflect (Upstream kv.2 = remoteName)) as [Hu|]; [|constructor].
    cbn [andb]. destruct (refdb repo !! kv.1) as [o|] eqn:Hdb; [|constructor].
    constructor; [|constructor].
    exists kv.1, kv.2, o. repeat split; try done. apply Hin. by left.
  - apply IH. intros kv' Hkv'. apply Hin. by right.
Qed.

Lemma calls_in_order_updates_follow_watch (rs : gmap string serverRepo) (endpoint : string)
    (calls : list Call) :
  calls_in_order rs endpoint calls -> updates_follow_watch rs endpoint calls.
Proof.
  intros (repos_ & blocks & Hrepos & Hb & ->).
  apply updates_follow_watch_concat.
  assert (Hin : forall kv, kv ∈ repos_ -> rs !! kv.1 = Some kv.2).
  { intros [k v] Hkv. rewrite Hrepos in Hkv. by apply elem_of_map_to_list in Hkv. }
  clear Hrepos. induction Hb as [|[repoName repo] c repos_ blocks Hc _ IH];
    constructor; [|apply IH; intros kv' Hkv'; apply Hin; by right].
  assert (Hrepo : rs !! repoName = Some repo) by (apply (Hin (repoName, repo)); by left).
  clear IH Hin. destruct Hc as (remotes_ & rblocks & Hremotes & Hrb & ->).
  cbn [snd] in *. apply updates_follow_watch_concat.
  assert (Hin : forall kv, kv ∈ remotes_ -> Remotes (config repo) !! kv.1 = Some kv.2).
  { intros [k v] Hkv. rewrite Hremotes in Hkv. by apply elem_of_map_to_list in Hkv. }
  clear Hremotes. induction Hrb as [|[remoteName remote] c remotes_ rblocks Hc _ IH];
    constructor; [|apply IH; intros kv' Hkv'; apply Hin; by right].
  assert (Hremote : Remotes (config repo) !! remoteName = Some remote)
    by (apply (Hin (remoteName, remote)); by left).
  clear IH Hin. unfold remote_calls_in_order in Hc. cbn [fst snd] in Hc.
  destruct (decide _) as [HE|]; [|subst c; apply updates_follow_watch_nil].
  destruct Hc as (updates & Hu%ref_calls_due & ->).
  intros pre p post Heq. destruct pre as [|c pre]; [done|].
  injection Heq as <- ->.
  exists [], pre, repoName, repo, remoteName, remote.
  repeat split; try done.
  change (pre ++ CallUpdate p :: post) with (pre ++ [CallUpdate p] ++ post) in Hu.
  rewrite app_assoc in Hu. by apply Forall_app in Hu as [Hu _].
Qed.

(** C2, as the code has it. Re-establishment on connection [cl] for endpoint
    E always returns. It visits the repositories in turn, and in each the
    remotes in turn; for a remote whose endpoint is E it calls RepoWatch with
    the remote's repo and refspec and after that RefUpdate, forced and with
    the ref's current base, branch and history, for the refs whose config
    names that remote as upstream with overwrite set and that exist in the
    ref database. The calls made are, in the order in which they are made,
    such a sequence when nil is returned and the beginning of such a
    sequence otherwise; so every forced update comes after the watch call of
    its remote, with only forced updates of that remote in between. Every
    call is one of those due, whatever the order in which the maps are
    visited; when nil is returned exactly those calls have been made, each
    once. The first call that fails ends re-establishment: that call is the
    last one made and its error is returned. *)
Theorem reestablish_calls (env : Env) (cl : UpstreamClient) (ctx : Context) (log : Logger)
    (endpoint : string) (w : World) :
  range_ok env ->
  exists r evs,
    reestablish env cl ctx log endpoint w = Ret r (with_trace w evs) /\
    Forall (reestablish_event cl ctx) evs /\
    omap call_of evs ⊆+ expected_calls (repos (server w)) endpoint /\
    (r = None -> omap call_of evs ≡ₚ expected_calls (repos (server w)) endpoint) /\
    stops_at_first_error r evs /\
    (forall p, CallWatch p ∈ expected_calls (repos (server w)) endpoint <->
       exists repoName repo remoteName remote,
         repos (server w) !! repoName = Some repo /\
         Remotes (config repo) !! remoteName = Some remote /\
         remote_Endpoint remote = endpoint /\
         p = watch_params remote) /\
    (forall p, CallUpdate p ∈ expected_calls (repos (server w)) endpoint <->
       exists repoName repo remoteName remote refName refConfig o,
         repos (server w) !! repoName = Some repo /\
         Remotes (config repo) !! remoteName = Some remote /\
         remote_Endpoint remote = endpoint /\
         Refs (config repo) !! refName = Some refConfig /\
         Upstream refConfig = remoteName /\
         Overwrite refConfig = true /\
         refdb repo !! refName = Some o /\
         p = push_params remote refName o) /\
    (r = None -> calls_in_order (repos (server w)) endpoint (omap call_of evs)) /\
    (exists rest, calls_in_order (repos (server w)) endpoint (omap call_of evs ++ rest)) /\
    updates_follow_watch (repos (server w)) endpoint (omap call_of evs).
Proof.
  intros Hrange.
  destruct (reestablish_issues env cl ctx log endpoint Hrange w)
    as (r & evs & Hrun & Hsub & Hall & Hstop).
  destruct (reestablish_appends env cl ctx log endpoint w) as (r' & evs' & Hrun' & Hevs).
  assert (evs' = evs) as ->.
  { rewrite Hrun in Hrun'. injection Hrun' as _ Htr. by apply app_inv_head in Htr. }
  destruct (reestablish_in_order env cl ctx log endpoint Hrange w)
    as (r'' & evs'' & Hrun'' & Hord).
  assert (r'' = r /\ evs'' = evs) as [-> ->].
  { rewrite Hrun in Hrun''. injection Hrun'' as -> Htr. by apply app_inv_head in Htr. }
  assert (Hpre : exists rest,
             calls_in_order (repos (server w)) endpoint (omap call_of evs ++ rest)).
  { destruct r; [done|]. exists []. by rewrite app_nil_r. }
  exists r, evs. split; [done|]. split; [done|]. split; [done|]. split; [done|].
  split; [done|]. split; [|split; [|split; [|split]]].
  - intros p. apply expected_watch_iff.
  - intros p. apply expected_update_iff.
  - intros ->. exact Hord.
  - exact Hpre.
  - destruct Hpre as [rest Hrest].
    apply (updates_follow_watch_prefix _ _ _ rest).
    by apply calls_in_order_updates_follow_watch.
Qed.

Lemma env_ok_range_ok : range_ok Scenario.env_ok.
Proof. intros V t m. reflexivity. Qed.

Lemma reestablish_calls_witness :
  exists evs,
    reestablish Scenario.env_ok (client 0) ctxBackground (watcher_log Scenario.peerA)
      Scenario.peerA Scenario.connected2 = Ret None (with_trace Scenario.connected2 evs) /\
    omap call_of evs =
      [ CallWatch {| rw_Repo := "up/r1"; rw_Refspec := "*" |};
        CallUpdate
          {| ru_RefIdentifier := {| ri_Repo := "up/r1"; ri_Ref := "main" |};
             Force := true;
             State := Some {| rs_RefBaseInfo :=
                                {| GitBase := "c0ffee"; GitBranch := "master" |};
                              History := ["op1"; "op2"] |} |};
        CallWatch {| rw_Repo := "up/r2"; rw_Refspec := "refs/heads/*" |} ] /\
    calls_in_order (repos (server Scenario.connected2)) Scenario.peerA (omap call_of evs) /\
    updates_follow_watch (repos (server Scenario.connected2)) Scenario.peerA
      (omap call_of evs).
Proof.
  destruct (reestablish_calls Scenario.env_ok (client 0) ctxBackground
              (watcher_log Scenario.peerA) Scenario.peerA Scenario.connected2
              env_ok_range_ok) as (r & evs & Hrun & _ & _ & _ & _ & _ & _ & Hord & _ & Hfollow).
  assert (Hr : Scenario.result_of
                 (reestablish Scenario.env_ok (client 0) ctxBackground
                    (watcher_log Scenario.peerA) Scenario.peerA Scenario.connected2)
               = Some None) by (vm_compute; reflexivity).
  rewrite Hrun in Hr. injection Hr as ->.
  assert (Htr : Scenario.trace_of
                  (reestablish Scenario.env_ok (client 0) ctxBackground
                     (watcher_log Scenario.peerA) Scenario.peerA Scenario.connected2)
                = trace Scenario.connected2 ++
                  [ EvLog (watcher_log Scenario.peerA) levelDebug
                      [("reestablish-watch-repo", "r1"); ("remote", "origin")];
                    EvRepoWatch (client 0) ctxBackground
                      {| rw_Repo := "up/r1"; rw_Refspec := "*" |} None;
                    EvRefUpdate (client 0) ctxBackground
                      {| ru_RefIdentifier := {| ri_Repo := "up/r1"; ri_Ref := "main" |};
                         Force := true;
                         State := Some {| rs_RefBaseInfo :=
                                            {| GitBase := "c0ffee"; GitBranch := "master" |};
                                          History := ["op1"; "op2"] |} |} None;
                    EvLog (watcher_log Scenario.peerA) levelDebug
                      [("reestablish-watch-repo", "r2"); ("remote", "origin")];
                    EvRepoWatch (client 0) ctxBackground
                      {| rw_Repo := "up/r2"; rw_Refspec := "refs/heads/*" |} None ])
    by (vm_compute; reflexivity).
  rewrite Hrun in Htr. unfold Scenario.trace_of, with_trace in Htr. cbn [trace] in Htr.
  apply app_inv_head in Htr.
  exists evs. split; [exact Hrun|]. split; [by rewrite Htr|].
  split; [by apply Hord | exact Hfollow].
Defined.

(** C2 as stated fails: when a call fails, re-establishment stops. Here
    RepoWatch fails for the remote of r1: ref main of r1 has upstream origin,
    overwrite set, exists in the ref database, and origin's endpoint is
    peerA, yet no forced update is pushed for it; and no watch call is made
    for the remote of r2, whose endpoint is peerA too. *)
Lemma reestablish_stops_when_watch_fails :
  repos (server Scenario.connected2) !! "r1" = Some Scenario.r1 /\
  repos (server Scenario.connected2) !! "r2" = Some Scenario.r2 /\
  (remote_Endpoint <$> Remotes (config Scenario.r1) !! "origin") = Some Scenario.peerA /\
  (remote_Endpoint <$> Remotes (config Scenario.r2) !! "origin") = Some Scenario.peerA /\
  Refs (config Scenario.r1) !! "main" = Some {| Upstream := "origin"; Overwrite := true |} /\
  is_Some (refdb Scenario.r1 !! "main") /\
  Scenario.result_of
    (reestablish Scenario.env_watch_fails (client 0) ctxBackground
       (watcher_log Scenario.peerA) Scenario.peerA Scenario.connected2)
    = Some (Some (errorString "watch failed")) /\
  Scenario.trace_of
    (reestablish Scenario.env_watch_fails (client 0) ctxBackground
       (watcher_log Scenario.peerA) Scenario.peerA Scenario.connected2)
    = trace Scenario.connected2 ++
      [ EvLog (watcher_log Scenario.peerA) levelDebug
          [("reestablish-watch-repo", "r1"); ("remote", "origin")];
        EvRepoWatch (client 0) ctxBackground {| rw_Repo := "up/r1"; rw_Refspec := "*" |}
          (Some (errorString "watch failed")) ].
Proof.
  split; [vm_compute; reflexivity|].
  split; [vm_compute; reflexivity|].
  split; [vm_compute; reflexivity|].
  split; [vm_compute; reflexivity|].
  split; [vm_compute; reflexivity|].
  split; [vm_compute; eauto|].
  split; [vm_compute; reflexivity|].
  vm_compute; reflexivity.
Qed.

(** ** Executions as sequences of elementary changes *)

Lemma change_events_rtc (w : World) (evs : list Event) :
  Forall quiet evs -> rtc change w (with_trace w evs).
Proof. intros Hq. apply rtc_once. by constructor. Qed.

Lemma getOrCreateClient_changes (w w' : World) (ctx : Context) (log : Logger) (E : string)
    (r : UpstreamClient + error) :
  getOrCreateClient ctx log E w = Ret r w' -> rtc change w w'.
Proof.
  rewrite getOrCreateClient_eq.
  destruct (newClient _) as [f|] eqn:Hf; [|done].
  destruct (lookup_conn w E) eqn:Hl.
  - by intros [= _ <-].
  - destruct (f _ _ _) eqn:Hd.
    + intros [= _ <-]. apply rtc_once. by econstructor.
    + intros [= _ <-]. apply change_events_rtc. by repeat constructor.
Qed.

Lemma tryReconnect_connect_changes (w w' : World) (ctx : Context) (log : Logger)
    (E : string) (r : UpstreamClient + error) :
  tryReconnect_connect ctx log E w = Ret r w' -> rtc change w w'.
Proof.
  unfold tryReconnect_connect. unfold mbind, M_bind, Log, mret, M_ret.
  rewrite emit_eq.
  destruct (getOrCreateClient ctx log E _) as [[cl|err] w1|] eqn:Hg; [| |done].
  - rewrite emit_eq. intros [= _ <-].
    transitivity (with_trace w [EvLog log levelDebug [("try-reconnect", EmptyString)]]);
      [apply change_events_rtc; by repeat constructor|].
    transitivity w1; [by eapply getOrCreateClient_changes|].
    apply change_events_rtc. by repeat constructor.
  - intros [= _ <-].
    transitivity (with_trace w [EvLog log levelDebug [("try-reconnect", EmptyString)]]);
      [apply change_events_rtc; by repeat constructor|].
    by eapply getOrCreateClient_changes.
Qed.

Lemma reestablish_event_quiet (cl : UpstreamClient) (ctx : Context) (ev : Event) :
  reestablish_event cl ctx ev -> quiet ev.
Proof. by destruct ev. Qed.

Lemma reestablish_changes (env : Env) (w w' : World) (cl : UpstreamClient) (ctx : Context)
    (log : Logger) (E : string) (r : option error) :
  reestablish env cl ctx log E w = Ret r w' -> rtc change w w'.
Proof.
  destruct (reestablish_appends env cl ctx log E w) as (a & evs & -> & Hevs).
  intros [= _ <-]. apply change_events_rtc.
  eapply Forall_impl; [done | apply reestablish_event_quiet].
Qed.

Lemma change_pc_rtc (w : World) (i : nat) (wt0 wt : Watcher) (pc : WatcherPC) :
  goroutines w !! i = Some wt0 -> w_cl wt0 = w_cl wt -> w_endpoint wt0 = w_endpoint wt ->
  rtc change w (at_pc w i wt pc).
Proof. intros Hi Hcl HE. apply rtc_once. by econstructor. Qed.

Lemma after_failure_changes (w : World) (i : nat) (wt0 wt : Watcher) (log : Logger)
    (b : ExponentialBackOff) (now : Z) (err : error) :
  goroutines w !! i = Some wt0 -> w_cl wt0 = w_cl wt -> w_endpoint wt0 = w_endpoint wt ->
  rtc change w (after_failure w i wt log b now err).
Proof.
  intros Hi Hcl HE. unfold after_failure. destruct (_ =? _)%Z.
  - transitivity (with_trace w
      [EvLog log levelError [("reconnect-failed-after-retries", Error_ err)]]);
      [apply change_events_rtc; by repeat constructor|].
    by eapply change_pc_rtc.
  - transitivity (with_trace w
      [EvLog log levelDebug [("retry-reconnect-after-error", Error_ err)];
       EvSleep (NextBackOff b now).1]);
      [apply change_events_rtc; by repeat constructor|].
    by eapply change_pc_rtc.
Qed.

Lemma watcher_changes (env : Env) (now : Z) (i : nat) (wt : Watcher) (w w' : World) :
  goroutines w !! i = Some wt ->
  watcher env now i wt w = Ret tt w' -> rtc change w w'.
Proof.
  intros Hi. destruct (w_pc wt) as [| | |b|b cl|] eqn:Hpc.
  - rewrite watcher_wait by done. destruct (bool_decide _); intros [= <-];
      [by eapply change_pc_rtc | done].
  - rewrite watcher_check by done. intros [= <-]. by eapply change_pc_rtc.
  - rewrite watcher_remove by done. intros [= <-].
    transitivity (with_trace w [disconnected_event (w_endpoint wt)]);
      [apply change_events_rtc; by repeat constructor|].
    transitivity (without_conn (with_trace w [disconnected_event (w_endpoint wt)])
                    (w_endpoint wt)); [apply rtc_once, change_delete|].
    by eapply change_pc_rtc.
  - rewrite (watcher_try _ _ _ _ _ b) by done.
    destruct (tryReconnect_connect _ _ _ w) as [[cl|err] w1|] eqn:Ht; [| |done].
    + intros [= <-].
      destruct (ev_goroutines _ _ _ (tryReconnect_connect_evolves (eq i) _ _ _ _ _ _ Ht)
                  i wt Hi) as (wt1 & Hi1 & Hcl1 & HE1 & _).
      transitivity w1; [by eapply tryReconnect_connect_changes|].
      by eapply change_pc_rtc.
    + intros [= <-].
      destruct (ev_goroutines _ _ _ (tryReconnect_connect_evolves (eq i) _ _ _ _ _ _ Ht)
                  i wt Hi) as (wt1 & Hi1 & Hcl1 & HE1 & _).
      transitivity w1; [by eapply tryReconnect_connect_changes|].
      by eapply after_failure_changes.
  - rewrite (watcher_reestablish _ _ _ _ _ b cl) by done.
    destruct (reestablish _ _ _ _ _ w) as [[err|] w1|] eqn:Hr; [| |done].
    + intros [= <-].
      destruct (ev_goroutines _ _ _ (reestablish_evolves (eq i) _ _ _ _ _ _ _ Hr)
                  i wt Hi) as (wt1 & Hi1 & Hcl1 & HE1 & _).
      transitivity w1; [by eapply reestablish_changes|].
      by eapply after_failure_changes.
    + intros [= <-].
      destruct (ev_goroutines _ _ _ (reestablish_evolves (eq i) _ _ _ _ _ _ _ Hr)
                  i wt Hi) as (wt1 & Hi1 & Hcl1 & HE1 & _).
      transitivity w1; [by eapply reestablish_changes|].
      by eapply change_pc_rtc.
  - rewrite watcher_exited by done. by intros [= <-].
Qed.

Lemma step_changes (env : Env) (l : Label) (w w' : World) :
  step env l w = Ret tt w' -> rtc change w w'.
Proof.
  destruct l as [f|E|ctx log E|E| |r|cl|i now]; simpl.
  - unfold ConfigureRemoteClientFunc. unfold mbind, M_bind, gets.
    destruct (newClient _) eqn:Hn; [done|]. intros [= <-].
    apply rtc_once.
    refine (change_server w {| remotes := {| conn := _; newClient := _ |};
                               closed := _; repos := _ |} _ _); [done|].
    intros f'. congruence.
  - unfold getClient, mbind, M_bind, gets. destruct (conn_lookup _ _); by intros [= <-].
  - unfold mbind, M_bind.
    destruct (getOrCreateClient ctx log E w) as [r w1|] eqn:Hg; [|done].
    intros [= <-]. by eapply getOrCreateClient_changes.
  - unfold closeAndRemoveClient. unfold mbind, M_bind, gets.
    destruct (conn_lookup _ _) as [cl|]; [|done].
    intros [= <-].
    transitivity (without_conn w E); [apply rtc_once, change_delete|].
    apply (change_events_rtc (without_conn w E)). by repeat constructor.
  - intros [= <-]. apply rtc_once.
    by refine (change_server w {| remotes := _; closed := _; repos := _ |} _ _).
  - intros [= <-]. apply rtc_once.
    by refine (change_server w {| remotes := _; closed := _; repos := _ |} _ _).
  - intros [= <-]. apply rtc_once. constructor.
  - unfold mbind, M_bind, gets.
    destruct (goroutines w !! i) as [wt|] eqn:Hi.
    + intros Hw. by eapply watcher_changes.
    + by intros [= <-].
Qed.

Lemma run_changes (env : Env) (ls : list Label) (w w' : World) :
  run env ls w = Ret tt w' -> rtc change w w'.
Proof.
  revert w. induction ls as [|l ls IH]; intros w; simpl.
  - by intros [= <-].
  - unfold mbind, M_bind. destruct (step env l w) as [[] w1|] eqn:Hs; [|done].
    intros Hr. transitivity w1; [by eapply step_changes | by eapply IH].
Qed.

(** ** Goroutines and factory calls *)

Lemma successful_dials_app (evs1 evs2 : list Event) :
  successful_dials (evs1 ++ evs2) = successful_dials evs1 ++ successful_dials evs2.
Proof. apply omap_app. Qed.

Lemma successful_dials_quiet (evs : list Event) :
  Forall quiet evs -> successful_dials evs = [].
Proof.
  induction 1 as [|ev evs Hev _ IH]; [done|].
  change (ev :: evs) with ([ev] ++ evs). rewrite successful_dials_app, IH, app_nil_r.
  by destruct ev as [? ? [|]| | | | | | | |].
Qed.

Lemma watched_at_pc (w : World) (i : nat) (wt0 wt : Watcher) (pc : WatcherPC) :
  goroutines w !! i = Some wt0 -> w_cl wt0 = w_cl wt -> w_endpoint wt0 = w_endpoint wt ->
  watched (at_pc w i wt pc) = watched w.
Proof.
  intros Hi Hcl HE. unfold watched, at_pc. simpl.
  rewrite list_fmap_insert. simpl. apply list_insert_id.
  rewrite list_lookup_fmap, Hi. simpl. by rewrite Hcl, HE.
Qed.

Lemma change_keeps_watched (w w' : World) :
  change w w' ->
  watched w = successful_dials (trace w) -> watched w' = successful_dials (trace w').
Proof.
  intros Hch Hinv. destruct Hch as [w evs Hq|w i wt0 wt pc Hi Hcl HE|w E|w f log E cl Hf Hl Hd|
                                    w s Hc Hn|w cl].
  - simpl. rewrite successful_dials_app, (successful_dials_quiet evs) by done.
    by rewrite app_nil_r.
  - by rewrite (watched_at_pc _ _ wt0).
  - done.
  - unfold watched in *. simpl. by rewrite fmap_app, successful_dials_app, Hinv.
  - done.
  - done.
Qed.

(** X4. In every reachable state the goroutines are, in order, the watchers
    of the connections the factory has handed back so far: the i-th
    goroutine watches the connection of the i-th successful factory call,
    for the endpoint of that call. So there is exactly one watcher per
    connection made, and none for a failed dial. *)
Theorem goroutines_match_successful_dials (env : Env) (w : World) :
  reachable env w ->
  watched w = successful_dials (trace w) /\
  length (goroutines w) = length (successful_dials (trace w)).
Proof.
  intros (r & ls & Hrun).
  assert (Hw : watched w = successful_dials (trace w)).
  { apply (rtc_ind_r (R := change) (fun w => watched w = successful_dials (trace w))
             (newWorld r)); [done | | by eapply run_changes].
    intros w1 w2 _ Hch IH. by eapply change_keeps_watched. }
  split; [done|]. rewrite <- Hw. unfold watched. by rewrite length_fmap.
Qed.

Lemma goroutines_match_successful_dials_witness :
  watched Scenario.closed_retried = [(client 0, Scenario.peerA); (client 7, Scenario.peerA)].
Proof.
  assert (Hreach : reachable Scenario.env_ok Scenario.closed_retried).
  { exists Scenario.repos1.
    exists [callConfigureRemoteClientFunc (Some Scenario.dial_ok);
            callGetOrCreateClient (ctxRequest 0) baseLogger Scenario.peerA;
            disconnectNotify (client 0); schedule 0 0; schedule 0 0; serverClose;
            schedule 0 0; schedule 0 0; schedule 0 0].
    vm_compute. reflexivity. }
  destruct (goroutines_match_successful_dials Scenario.env_ok Scenario.closed_retried Hreach)
    as [Hw _].
  rewrite Hw. vm_compute. reflexivity.
Defined.

(** ** Panics *)

Lemma change_keeps_factory_for_goroutines (w w' : World) :
  change w w' ->
  (goroutines w <> [] -> is_Some (newClient (remotes (server w)))) ->
  goroutines w' <> [] -> is_Some (newClient (remotes (server w'))).
Proof.
  intros Hch Hinv. destruct Hch as [w evs Hq|w i wt0 wt pc Hi Hcl HE|w E|w f log E cl Hf Hl Hd|
                                    w s Hc Hn|w cl]; simpl.
  - done.
  - intros _. apply Hinv. intros Hnil. by rewrite Hnil in Hi.
  - done.
  - intros _. by exists f.
  - intros Hne. destruct (Hinv Hne) as [f Hf]. exists f. by apply Hn.
  - done.
Qed.

Lemma reachable_goroutines_have_factory (env : Env) (w : World) :
  reachable env w ->
  goroutines w <> [] -> is_Some (newClient (remotes (server w))).
Proof.
  intros (r & ls & Hrun).
  apply (rtc_ind_r (R := change)
           (fun w => goroutines w <> [] -> is_Some (newClient (remotes (server w))))
           (newWorld r)); [done | | by eapply run_changes].
  intros w1 w2 _ Hch IH. by eapply change_keeps_factory_for_goroutines.
Qed.

Lemma tryReconnect_connect_returns (w : World) (ctx : Context) (log : Logger) (E : string) :
  is_Some (newClient (remotes (server w))) ->
  exists r w', tryReconnect_connect ctx log E w = Ret r w'.
Proof.
  intros [f Hf]. unfold tryReconnect_connect. unfold mbind, M_bind, Log, mret, M_ret.
  rewrite emit_eq, getOrCreateClient_eq.
  change (newClient (remotes (server (with_trace w ?evs)))) with
    (newClient (remotes (server w))).
  rewrite Hf. destruct (lookup_conn _ E); [by eexists _, _|].
  destruct (f _ _ _); by eexists _, _.
Qed.

(** X3. The panic statements of the file. [Panic] is the outcome of a
    computation that has reached one of the three panic statements, in
    ConfigureRemoteClientFunc, getOrCreateClient and closeAndRemoveClient;
    run-time panics of Go are outside the model, in which the factory
    answers with a connection or an error and the ref database holds
    [serverRef] objects only. In a reachable state a step reaches a panic
    statement exactly when it is one of the three contract violations:
    ConfigureRemoteClientFunc with the factory already set, getOrCreateClient
    before the factory is set, closeAndRemoveClient for an endpoint without
    entry. The panic then carries the message of that statement and leaves
    the world as it was. In particular no action of a watcher goroutine
    reaches a panic statement: the getOrCreateClient that its tryReconnect
    calls always finds the factory set. *)
Theorem panics_only_on_contract_violations (env : Env) (w : World) :
  reachable env w ->
  (forall i now msg w', step env (schedule i now) w <> Panic msg w') /\
  (forall l msg w',
     step env l w = Panic msg w' <->
     w' = w /\ contract_violation w l /\ panic_message l = Some msg).
Proof.
  intros Hreach.
  assert (Hsched : forall i now, exists w', step env (schedule i now) w = Ret tt w').
  { intros i now. simpl. unfold mbind, M_bind, gets.
    destruct (goroutines w !! i) as [wt|] eqn:Hi; [|by eexists].
    assert (Hf : is_Some (newClient (remotes (server w)))).
    { apply (reachable_goroutines_have_factory env); [done|].
      intros Hnil. by rewrite Hnil in Hi. }
    destruct (w_pc wt) as [| | |b|b cl|] eqn:Hpc.
    - rewrite watcher_wait by done. by eexists.
    - rewrite watcher_check by done. by eexists.
    - rewrite watcher_remove by done. by eexists.
    - rewrite (watcher_try _ _ _ _ _ b) by done.
      destruct (tryReconnect_connect_returns w ctxBackground (watcher_log (w_endpoint wt))
                  (w_endpoint wt) Hf) as ([cl|err] & w1 & ->); by eexists.
    - rewrite (watcher_reestablish _ _ _ _ _ b cl) by done.
      destruct (reestablish_appends env cl ctxBackground (watcher_log (w_endpoint wt))
                  (w_endpoint wt) w) as ([err|] & evs & -> & _); by eexists.
    - rewrite watcher_exited by done. by eexists. }
  split.
  { intros i now msg w' Hp. destruct (Hsched i now) as [w1 Hs]. congruence. }
  intros l msg w'. split.
  - intros Hp. destruct l as [f|E|ctx log E|E| |r|cl|i now]; simpl in Hp.
    + unfold ConfigureRemoteClientFunc in Hp. unfold mbind, M_bind, gets, panic in Hp.
      simpl. destruct (newClient _) eqn:Hn; [|done]. by injection Hp as <- <-.
    + unfold getClient, mbind, M_bind, gets in Hp. by destruct (conn_lookup _ _).
    + unfold mbind, M_bind in Hp. rewrite getOrCreateClient_eq in Hp. simpl.
      destruct (newClient _) as [f|]; [|by injection Hp as <- <-].
      destruct (lookup_conn w E); [done|]. by destruct (f _ _ _).
    + unfold closeAndRemoveClient in Hp. unfold mbind, M_bind, gets, panic in Hp.
      simpl. unfold lookup_conn.
      destruct (conn_lookup _ _) as [cl|]; [done|]. by injection Hp as <- <-.
    + done.
    + done.
    + done.
    + destruct (Hsched i now) as [w1 Hs]. simpl in Hs. congruence.
  - intros (-> & Hv & Hmsg).
    destruct l as [f|E|ctx log E|E| |r|cl|i now]; simpl in Hv, Hmsg; try done;
      injection Hmsg as <-.
    + destruct Hv as [g Hg]. simpl.
      unfold ConfigureRemoteClientFunc. unfold mbind, M_bind, gets, panic. by rewrite Hg.
    + simpl. unfold mbind, M_bind. by rewrite getOrCreateClient_eq, Hv.
    + simpl. unfold closeAndRemoveClient. unfold mbind, M_bind, gets, panic.
      unfold lookup_conn in Hv. by rewrite Hv.
Qed.

Lemma panics_only_on_contract_violations_witness :
  (forall msg w', step Scenario.env_ok (schedule 0 0) Scenario.connected <> Panic msg w') /\
  step Scenario.env_ok (callConfigureRemoteClientFunc (Some Scenario.dial_fail))
    Scenario.connected
    = Panic "(serverRemotes).newClient is already set" Scenario.connected /\
  step Scenario.env_ok (callCloseAndRemoveClient "peerB") Scenario.connected
    = Panic "no remote client for endpoint peerB" Scenario.connected.
Proof.
  assert (Hreach : reachable Scenario.env_ok Scenario.connected).
  { exists Scenario.repos1.
    exists [callConfigureRemoteClientFunc (Some Scenario.dial_ok);
            callGetOrCreateClient (ctxRequest 0) baseLogger Scenario.peerA].
    vm_compute. reflexivity. }
  destruct (panics_only_on_contract_violations Scenario.env_ok Scenario.connected Hreach)
    as (Hsched & Hpanic).
  split; [apply Hsched|]. split.
  - apply Hpanic. split; [reflexivity|]. split; [vm_compute; eauto | reflexivity].
  - apply Hpanic. split; [reflexivity|]. split; [vm_compute; reflexivity | reflexivity].
Defined.

(** ** Calls for one endpoint *)

Lemma asking_again_changes_nothing (env : Env) (ls : list Label) (w : World)
    (f : newClientFunc) (E : string) (cl : UpstreamClient) :
  newClient (remotes (server w)) = Some f ->
  lookup_conn w E = Some cl ->
  Forall (asks_for E) ls ->
  run env ls w = Ret tt w.
Proof.
  intros Hf Hl Hls. induction Hls as [|l ls Hask _ IH]; [done|].
  cbn [run]. unfold mbind at 1, M_bind at 1.
  assert (Hs : step env l w = Ret tt w).
  { destruct l as [|E'|ctx log E'| | | | |]; simpl in Hask; try done; subst E'; simpl.
    - unfold mbind, M_bind. by rewrite getClient_eq.
    - unfold mbind, M_bind. by rewrite getOrCreateClient_eq, Hf, Hl. }
  by rewrite Hs.
Qed.

(** X1. However many callers ask for the connection of an endpoint, the
    factory is called once: with the factory configured and no entry for E,
    a getOrCreateClient that dials successfully followed by any number of
    getOrCreateClient and getClient calls for E leaves exactly the world of
    that one creation, and each later getOrCreateClient returns the same
    connection. *)
Theorem getOrCreateClient_dials_once (env : Env) (w : World) (f : newClientFunc)
    (E : string) (cl : UpstreamClient) (ctx : Context) (log : Logger) (ls : list Label) :
  newClient (remotes (server w)) = Some f ->
  lookup_conn w E = None ->
  f (length (trace w)) ctxServerBg E = inl cl ->
  Forall (asks_for E) ls ->
  run env (callGetOrCreateClient ctx log E :: ls) w = Ret tt (created w log E cl) /\
  successful_dials (trace (created w log E cl)) = successful_dials (trace w) ++ [(cl, E)] /\
  (forall ctx' log',
     getOrCreateClient ctx' log' E (created w log E cl) = Ret (inl cl) (created w log E cl)).
Proof.
  intros Hf Hl Hd Hls.
  assert (Hl' : lookup_conn (created w log E cl) E = Some cl).
  { rewrite lookup_conn_created. by rewrite decide_True. }
  split; [|split].
  - cbn [run]. unfold mbind at 1, M_bind at 1.
    assert (Hs : step env (callGetOrCreateClient ctx log E) w = Ret tt (created w log E cl)).
    { simpl. unfold mbind, M_bind. by rewrite getOrCreateClient_eq, Hf, Hl, Hd. }
    rewrite Hs. by eapply asking_again_changes_nothing.
  - simpl. by rewrite successful_dials_app.
  - intros ctx' log'. rewrite getOrCreateClient_eq. simpl. by rewrite Hf, Hl'.
Qed.

Lemma getOrCreateClient_dials_once_witness :
  run Scenario.env_ok
    [callGetOrCreateClient (ctxRequest 0) baseLogger Scenario.peerA;
     callGetOrCreateClient (ctxRequest 1) baseLogger Scenario.peerA;
     callGetClient Scenario.peerA;
     callGetOrCreateClient (ctxRequest 2) (watcher_log Scenario.peerA) Scenario.peerA]
    Scenario.configured
  = Ret tt (created Scenario.configured baseLogger Scenario.peerA (client 0)).
Proof.
  apply (getOrCreateClient_dials_once Scenario.env_ok Scenario.configured Scenario.dial_ok
           Scenario.peerA (client 0) (ctxRequest 0) baseLogger).
  - vm_compute. reflexivity.
  - vm_compute. reflexivity.
  - vm_compute. reflexivity.
  - repeat constructor.
Defined.

(** X2. Creating a connection and closing it again is a round trip on the
    registry: every endpoint, E included, is looked up as before. What stays
    is the record of the calls and the watcher goroutine of the closed
    connection. The registry does not remember the connection: the next
    getOrCreateClient for E calls the factory again. *)
Theorem create_then_close_roundtrip (env : Env) (w : World) (f : newClientFunc)
    (E : string) (cl : UpstreamClient) (ctx : Context) (log : Logger) :
  newClient (remotes (server w)) = Some f ->
  lookup_conn w E = None ->
  f (length (trace w)) ctxServerBg E = inl cl ->
  exists w1 w2 r,
    getOrCreateClient ctx log E w = Ret (inl cl) w1 /\
    closeAndRemoveClient env E w1 = Ret r w2 /\
    (forall e, lookup_conn w2 e = lookup_conn w e) /\
    goroutines w2 = goroutines w ++
      [{| w_cl := cl; w_endpoint := E; w_pc := pcWaitDisconnect |}] /\
    trace w2 = trace w ++ creation_events log E cl ++ [EvClose cl r] /\
    (forall ctx' log' cl',
       f (length (trace w2)) ctxServerBg E = inl cl' ->
       getOrCreateClient ctx' log' E w2 = Ret (inl cl') (created w2 log' E cl')).
Proof.
  intros Hf Hl Hd.
  set (w1 := created w log E cl).
  set (r := env_Close env (length (trace w1)) cl).
  set (w2 := with_trace (without_conn w1 E) [EvClose cl r]).
  assert (Hl1 : lookup_conn w1 E = Some cl).
  { unfold w1. rewrite lookup_conn_created. by rewrite decide_True. }
  assert (Hl2 : forall e, lookup_conn w2 e = lookup_conn w e).
  { intros e. change (lookup_conn w2 e) with (lookup_conn (without_conn w1 E) e).
    rewrite lookup_conn_without. unfold w1. rewrite lookup_conn_created.
    destruct (decide (E = e)) as [<-|]; [by rewrite Hl | done]. }
  exists w1, w2, r. split; [|split; [|split; [|split; [|split]]]].
  - by rewrite getOrCreateClient_eq, Hf, Hl, Hd.
  - unfold closeAndRemoveClient. unfold mbind at 1, M_bind at 1, gets.
    unfold lookup_conn in Hl1. by rewrite Hl1.
  - exact Hl2.
  - done.
  - simpl. by rewrite <- app_assoc.
  - intros ctx' log' cl' Hd'. rewrite getOrCreateClient_eq.
    change (newClient (remotes (server w2))) with (newClient (remotes (server w))).
    by rewrite Hf, Hl2, Hl, Hd'.
Qed.

Lemma create_then_close_roundtrip_witness :
  exists w1 w2,
    getOrCreateClient (ctxRequest 0) baseLogger Scenario.peerA Scenario.configured
      = Ret (inl (client 0)) w1 /\
    closeAndRemoveClient Scenario.env_ok Scenario.peerA w1 = Ret None w2 /\
    lookup_conn w2 Scenario.peerA = None.
Proof.
  destruct (create_then_close_roundtrip Scenario.env_ok Scenario.configured Scenario.dial_ok
              Scenario.peerA (client 0) (ctxRequest 0) baseLogger)
    as (w1 & w2 & r & Hc & Hd & Hl & _).
  - vm_compute. reflexivity.
  - vm_compute. reflexivity.
  - vm_compute. reflexivity.
  - exists w1, w2. split; [exact Hc|]. split.
    + assert (Hr : Scenario.result_of (closeAndRemoveClient Scenario.env_ok Scenario.peerA w1)
                   = Some None).
      { assert (Hw1 : w1 = created Scenario.configured baseLogger Scenario.peerA (client 0)).
        { rewrite getOrCreateClient_eq in Hc.
          assert (Hv : newClient (remotes (server Scenario.configured))
                       = Some Scenario.dial_ok) by (vm_compute; reflexivity).
          assert (Hv2 : lookup_conn Scenario.configured Scenario.peerA = None)
            by (vm_compute; reflexivity).
          rewrite Hv, Hv2 in Hc.
          assert (Hv3 : Scenario.dial_ok (length (trace Scenario.configured)) ctxServerBg
                          Scenario.peerA = inl (client 0)) by (vm_compute; reflexivity).
          rewrite Hv3 in Hc. by injection Hc. }
        subst w1. vm_compute. reflexivity. }
      rewrite Hd in Hr. simpl in Hr. injection Hr as ->. exact Hd.
    + rewrite Hl. vm_compute. reflexivity.
Defined.

(** ** What an execution never undoes *)

(** X5. Whatever the threads of the server and the goroutines do, in any
    order: a factory that is set is never replaced or cleared, a closed
    server stays closed, a disconnect channel that has fired stays fired,
    no goroutine disappears or comes to watch another connection or
    endpoint, a goroutine that was never scheduled has not moved, and the
    trace only grows. *)
Theorem execution_never_undoes (env : Env) (ls : list Label) (w w' : World) :
  run env ls w = Ret tt w' ->
  (forall f, newClient (remotes (server w)) = Some f ->
             newClient (remotes (server w')) = Some f) /\
  (closed (server w) = true -> closed (server w') = true) /\
  (forall cl, cl ∈ notified w -> cl ∈ notified w') /\
  (forall j wt, goroutines w !! j = Some wt ->
     exists wt', goroutines w' !! j = Some wt' /\ w_cl wt' = w_cl wt /\
                 w_endpoint wt' = w_endpoint wt /\
                 (~ scheduled_in ls j -> wt' = wt)) /\
  length (goroutines w) <= length (goroutines w') /\
  (exists evs, trace w' = trace w ++ evs).
Proof.
  intros Hrun. pose proof (run_evolves _ _ _ _ Hrun) as Hev.
  split; [apply (ev_newClient _ _ _ Hev)|].
  split; [apply (ev_closed _ _ _ Hev)|].
  split; [apply (ev_notified _ _ _ Hev)|].
  split; [|split].
  - intros j wt Hj.
    destruct (ev_goroutines _ _ _ Hev j wt Hj) as (wt' & Hj' & Hcl & HE & Hpc).
    exists wt'. repeat split; try done.
    intros Hns. specialize (Hpc Hns). destruct wt, wt'. simpl in *. congruence.
  - destruct (decide (length (goroutines w) <= length (goroutines w'))) as [|Hlt]; [done|].
    destruct (lookup_lt_is_Some_2 (goroutines w) (length (goroutines w'))) as [wt Hwt];
      [lia|].
    destruct (ev_goroutines _ _ _ Hev _ wt Hwt) as (wt' & Hj' & _).
    apply lookup_lt_Some in Hj'. lia.
  - destruct (ev_trace _ _ _ Hev) as (evs & Htr & _). by exists evs.
Qed.

Lemma execution_never_undoes_witness :
  newClient (remotes (server Scenario.closed_retried)) = Some Scenario.dial_ok /\
  closed (server Scenario.closed_retried) = true.
Proof.
  assert (Hrun : run Scenario.env_ok [schedule 0 0; schedule 0 0; schedule 0 0]
                   Scenario.closed_after_check = Ret tt Scenario.closed_retried)
    by (vm_compute; reflexivity).
  destruct (execution_never_undoes _ _ _ _ Hrun) as (Hf & Hc & _).
  split.
  - apply Hf. vm_compute. reflexivity.
  - apply Hc. vm_compute. reflexivity.
Defined.

(** ** Steps touch one endpoint *)

Lemma lookup_conn_with_trace (w : World) (evs : list Event) (e : string) :
  lookup_conn (with_trace w evs) e = lookup_conn w e.
Proof. reflexivity. Qed.

Lemma lookup_conn_at_pc (w : World) (i : nat) (wt : Watcher) (pc : WatcherPC) (e : string) :
  lookup_conn (at_pc w i wt pc) e = lookup_conn w e.
Proof. reflexivity. Qed.

Lemma lookup_conn_after_failure (w : World) (i : nat) (wt : Watcher) (log : Logger)
    (b : ExponentialBackOff) (now : Z) (err : error) (e : string) :
  lookup_conn (after_failure w i wt log b now err) e = lookup_conn w e.
Proof. unfold after_failure. by destruct (_ =? _)%Z. Qed.

Lemma getOrCreateClient_frame (w w' : World) (ctx : Context) (log : Logger) (E e : string)
    (r : UpstreamClient + error) :
  getOrCreateClient ctx log E w = Ret r w' -> e <> E -> lookup_conn w' e = lookup_conn w e.
Proof.
  rewrite getOrCreateClient_eq. intros Hrun Hne.
  destruct (newClient _) as [f|]; [|done].
  destruct (lookup_conn w E); [by injection Hrun as _ <-|].
  destruct (f _ _ _); injection Hrun as _ <-; [|done].
  rewrite lookup_conn_created. by rewrite decide_False.
Qed.

Lemma tryReconnect_connect_frame (w w' : World) (ctx : Context) (log : Logger)
    (E e : string) (r : UpstreamClient + error) :
  tryReconnect_connect ctx log E w = Ret r w' -> e <> E -> lookup_conn w' e = lookup_conn w e.
Proof.
  unfold tryReconnect_connect. unfold mbind, M_bind, Log, mret, M_ret.
  rewrite emit_eq. intros Hrun Hne.
  destruct (getOrCreateClient ctx log E _) as [[cl|err] w1|] eqn:Hg; [| |done].
  - rewrite emit_eq in Hrun. injection Hrun as _ <-.
    rewrite lookup_conn_with_trace. by rewrite (getOrCreateClient_frame _ _ _ _ _ _ _ Hg).
  - injection Hrun as _ <-. by rewrite (getOrCreateClient_frame _ _ _ _ _ _ _ Hg).
Qed.

(** X8. A step changes the registry for one endpoint at most: the one named
    in the call of getOrCreateClient or closeAndRemoveClient, or the one the
    scheduled goroutine watches. Every other endpoint is looked up after the
    step as before; ConfigureRemoteClientFunc, getClient, the closing of the
    server, a change of the repositories and a disconnect signal change no
    entry at all. *)
Theorem step_touches_one_endpoint (env : Env) (l : Label) (w w' : World) (e : string) :
  step env l w = Ret tt w' ->
  touches w l <> Some e ->
  lookup_conn w' e = lookup_conn w e.
Proof.
  intros Hs Hne. destruct l as [f|E|ctx log E|E| |r|cl|i now]; simpl in Hs, Hne.
  - unfold ConfigureRemoteClientFunc in Hs. unfold mbind, M_bind, gets in Hs.
    destruct (newClient _); [done|]. by injection Hs as <-.
  - unfold getClient, mbind, M_bind, gets in Hs.
    destruct (conn_lookup _ _); by injection Hs as <-.
  - unfold mbind, M_bind in Hs.
    destruct (getOrCreateClient ctx log E w) as [r w1|] eqn:Hg; [|done].
    injection Hs as <-. eapply getOrCreateClient_frame; [done|]. congruence.
  - unfold closeAndRemoveClient in Hs. unfold mbind, M_bind, gets in Hs.
    destruct (conn_lookup _ _) as [cl|]; [|done]. injection Hs as <-.
    change (lookup_conn (without_conn w E) e = lookup_conn w e).
    rewrite lookup_conn_without. rewrite decide_False; [done | congruence].
  - by injection Hs as <-.
  - by injection Hs as <-.
  - by injection Hs as <-.
  - unfold mbind, M_bind, gets in Hs.
    destruct (goroutines w !! i) as [wt|] eqn:Hi; [|by injection Hs as <-].
    simpl in Hne. assert (HE : e <> w_endpoint wt) by congruence.
    destruct (w_pc wt) as [| | |b|b cl|] eqn:Hpc.
    + rewrite watcher_wait in Hs by done. destruct (bool_decide _); by injection Hs as <-.
    + rewrite watcher_check in Hs by done. by injection Hs as <-.
    + rewrite watcher_remove in Hs by done. injection Hs as <-.
      rewrite lookup_conn_at_pc, lookup_conn_without. by rewrite decide_False.
    + rewrite (watcher_try _ _ _ _ _ b) in Hs by done.
      destruct (tryReconnect_connect _ _ _ w) as [[cl|err] w1|] eqn:Ht; [| |done];
        injection Hs as <-.
      * rewrite lookup_conn_at_pc. by eapply tryReconnect_connect_frame.
      * rewrite lookup_conn_after_failure. by eapply tryReconnect_connect_frame.
    + rewrite (watcher_reestablish _ _ _ _ _ b cl) in Hs by done.
      destruct (reestablish_appends env cl ctxBackground (watcher_log (w_endpoint wt))
                  (w_endpoint wt) w) as ([err|] & evs & Hre & _);
        rewrite Hre in Hs; injection Hs as <-.
      * by rewrite lookup_conn_after_failure.
      * done.
    + rewrite watcher_exited in Hs by done. by injection Hs as <-.
Qed.

Lemma step_touches_one_endpoint_witness :
  lookup_conn Scenario.two_peers_removed Scenario.peerA = None /\
  lookup_conn Scenario.two_peers_removed "peerB" = Some (client 5).
Proof.
  assert (Hs : step Scenario.env_ok (schedule 0 0) Scenario.two_peers_checked
               = Ret tt Scenario.two_peers_removed) by (vm_compute; reflexivity).
  split; [vm_compute; reflexivity|].
  rewrite (step_touches_one_endpoint Scenario.env_ok (schedule 0 0)
             Scenario.two_peers_checked Scenario.two_peers_removed "peerB" Hs).
  - vm_compute. reflexivity.
  - vm_compute. discriminate.
Defined.

(** ** Re-establishment: empty and failure-free cases *)

Lemma for_range_noop {V} (l : list (string * V)) (body : string -> V -> M (option error))
    (w : World) :
  (forall k v, (k, v) ∈ l -> body k v w = Ret None w) ->
  for_range l body w = Ret None w.
Proof.
  induction l as [|[k v] l IH]; intros Hbody; [done|].
  cbn [for_range]. unfold mbind, M_bind. rewrite Hbody by (by left).
  apply IH. intros k' v' Hin. apply Hbody. by right.
Qed.

(** X6. When no remote of any repository points at the endpoint (in
    particular when the server has no repository, or a repository has no
    remote), re-establishment returns nil and does nothing at all: no call,
    no log line. *)
Theorem reestablish_without_remote_does_nothing (env : Env) (cl : UpstreamClient)
    (ctx : Context) (log : Logger) (E : string) (w : World) :
  range_ok env ->
  no_remote_at (repos (server w)) E ->
  reestablish env cl ctx log E w = Ret None w.
Proof.
  intros Hrange Hno. unfold reestablish. unfold mbind, M_bind, gets, range, now_, mret, M_ret.
  apply for_range_noop. intros repoName repo Hin.
  rewrite (Hrange _ _ _) in Hin. apply elem_of_map_to_list in Hin.
  unfold reestablishRepo. unfold mbind at 1, M_bind at 1, gets, range, now_, mret, M_ret.
  unfold mbind at 1, M_bind at 1.
  apply for_range_noop. intros remoteName remote Hin'.
  rewrite (Hrange _ _ _) in Hin'. apply elem_of_map_to_list in Hin'.
  rewrite decide_False; [done|]. by eapply Hno.
Qed.

Lemma reestablish_without_remote_does_nothing_witness :
  reestablish Scenario.env_watch_fails (client 0) ctxBackground (watcher_log "peerB") "peerB"
    Scenario.connected2 = Ret None Scenario.connected2 /\
  reestablish Scenario.env_ok (client 0) ctxBackground baseLogger Scenario.peerA
    (newWorld ∅) = Ret None (newWorld ∅).
Proof.
  split.
  - apply reestablish_without_remote_does_nothing.
    + intros V t m. reflexivity.
    + intros repoName repo remoteName remote Hrepo Hremote.
      change (repos (server Scenario.connected2)) with Scenario.repos2 in Hrepo.
      unfold Scenario.repos2 in Hrepo.
      apply lookup_insert_Some in Hrepo as [[_ <-]|[_ Hrepo]].
      * unfold Scenario.r1 in Hremote. cbn [config Remotes] in Hremote.
        apply lookup_singleton_Some in Hremote as [_ <-]. discriminate.
      * apply lookup_singleton_Some in Hrepo as [_ <-].
        unfold Scenario.r2 in Hremote. cbn [config Remotes] in Hremote.
        apply lookup_singleton_Some in Hremote as [_ <-]. discriminate.
  - apply reestablish_without_remote_does_nothing.
    + intros V t m. reflexivity.
    + intros repoName repo remoteName remote Hrepo.
      change (repos (server (newWorld ∅))) with (∅ : gmap string serverRepo) in Hrepo.
      by rewrite lookup_empty in Hrepo.
Defined.

Lemma reestablish_answered (env : Env) (cl : UpstreamClient) (ctx : Context)
    (log : Logger) (E : string) :
  appends (answered_by env) (reestablish env cl ctx log E).
Proof.
  unfold reestablish.
  apply appends_bind; [apply appends_gets|]. intros s.
  apply appends_bind; [apply appends_range|]. intros repos_.
  apply appends_for_range. intros repoName repo. unfold reestablishRepo.
  apply appends_bind; [apply appends_range|]. intros remotes_.
  apply appends_for_range. intros remoteName remote.
  destruct (decide _); [|apply appends_ret].
  apply appends_bind; [by apply appends_emit|]. intros _.
  apply appends_bind.
  { unfold call_RepoWatch, now_. apply appends_bind; [apply appends_gets|]. intros t.
    apply appends_bind; [apply appends_emit; by exists t | intros _; apply appends_ret]. }
  intros [err|]; [apply appends_ret|].
  apply appends_bind; [apply appends_range|]. intros refs_.
  apply appends_for_range. intros refName refConfig. simpl.
  destruct (refdb repo !! refName) as [o|]; [|apply appends_ret].
  destruct (_ && _); [|apply appends_ret].
  unfold call_RefUpdate, now_. apply appends_bind; [apply appends_gets|]. intros t.
  apply appends_bind; [apply appends_emit; by exists t | intros _; apply appends_ret].
Qed.

Lemma answered_never_fails (env : Env) (ev : Event) :
  env_never_fails env -> answered_by env ev -> call_error ev = None.
Proof.
  intros [Hw Hu]. destruct ev; simpl; try done.
  - intros [t ->]. apply Hw.
  - intros [t ->]. apply Hu.
Qed.

(** X10. The answer recorded with every call of re-establishment is the
    upstream's. When the upstream accepts every watch and every update,
    re-establishment returns nil and has made exactly the calls that are due
    for the endpoint: a failing call is the only way for it to return an
    error. *)
Theorem reestablish_succeeds_when_upstream_accepts (env : Env) (cl : UpstreamClient)
    (ctx : Context) (log : Logger) (E : string) (w : World) :
  range_ok env ->
  exists r evs,
    reestablish env cl ctx log E w = Ret r (with_trace w evs) /\
    Forall (answered_by env) evs /\
    (env_never_fails env ->
     r = None /\
     omap call_of evs ≡ₚ expected_calls (repos (server w)) E /\
     Forall (fun ev => call_error ev = None) evs).
Proof.
  intros Hrange.
  destruct (reestablish_issues env cl ctx log E Hrange w)
    as (r & evs & Hrun & _ & Hall & Hstop).
  destruct (reestablish_answered env cl ctx log E w) as (r' & evs' & Hrun' & Hans).
  assert (evs' = evs) as ->.
  { rewrite Hrun in Hrun'. injection Hrun' as _ Htr. by apply app_inv_head in Htr. }
  exists r, evs. split; [done|]. split; [done|].
  intros Hok.
  assert (Hnone : Forall (fun ev => call_error ev = None) evs).
  { eapply Forall_impl; [done|]. intros ev. by apply answered_never_fails. }
  assert (Hr : r = None).
  { destruct r as [err|]; [|done]. simpl in Hstop.
    destruct Hstop as (evs0 & ev & -> & _ & Herr).
    apply Forall_app in Hnone as [_ Hlast]. apply Forall_inv in Hlast.
    cbv beta in Hlast. congruence. }
  split; [done|]. split; [by apply Hall | done].
Qed.

Lemma reestablish_succeeds_when_upstream_accepts_witness :
  exists evs,
    reestablish Scenario.env_ok (client 0) ctxBackground (watcher_log Scenario.peerA)
      Scenario.peerA Scenario.connected2 = Ret None (with_trace Scenario.connected2 evs) /\
    omap call_of evs ≡ₚ expected_calls Scenario.repos2 Scenario.peerA.
Proof.
  destruct (reestablish_succeeds_when_upstream_accepts Scenario.env_ok (client 0)
              ctxBackground (watcher_log Scenario.peerA) Scenario.peerA Scenario.connected2)
    as (r & evs & Hrun & _ & Hok).
  { intros V t m. reflexivity. }
  destruct Hok as (-> & Hperm & _); [by split|].
  exists evs. split; [exact Hrun | exact Hperm].
Defined.

(** ** A whole reconnection *)

(** From the signal to the start of the retry loop, with the watcher running
    alone. *)
Lemma signal_to_retry_loop (env : Env) (w : World) (i : nat) (wt : Watcher)
    (now1 now2 now3 : Z) :
  goroutines w !! i = Some wt ->
  w_pc wt = pcWaitDisconnect ->
  w_cl wt ∈ notified w ->
  closed (server w) = false ->
  run env [schedule i now1; schedule i now2; schedule i now3] w =
    Ret tt (at_pc (without_conn (with_trace w [disconnected_event (w_endpoint wt)])
                     (w_endpoint wt))
              i wt (pcTryReconnect (Reset remoteBackOff now3))).
Proof.
  intros Hi Hpc Hn Hc.
  set (wt1 := {| w_cl := w_cl wt; w_endpoint := w_endpoint wt; w_pc := pcCheckClosed |}).
  set (wt2 := {| w_cl := w_cl wt; w_endpoint := w_endpoint wt; w_pc := pcRemoveEntry |}).
  set (w1 := at_pc w i wt pcCheckClosed).
  set (w2 := at_pc w1 i wt1 pcRemoveEntry).
  assert (Hi1 : goroutines w1 !! i = Some wt1) by (by eapply at_pc_lookup).
  assert (Hi2 : goroutines w2 !! i = Some wt2) by (by eapply (at_pc_lookup w1)).
  assert (Hs1 : step env (schedule i now1) w = Ret tt w1).
  { rewrite (step_schedule _ _ _ wt) by done. rewrite watcher_wait by done.
    by rewrite bool_decide_eq_true_2. }
  assert (Hs2 : step env (schedule i now2) w1 = Ret tt w2).
  { rewrite (step_schedule _ _ _ wt1) by done. rewrite watcher_check by done.
    change (closed (server w1)) with (closed (server w)). by rewrite Hc. }
  assert (Hs3 : step env (schedule i now3) w2 =
                Ret tt (at_pc (without_conn (with_trace w2
                                  [disconnected_event (w_endpoint wt)]) (w_endpoint wt))
                          i wt2 (pcTryReconnect (Reset remoteBackOff now3)))).
  { rewrite (step_schedule _ _ _ wt2) by done. by rewrite watcher_remove. }
  cbn [run]. unfold mbind, M_bind. rewrite Hs1, Hs2, Hs3. unfold mret, M_ret.
  f_equal. unfold at_pc, without_conn, with_trace, w2, w1. simpl.
  by rewrite !list_insert_insert_eq.
Qed.

(** X9. A whole reconnection, with the watcher running alone: the connection
    of endpoint E has signalled its disconnection, the server is not closed,
    the factory hands back a new connection at the first attempt and the
    upstream accepts every call. Then five actions of the watcher end it:
    the registry holds the new connection for E, a new goroutine waits for
    the new connection's disconnect signal, and between the log lines the
    trace shows one creation and exactly the watch calls and forced updates
    that are due for E, made on the new connection. *)
Theorem reconnection_succeeds (env : Env) (w : World) (i : nat) (wt : Watcher)
    (f : newClientFunc) (cl' : UpstreamClient) (now1 now2 now3 now4 now5 : Z) :
  range_ok env ->
  env_never_fails env ->
  goroutines w !! i = Some wt ->
  w_pc wt = pcWaitDisconnect ->
  w_cl wt ∈ notified w ->
  closed (server w) = false ->
  newClient (remotes (server w)) = Some f ->
  f (S (S (length (trace w)))) ctxServerBg (w_endpoint wt) = inl cl' ->
  exists w' evs,
    run env [schedule i now1; schedule i now2; schedule i now3; schedule i now4;
             schedule i now5] w = Ret tt w' /\
    lookup_conn w' (w_endpoint wt) = Some cl' /\
    (forall e, e <> w_endpoint wt -> lookup_conn w' e = lookup_conn w e) /\
    goroutines w' =
      <[i := {| w_cl := w_cl wt; w_endpoint := w_endpoint wt; w_pc := pcExited |}]>
        (goroutines w) ++
      [{| w_cl := cl'; w_endpoint := w_endpoint wt; w_pc := pcWaitDisconnect |}] /\
    trace w' = trace w ++
      [ disconnected_event (w_endpoint wt);
        EvLog (watcher_log (w_endpoint wt)) levelDebug [("try-reconnect", EmptyString)] ] ++
      creation_events (watcher_log (w_endpoint wt)) (w_endpoint wt) cl' ++
      [ EvLog (watcher_log (w_endpoint wt)) levelDebug [("reconnect-ok", EmptyString)] ] ++
      evs /\
    Forall (reestablish_event cl' ctxBackground) evs /\
    omap call_of evs ≡ₚ expected_calls (repos (server w)) (w_endpoint wt).
Proof.
  intros Hrange Hok Hi Hpc Hn Hc Hf Hd.
  set (E := w_endpoint wt) in *.
  set (log := watcher_log E).
  set (b0 := Reset remoteBackOff now3).
  set (wt3 := {| w_cl := w_cl wt; w_endpoint := E; w_pc := pcTryReconnect b0 |}).
  set (w3 := at_pc (without_conn (with_trace w [disconnected_event E]) E) i wt
               (pcTryReconnect b0)).
  assert (Hrun3 : run env [schedule i now1; schedule i now2; schedule i now3] w = Ret tt w3)
    by (by apply signal_to_retry_loop).
  assert (Hi3 : goroutines w3 !! i = Some wt3) by (by eapply at_pc_lookup).
  set (w3' := with_trace w3 [EvLog log levelDebug [("try-reconnect", EmptyString)]]).
  set (w4' := with_trace (created w3' log E cl')
                [EvLog log levelDebug [("reconnect-ok", EmptyString)]]).
  assert (Hconnect : tryReconnect_connect ctxBackground log E w3 = Ret (inl cl') w4').
  { unfold tryReconnect_connect. unfold mbind, M_bind, Log, mret, M_ret.
    rewrite emit_eq. fold w3'. rewrite getOrCreateClient_eq.
    change (newClient (remotes (server w3'))) with (newClient (remotes (server w))).
    rewrite Hf.
    assert (Hl : lookup_conn w3' E = None).
    { change (lookup_conn w3' E)
        with (lookup_conn (without_conn (with_trace w [disconnected_event E]) E) E).
      rewrite lookup_conn_without. by rewrite decide_True. }
    rewrite Hl.
    assert (Hlen : length (trace w3') = S (S (length (trace w)))).
    { unfold w3', w3. simpl. rewrite !length_app. simpl. lia. }
    rewrite Hlen, Hd. by rewrite emit_eq. }
  set (w4 := at_pc w4' i wt3 (pcReestablish b0 cl')).
  set (wt4 := {| w_cl := w_cl wt; w_endpoint := E; w_pc := pcReestablish b0 cl' |}).
  assert (Hs4 : step env (schedule i now4) w3 = Ret tt w4).
  { rewrite (step_schedule _ _ _ wt3) by done.
    rewrite (watcher_try _ _ _ _ _ b0) by done.
    change (w_endpoint wt3) with E. fold log. by rewrite Hconnect. }
  assert (Hi4 : goroutines w4 !! i = Some wt4).
  { unfold w4. erewrite at_pc_lookup; [done|].
    unfold w4', w3'. simpl. rewrite lookup_app_l by (by eapply lookup_lt_Some). done. }
  destruct (reestablish_issues env cl' ctxBackground log E Hrange w4)
    as (r & evs & Hre & _ & Hall & Hstop).
  destruct (reestablish_answered env cl' ctxBackground log E w4) as (r1 & evs1 & Hre1 & Hans).
  assert (evs1 = evs) as ->.
  { rewrite Hre in Hre1. injection Hre1 as _ Htr. by apply app_inv_head in Htr. }
  destruct (reestablish_appends env cl' ctxBackground log E w4) as (r2 & evs2 & Hre2 & Hevs).
  assert (evs2 = evs) as ->.
  { rewrite Hre in Hre2. injection Hre2 as _ Htr. by apply app_inv_head in Htr. }
  assert (Hr : r = None).
  { destruct r as [err|]; [|done]. simpl in Hstop.
    destruct Hstop as (evs0 & ev & -> & _ & Herr).
    apply Forall_app in Hans as [_ Hlast]. apply Forall_inv in Hlast.
    apply (answered_never_fails env ev Hok) in Hlast. congruence. }
  subst r.
  assert (Hs5 : step env (schedule i now5) w4 = Ret tt (at_pc (with_trace w4 evs) i wt4 pcExited)).
  { rewrite (step_schedule _ _ _ wt4) by done.
    rewrite (watcher_reestablish _ _ _ _ _ b0 cl') by done.
    change (w_endpoint wt4) with E. fold log. by rewrite Hre. }
  exists (at_pc (with_trace w4 evs) i wt4 pcExited), evs.
  split; [|split; [|split; [|split; [|split; [|split]]]]].
  - change [schedule i now1; schedule i now2; schedule i now3; schedule i now4;
            schedule i now5]
      with ([schedule i now1; schedule i now2; schedule i now3] ++
            [schedule i now4; schedule i now5]).
    cbn [run app] in *. unfold mbind, M_bind in *.
    destruct (step env (schedule i now1) w) as [[] x1|]; [|done].
    destruct (step env (schedule i now2) x1) as [[] x2|]; [|done].
    destruct (step env (schedule i now3) x2) as [[] x3|]; [|done].
    injection Hrun3 as ->. by rewrite Hs4, Hs5.
  - change (lookup_conn (created w3' log E cl') E = Some cl').
    rewrite lookup_conn_created. by rewrite decide_True.
  - intros e He.
    change (lookup_conn (created w3' log E cl') e = lookup_conn w e).
    rewrite lookup_conn_created, decide_False by done.
    change (lookup_conn (without_conn (with_trace w [disconnected_event E]) E) e
            = lookup_conn w e).
    rewrite lookup_conn_without. by rewrite decide_False.
  - unfold at_pc, with_trace, w4, w4', created, w3', w3. simpl.
    assert (Hlt : i < length (goroutines w)) by (by eapply lookup_lt_Some).
    rewrite !insert_app_l by (by rewrite ?length_insert).
    by rewrite !list_insert_insert_eq.
  - unfold at_pc, with_trace, w4, w4', created, w3', w3. simpl.
    by rewrite <- !app_assoc.
  - done.
  - by apply Hall.
Qed.

Lemma reconnection_succeeds_witness :
  exists w',
    run Scenario.env_ok [schedule 0 0; schedule 0 0; schedule 0 0; schedule 0 0; schedule 0 0]
      Scenario.signalled = Ret tt w' /\
    lookup_conn w' Scenario.peerA = Some (client 7) /\
    goroutines w' =
      [ {| w_cl := client 0; w_endpoint := Scenario.peerA; w_pc := pcExited |};
        {| w_cl := client 7; w_endpoint := Scenario.peerA; w_pc := pcWaitDisconnect |} ].
Proof.
  destruct (reconnection_succeeds Scenario.env_ok Scenario.signalled 0%nat
              {| w_cl := client 0; w_endpoint := Scenario.peerA; w_pc := pcWaitDisconnect |}
              Scenario.dial_ok (client 7) 0%Z 0%Z 0%Z 0%Z 0%Z)
    as (w' & evs & Hrun & Hl & _ & Hg & _).
  - intros V t m. reflexivity.
  - by split.
  - vm_compute. reflexivity.
  - reflexivity.
  - vm_compute. by left.
  - vm_compute. reflexivity.
  - vm_compute. reflexivity.
  - vm_compute. reflexivity.
  - exists w'. split; [exact Hrun|]. split; [exact Hl|].
    rewrite Hg. vm_compute. reflexivity.
Defined.

(** ** One attempt of the watcher is one call of tryReconnect *)

Section Commutes.

Variable g : World -> World.
Hypothesis g_server : forall w, server (g w) = server w.
Hypothesis g_trace : forall w, trace (g w) = trace w.
Hypothesis g_with_trace : forall w evs, g (with_trace w evs) = with_trace (g w) evs.

Lemma commutes_ret {A} (a : A) : commutes_with g (mret a).
Proof. by intros w. Qed.

Lemma commutes_bind {A B} (m : M A) (k : A -> M B) :
  commutes_with g m -> (forall a, commutes_with g (k a)) -> commutes_with g (m ≫= k).
Proof.
  intros Hm Hk w. unfold mbind, M_bind. rewrite Hm.
  destruct (m w) as [a w1|msg w1]; simpl; [apply Hk | done].
Qed.

Lemma commutes_gets {A} (f : World -> A) :
  (forall w, f (g w) = f w) -> commutes_with g (gets f).
Proof. intros Hf w. unfold gets. simpl. by rewrite Hf. Qed.

Lemma commutes_emit (ev : Event) : commutes_with g (emit ev).
Proof. intros w. rewrite !emit_eq. simpl. by rewrite g_with_trace. Qed.

Lemma commutes_now : commutes_with g now_.
Proof. apply commutes_gets. intros w. by rewrite g_trace. Qed.

Lemma commutes_for_range {V} (l : list (string * V))
    (body : string -> V -> M (option error)) :
  (forall k v, commutes_with g (body k v)) -> commutes_with g (for_range l body).
Proof.
  intros Hbody. induction l as [|[k v] l IH]; [apply commutes_ret|].
  cbn [for_range]. apply commutes_bind; [apply Hbody|].
  intros [err|]; [apply commutes_ret | apply IH].
Qed.

Lemma commutes_range {V} (env : Env) (m : gmap string V) : commutes_with g (range env m).
Proof.
  unfold range. apply commutes_bind; [apply commutes_now|]. intros t. apply commutes_ret.
Qed.

Lemma commutes_reestablish (env : Env) (cl : UpstreamClient) (ctx : Context)
    (log : Logger) (E : string) :
  commutes_with g (reestablish env cl ctx log E).
Proof.
  unfold reestablish.
  apply commutes_bind; [by apply commutes_gets|]. intros s.
  apply commutes_bind; [apply commutes_range|]. intros repos_.
  apply commutes_for_range. intros repoName repo. unfold reestablishRepo.
  apply commutes_bind; [apply commutes_range|]. intros remotes_.
  apply commutes_for_range. intros remoteName remote.
  destruct (decide _); [|apply commutes_ret].
  apply commutes_bind; [apply commutes_emit|]. intros _.
  apply commutes_bind.
  { unfold call_RepoWatch. apply commutes_bind; [apply commutes_now|]. intros t.
    apply commutes_bind; [apply commutes_emit | intros _; apply commutes_ret]. }
  intros [err|]; [apply commutes_ret|].
  apply commutes_bind; [apply commutes_range|]. intros refs_.
  apply commutes_for_range. intros refName refConfig. simpl.
  destruct (refdb repo !! refName) as [o|]; [|apply commutes_ret].
  destruct (_ && _); [|apply commutes_ret].
  unfold call_RefUpdate. apply commutes_bind; [apply commutes_now|]. intros t.
  apply commutes_bind; [apply commutes_emit | intros _; apply commutes_ret].
Qed.

End Commutes.

Lemma reestablish_at_pc (env : Env) (cl : UpstreamClient) (ctx : Context) (log : Logger)
    (E : string) (w : World) (i : nat) (wt : Watcher) (pc : WatcherPC) :
  reestablish env cl ctx log E (at_pc w i wt pc) =
    map_world (fun w => at_pc w i wt pc) (reestablish env cl ctx log E w).
Proof. by apply (commutes_reestablish (fun w => at_pc w i wt pc)). Qed.

Lemma at_pc_at_pc (w : World) (i : nat) (wt wt' : Watcher) (pc pc' : WatcherPC) :
  w_cl wt' = w_cl wt -> w_endpoint wt' = w_endpoint wt ->
  at_pc (at_pc w i wt pc) i wt' pc' = at_pc w i wt pc'.
Proof.
  intros Hcl HE. unfold at_pc. simpl. by rewrite list_insert_insert_eq, Hcl, HE.
Qed.

Lemma after_failure_at_pc (w : World) (i : nat) (wt wt' : Watcher) (pc : WatcherPC)
    (log : Logger) (b : ExponentialBackOff) (now : Z) (err : error) :
  w_cl wt' = w_cl wt -> w_endpoint wt' = w_endpoint wt ->
  after_failure (at_pc w i wt pc) i wt' log b now err = after_failure w i wt log b now err.
Proof.
  intros Hcl HE. unfold after_failure.
  destruct (_ =? _)%Z.
  - change (with_trace (at_pc w i wt pc) ?evs) with (at_pc (with_trace w evs) i wt pc).
    by apply at_pc_at_pc.
  - change (with_trace (at_pc w i wt pc) ?evs) with (at_pc (with_trace w evs) i wt pc).
    by apply at_pc_at_pc.
Qed.

(** X7. One attempt of the watcher's retry loop, run without interruption,
    is one call of tryReconnect under [context.Background()] with the
    watcher's logger, followed by the bookkeeping of the loop: when
    tryReconnect returns nil the watcher ends, when it returns an error the
    backoff schedule decides between another attempt and giving up, and a
    panic of tryReconnect is the watcher's. *)
Theorem watcher_attempt_is_tryReconnect (env : Env) (w : World) (i : nat) (wt : Watcher)
    (b : ExponentialBackOff) (now : Z) :
  goroutines w !! i = Some wt ->
  w_pc wt = pcTryReconnect b ->
  run env (attempt w i wt now) w =
    match tryReconnect env ctxBackground (watcher_log (w_endpoint wt)) (w_endpoint wt) w with
    | Ret None w1 => Ret tt (at_pc w1 i wt pcExited)
    | Ret (Some err) w1 =>
        Ret tt (after_failure w1 i wt (watcher_log (w_endpoint wt)) b now err)
    | Panic msg w1 => Panic msg w1
    end.
Proof.
  intros Hi Hpc. unfold attempt, tryReconnect. unfold mbind, M_bind.
  set (E := w_endpoint wt). set (log := watcher_log E).
  assert (Hs : step env (schedule i now) w =
               match tryReconnect_connect ctxBackground log E w with
               | Ret (inl cl) w1 => Ret tt (at_pc w1 i wt (pcReestablish b cl))
               | Ret (inr err) w1 => Ret tt (after_failure w1 i wt log b now err)
               | Panic msg w1 => Panic msg w1
               end).
  { rewrite (step_schedule _ _ _ wt) by done. by apply watcher_try. }
  destruct (tryReconnect_connect ctxBackground log E w) as [[cl|err] w1|] eqn:Ht.
  - cbn [run]. unfold mbind at 1, M_bind at 1. rewrite Hs.
    destruct (ev_goroutines _ _ _ (tryReconnect_connect_evolves (eq i) _ _ _ _ _ _ Ht)
                i wt Hi) as (wt1 & Hi1 & Hcl1 & HE1 & _).
    set (wt' := {| w_cl := w_cl wt; w_endpoint := w_endpoint wt;
                   w_pc := pcReestablish b cl |}).
    assert (Hi' : goroutines (at_pc w1 i wt (pcReestablish b cl)) !! i = Some wt')
      by (by eapply at_pc_lookup).
    unfold mbind at 1, M_bind at 1.
    rewrite (step_schedule _ _ _ wt') by done.
    rewrite (watcher_reestablish _ _ _ _ _ b cl) by done.
    change (w_endpoint wt') with E. fold log.
    rewrite reestablish_at_pc.
    destruct (reestablish_appends env cl ctxBackground log E w1) as ([err|] & evs & -> & _);
      simpl.
    + unfold mret, M_ret. by rewrite after_failure_at_pc.
    + unfold mret, M_ret. by rewrite at_pc_at_pc.
  - cbn [run]. unfold mbind, M_bind. rewrite Hs. done.
  - cbn [run]. unfold mbind, M_bind. rewrite Hs. done.
Qed.

Lemma watcher_attempt_is_tryReconnect_witness :
  attempt Scenario.removed 0
    {| w_cl := client 0; w_endpoint := Scenario.peerA;
       w_pc := pcTryReconnect (Reset remoteBackOff 0) |} 0
  = [schedule 0 0; schedule 0 0] /\
  Scenario.result_of
    (tryReconnect Scenario.env_ok ctxBackground (watcher_log Scenario.peerA) Scenario.peerA
       Scenario.removed) = Some None /\
  run Scenario.env_ok
    (attempt Scenario.removed 0
       {| w_cl := client 0; w_endpoint := Scenario.peerA;
          w_pc := pcTryReconnect (Reset remoteBackOff 0) |} 0)
    Scenario.removed =
  match tryReconnect Scenario.env_ok ctxBackground (watcher_log Scenario.peerA)
          Scenario.peerA Scenario.removed with
  | Ret None w1 =>
      Ret tt (at_pc w1 0 {| w_cl := client 0; w_endpoint := Scenario.peerA;
                            w_pc := pcTryReconnect (Reset remoteBackOff 0) |} pcExited)
  | Ret (Some err) w1 =>
      Ret tt (after_failure w1 0
                {| w_cl := client 0; w_endpoint := Scenario.peerA;
                   w_pc := pcTryReconnect (Reset remoteBackOff 0) |}
                (watcher_log Scenario.peerA) (Reset remoteBackOff 0) 0 err)
  | Panic msg w1 => Panic msg w1
  end.
Proof.
  split; [vm_compute; reflexivity|]. split; [vm_compute; reflexivity|].
  apply (watcher_attempt_is_tryReconnect Scenario.env_ok Scenario.removed 0%nat
           {| w_cl := client 0; w_endpoint := Scenario.peerA;
              w_pc := pcTryReconnect (Reset remoteBackOff 0) |}
           (Reset remoteBackOff 0) 0%Z).
  - vm_compute. reflexivity.
  - reflexivity.
Defined.

(** ** tryReconnect, case by case *)

(** X11. tryReconnect with the factory configured. When the registry already
    holds a connection for the endpoint (another caller was faster) it calls
    no factory and re-establishes on that connection. When there is no entry
    and the factory fails, it returns the factory's error at once: no watch
    call, no update, no entry, no goroutine. When the factory succeeds it
    re-establishes on the new connection, in the world of the creation. *)
Theorem tryReconnect_cases (env : Env) (w : World) (f : newClientFunc) (ctx : Context)
    (log : Logger) (E : string) :
  newClient (remotes (server w)) = Some f ->
  (forall cl, lookup_conn w E = Some cl ->
     tryReconnect env ctx log E w =
       reestablish env cl ctx log E
         (with_trace w [try_reconnect_event log; reconnect_ok_event log])) /\
  (forall err, lookup_conn w E = None ->
     f (S (length (trace w))) ctxServerBg E = inr err ->
     tryReconnect env ctx log E w =
       Ret (Some err)
         (with_trace w [try_reconnect_event log; EvNewClient ctxServerBg E (inr err)])) /\
  (forall cl, lookup_conn w E = None ->
     f (S (length (trace w))) ctxServerBg E = inl cl ->
     tryReconnect env ctx log E w =
       reestablish env cl ctx log E
         (with_trace (created (with_trace w [try_reconnect_event log]) log E cl)
            [reconnect_ok_event log])).
Proof.
  intros Hf.
  assert (Hlen : length (trace (with_trace w [try_reconnect_event log]))
                 = S (length (trace w))).
  { simpl. rewrite length_app. simpl. lia. }
  split; [|split].
  - intros cl Hl. unfold tryReconnect, tryReconnect_connect.
    unfold mbind, M_bind, Log, mret, M_ret. rewrite emit_eq, getOrCreateClient_eq.
    change (newClient (remotes (server (with_trace w ?evs)))) with
      (newClient (remotes (server w))).
    change (lookup_conn (with_trace w ?evs) E) with (lookup_conn w E).
    rewrite Hf, Hl, emit_eq. by rewrite with_trace_app.
  - intros err Hl Hd. unfold tryReconnect, tryReconnect_connect.
    unfold mbind, M_bind, Log, mret, M_ret. rewrite emit_eq, getOrCreateClient_eq.
    change (newClient (remotes (server (with_trace w ?evs)))) with
      (newClient (remotes (server w))).
    change (lookup_conn (with_trace w ?evs) E) with (lookup_conn w E).
    rewrite Hf, Hl. fold (try_reconnect_event log). rewrite Hlen, Hd.
    by rewrite with_trace_app.
  - intros cl Hl Hd. unfold tryReconnect, tryReconnect_connect.
    unfold mbind, M_bind, Log, mret, M_ret. rewrite emit_eq, getOrCreateClient_eq.
    change (newClient (remotes (server (with_trace w ?evs)))) with
      (newClient (remotes (server w))).
    change (lookup_conn (with_trace w ?evs) E) with (lookup_conn w E).
    rewrite Hf, Hl. fold (try_reconnect_event log). rewrite Hlen, Hd.
    by rewrite emit_eq.
Qed.

Lemma tryReconnect_cases_witness :
  tryReconnect Scenario.env_ok ctxBackground (watcher_log Scenario.peerA) Scenario.peerA
    Scenario.retrying =
  Ret (Some (errorString "connection refused"))
    (with_trace Scenario.retrying
       [try_reconnect_event (watcher_log Scenario.peerA);
        EvNewClient ctxServerBg Scenario.peerA (inr (errorString "connection refused"))]).
Proof.
  apply (tryReconnect_cases Scenario.env_ok Scenario.retrying Scenario.dial_once
           ctxBackground (watcher_log Scenario.peerA) Scenario.peerA).
  - vm_compute. reflexivity.
  - vm_compute. reflexivity.
  - vm_compute. reflexivity.
Defined.

(** ** Watchers wait for the signal *)

(** X12. As long as no connection has signalled its disconnection, the
    watchers that wait for a signal are inert: scheduling goroutines, in any
    order and any number of times, changes nothing, not the registry, not
    the trace and not the goroutines. *)
Theorem watchers_wait_for_signal (env : Env) (w : World) (ls : list Label) :
  notified w = [] ->
  Forall (fun wt => w_pc wt = pcWaitDisconnect) (goroutines w) ->
  Forall is_schedule ls ->
  run env ls w = Ret tt w.
Proof.
  intros Hn Hwait Hls. induction Hls as [|l ls Hl _ IH]; [done|].
  cbn [run]. unfold mbind at 1, M_bind at 1.
  assert (Hs : step env l w = Ret tt w).
  { destruct l as [| | | | | | |i now]; try done. simpl.
    unfold mbind, M_bind, gets.
    destruct (goroutines w !! i) as [wt|] eqn:Hi; [|done].
    rewrite watcher_wait.
    - rewrite Hn. by rewrite bool_decide_eq_false_2 by (by intros ?%elem_of_nil).
    - by apply (proj1 (Forall_lookup _ _) Hwait i wt). }
  by rewrite Hs.
Qed.

Lemma watchers_wait_for_signal_witness :
  run Scenario.env_ok [schedule 0 0; schedule 1 5; schedule 0 7] Scenario.connected
    = Ret tt Scenario.connected.
Proof.
  apply watchers_wait_for_signal.
  - vm_compute. reflexivity.
  - vm_compute. by repeat constructor.
  - by repeat constructor.
Defined.

(** ** Callbacks are registered once per connection *)

Lemma registered_once_app (tr evs : list Event) :
  registered_once tr -> registered_once evs -> registered_once (tr ++ evs).
Proof.
  unfold registered_once, goroutines_started, ref_update_callbacks, symbolic_callbacks,
    successful_dials.
  intros (Hg & Hr & Hs) (Hg' & Hr' & Hs').
  rewrite !omap_app, !fmap_app. by rewrite Hg, Hr, Hs, Hg', Hr', Hs'.
Qed.

Lemma registered_once_quiet (evs : list Event) :
  Forall quiet evs -> registered_once evs.
Proof.
  induction 1 as [|ev evs Hev _ IH]; [done|].
  change (ev :: evs) with ([ev] ++ evs). apply registered_once_app; [|done].
  by destruct ev as [? ? [|]| | | | | | | |].
Qed.

Lemma change_keeps_registered_once (w w' : World) :
  change w w' -> registered_once (trace w) -> registered_once (trace w').
Proof.
  intros Hch Hinv. destruct Hch as [w evs Hq|w i wt0 wt pc Hi Hcl HE|w E|w f log E cl Hf Hl Hd|
                                    w s Hc Hn|w cl]; simpl; try done.
  - apply registered_once_app; [done | by apply registered_once_quiet].
  - by apply registered_once_app.
Qed.

(** X13. In every reachable state the trace shows, for each connection the
    factory has handed back and for nothing else, one goroutine started, one
    ref-update callback registered, which forwards to the server's handler
    with the endpoint the connection was made for, and one symbolic-ref
    callback registered, which does nothing. No callback is ever registered
    again. *)
Theorem callbacks_registered_once (env : Env) (w : World) :
  reachable env w -> registered_once (trace w).
Proof.
  intros (r & ls & Hrun).
  apply (rtc_ind_r (R := change) (fun w => registered_once (trace w)) (newWorld r));
    [done | | by eapply run_changes].
  intros w1 w2 _ Hch IH. by eapply change_keeps_registered_once.
Qed.

Lemma callbacks_registered_once_witness :
  ref_update_callbacks (trace Scenario.closed_retried) =
    [(client 0, forwardRefUpdate Scenario.peerA); (client 7, forwardRefUpdate Scenario.peerA)].
Proof.
  assert (Hreach : reachable Scenario.env_ok Scenario.closed_retried).
  { exists Scenario.repos1.
    exists [callConfigureRemoteClientFunc (Some Scenario.dial_ok);
            callGetOrCreateClient (ctxRequest 0) baseLogger Scenario.peerA;
            disconnectNotify (client 0); schedule 0 0; schedule 0 0; serverClose;
            schedule 0 0; schedule 0 0; schedule 0 0].
    vm_compute. reflexivity. }
  destruct (callbacks_registered_once Scenario.env_ok Scenario.closed_retried Hreach)
    as (_ & Hr & _).
  rewrite Hr. vm_compute. reflexivity.
Defined.
